(** * Kartago-Engineers: the search and time-management core of the
    Turm & Waechter engine (alpha_beta_ki.py, Min_max.py)

    A shallow embedding of the Python sources and the properties the
    specification states about them.

    Conventions of the embedding
    - Python [int] is [Z]; the infinite floats [float('inf')] and
      [-float('inf')] that the search mixes with integers are the two
      extra points of [Score].
    - Wall-clock values and time budgets are rationals [Q]: a float is the
      rational it holds, a float literal 0.2, 0.05, ... is written as the
      decimal it spells and rounded to the float it denotes where
      arithmetic uses it; the arithmetic of floats rounds as binary64 does
      ([Float.fl]).
    - A Python [str] is a [string], one character per code point below 256.
    - A raised exception is an explicit result ([None], [Raised]).
    - The module globals [nodes_visited], [ttable], [time_start] and
      [time_budget] are the fields of [State], threaded through every call;
      the clock is a counter of the readings of [time.time()] made so far. *)

From Stdlib Require Import ZArith QArith Strings.String Strings.Ascii List Lia Bool
  DecimalString DecimalPos.
From stdpp Require Import gmap strings list fin_maps.

Open Scope string_scope.
Open Scope Z_scope.

(* ===================================================================== *)
(** * Python string primitives used by the sources *)
(* ===================================================================== *)

Module PyStr.

(** [str.isspace] on one character (code points below 256). *)
Definition is_space (c : ascii) : bool :=
  let n := nat_of_ascii c in
  ((9 <=? n)%nat && (n <=? 13)%nat) || ((28 <=? n)%nat && (n <=? 32)%nat)
  || (n =? 133)%nat || (n =? 160)%nat.

(** [s.count(sub)] for a non-empty [sub]: occurrences are counted from the
    left and do not overlap; [skip] characters of the last match remain to
    be stepped over. *)
Fixpoint count_from (sub : string) (skip : nat) (s : string) : nat :=
  match s with
  | EmptyString => 0%nat
  | String _ s' =>
      match skip with
      | S k => count_from sub k s'
      | O =>
          if String.prefix sub s
          then S (count_from sub (String.length sub - 1) s')
          else count_from sub 0 s'
      end
  end.

(** [s.count(sub)]; the empty pattern matches between any two characters. *)
Definition count (s sub : string) : Z :=
  match sub with
  | EmptyString => Z.of_nat (S (String.length s))
  | _ => Z.of_nat (count_from sub 0 s)
  end.

(** [s.endswith(suffix)]. *)
Definition endswith (s suffix : string) : bool :=
  let n := String.length s in
  let m := String.length suffix in
  (m <=? n)%nat && String.eqb (String.substring (n - m) m s) suffix.

(** The tokens of [s.split()]: maximal runs of non-space characters.  [tok]
    holds the characters of the token being read, last one first. *)
Fixpoint split_ws_from (tok : string) (s : string) : list string :=
  match s with
  | EmptyString =>
      match tok with
      | EmptyString => []
      | _ => [String.rev tok]
      end
  | String c s' =>
      if is_space c
      then match tok with
           | EmptyString => split_ws_from EmptyString s'
           | _ => String.rev tok :: split_ws_from EmptyString s'
           end
      else split_ws_from (String c tok) s'
  end.

Definition split_ws (s : string) : list string := split_ws_from EmptyString s.

(** [s.split(sep)] for a one-character separator: always at least one
    field. *)
Fixpoint split_on_from (sep : ascii) (field : string) (s : string) : list string :=
  match s with
  | EmptyString => [String.rev field]
  | String c s' =>
      if Ascii.eqb c sep
      then String.rev field :: split_on_from sep EmptyString s'
      else split_on_from sep (String c field) s'
  end.

Definition split_on (sep : ascii) (s : string) : list string :=
  split_on_from sep EmptyString s.

(** [s.lstrip()], [s.rstrip()], [s.strip()]. *)
Fixpoint lstrip (s : string) : string :=
  match s with
  | EmptyString => EmptyString
  | String c s' => if is_space c then lstrip s' else s
  end.

Definition rstrip (s : string) : string := String.rev (lstrip (String.rev s)).

Definition strip (s : string) : string := rstrip (lstrip s).

(** The slice [l[i:j]] for [0 <= i <= j]. *)
Definition slice {A} (i j : nat) (l : list A) : list A := take (j - i) (drop i l).

(** Every character of [s] is white space. *)
Fixpoint all_space (s : string) : bool :=
  match s with
  | EmptyString => true
  | String c s' => is_space c && all_space s'
  end.

End PyStr.

(* ===================================================================== *)
(** * Game phase classifier and time budget (alpha_beta_ki.py) *)
(* ===================================================================== *)

Module Phase.
Import PyStr.

(** [1 if fen_str.endswith(' r') else 2] *)
Definition player_of (fen_str : string) : Z :=
  if endswith fen_str " r" then 1 else 2.

Definition count_pieces (fen_str : string) : Z :=
  count fen_str "r" + count fen_str "b" + count fen_str "RG" + count fen_str "BG".

Definition count_my_pieces (fen_str : string) : Z :=
  let player := player_of fen_str in
  if player =? 1
  then count fen_str "r" + count fen_str "RG"
  else count fen_str "b" + count fen_str "BG".

Definition count_enemy_pieces (fen_str : string) : Z :=
  let player := player_of fen_str in
  if player =? 1
  then count fen_str "b" + count fen_str "BG"
  else count fen_str "r" + count fen_str "RG".

Definition diff_of_pieces (fen_str : string) : Z :=
  let my_pieces := count_my_pieces fen_str in
  let enemy_pieces := count_enemy_pieces fen_str in
  my_pieces - enemy_pieces.

(** The two nested [for] loops: every row of the half, every enemy piece
    spelling. *)
Definition count_in_rows (rows : list string) (pieces : list string) : Z :=
  fold_left
    (fun acc row => fold_left (fun acc piece => acc + count row piece) pieces acc)
    rows 0.

(** [None] is the [IndexError] of [fen_str.split()[0]] on a string without
    any token. *)
Definition count_enemy_pieces_in_half (fen_str : string) : option Z :=
  let player := player_of fen_str in
  match split_ws fen_str with
  | [] => None
  | placement :: _ =>
      let rows := split_on "/" placement in
      if player =? 1
      then Some (count_in_rows (slice 4 7 rows) ["b"; "BG"])
      else Some (count_in_rows (slice 0 3 rows) ["r"; "RG"])
  end.

Definition base_phase (total : Z) : string :=
  if 12 <=? total then "opening"
  else if 7 <=? total then "midgame"
  else "endgame".

Definition criticality (piece_diff enemy_in_half my_pieces enemy_pieces : Z) : Z :=
  let crit := 0 in
  let crit := if piece_diff <=? -3 then crit + 2
              else if piece_diff <=? -1 then crit + 1 else crit in
  let crit := if 3 <=? enemy_in_half then crit + 2
              else if 1 <=? enemy_in_half then crit + 1 else crit in
  let crit := if (my_pieces <=? 2) || (enemy_pieces <=? 2) then crit + 3 else crit in
  crit.

Definition detect_game_phase (fen_str : string) : option string :=
  let piece_diff := diff_of_pieces fen_str in
  match count_enemy_pieces_in_half fen_str with
  | None => None
  | Some enemy_in_half =>
      let my_pieces := count_my_pieces fen_str in
      let enemy_pieces := count_enemy_pieces fen_str in
      let total := my_pieces + enemy_pieces in
      let base := base_phase total in
      let crit := criticality piece_diff enemy_in_half my_pieces enemy_pieces in
      if 3 <=? crit then Some "critical"
      else if (1 <=? crit) && negb (String.eqb base "endgame")
           then Some (base ++ "_critical")%string
           else Some base
  end.

(** The budget table of [allocate_time]. *)
Definition mapping : gmap string Q :=
  <["opening" := 0.2%Q]>
  (<["midgame" := 0.3%Q]>
  (<["opening_critical" := 0.4%Q]>
  (<["midgame_critical" := 0.5%Q]>
  (<["critical" := 0.5%Q]>
  (<["endgame" := 0.2%Q]>
  (<["endgame_critical" := 0.2%Q]> ∅)))))).

(** [d.get(key, dflt)] *)
Definition dict_get (d : gmap string Q) (key : string) (dflt : Q) : Q :=
  default dflt (d !! key).

Definition allocate_time (fen_str : string) : option Q :=
  match detect_game_phase fen_str with
  | None => None
  | Some phase => Some (dict_get mapping phase 0.2%Q)
  end.

(** The phase as a function of the four numbers the classifier computes. *)
Definition phase_of (piece_diff enemy_in_half my_pieces enemy_pieces : Z) : string :=
  let base := base_phase (my_pieces + enemy_pieces) in
  let crit := criticality piece_diff enemy_in_half my_pieces enemy_pieces in
  if 3 <=? crit then "critical"
  else if (1 <=? crit) && negb (String.eqb base "endgame")
       then (base ++ "_critical")%string
       else base.




End Phase.

(* ===================================================================== *)
(** * Scores, moves and the collaborators of the search *)
(* ===================================================================== *)

(** The values the search computes with: Python integers and the two
    infinite floats. *)
Inductive Score : Type :=
| NegInf
| Fin (z : Z)
| PosInf.

Module Score.

(** Unary minus. *)
Definition neg (s : Score) : Score :=
  match s with
  | NegInf => PosInf
  | Fin z => Fin (- z)
  | PosInf => NegInf
  end.

(** [a <= b] *)
Definition leb (a b : Score) : bool :=
  match a, b with
  | NegInf, _ => true
  | _, PosInf => true
  | Fin x, Fin y => x <=? y
  | _, _ => false
  end.

(** [a < b] *)
Definition ltb (a b : Score) : bool := negb (leb b a).

(** [max(a, b)]: the first argument unless the second is greater. *)
Definition max (a b : Score) : Score := if ltb a b then b else a.

End Score.

Arguments Score.neg : simpl never.
Arguments Score.leb : simpl never.
Arguments Score.ltb : simpl never.
Arguments Score.max : simpl never.

(** A move is the triple [(frm, to, h)] of two squares and a height. *)
Definition Square : Type := Z * Z.
Definition Move : Type := Square * Square * Z.

(** The enum [PieceType] of core/piece.py, of which the sources only read
    the member name. *)
Record PieceType : Type := { name : string }.

(** A [BitboardRules] object: the board it holds and the attribute
    [current_player]. *)
Record Rules (B : Type) : Type := mkRules { board : B; current_player : Z }.
Arguments mkRules {B} _ _.
Arguments board {B} _.
Arguments current_player {B} _.

(** [rules.current_player = p] on a copy. *)
Definition set_current_player {B} (r : Rules B) (p : Z) : Rules B :=
  mkRules (board r) p.

(** [FenParser.parse_fen] (core/fen.py): the two fields of the string, then
    the rows, whose loop into the board is [parse_rows].  [None] is an
    exception on a malformed string ([IndexError] when a field is
    missing). *)
Definition parse_fen {B : Type} (parse_rows : string -> option B)
    (fen_str : string) : option (B * Z) :=
  match PyStr.split_ws (PyStr.strip fen_str) with
  | board_str :: side :: _ =>
      let current_player := if String.eqb side "r" then 1 else 2 in
      match parse_rows board_str with
      | Some board => Some (board, current_player)
      | None => None
      end
  | _ => None
  end.

(** What the search consumes and this repository part does not contain: the
    board and rules engine (core/bitboard.py, core/bitboard_rules.py), the
    row loop of the FEN parser that fills a [BitboardBoard], the win test
    and the evaluator as black boxes, Python's string hash, the default
    parameters and the ones [get_evaluation_params()] loads, and the
    readings of the wall clock: [time_at k] is what the [k]-th call of
    [time.time()] returns. *)
Record Env : Type := {
  Board : Type;
  Params : Type;
  get_top_piece_type : Board -> Z -> Z -> option PieceType;
  get_stack_owner : Board -> Z -> Z -> option Z;
  to_fen : Board -> Z -> string;
  get_legal_moves : Rules Board -> Z -> list Move;
  make_move : Rules Board -> Move -> Rules Board;
  check_win_by_distance_or_capture : Board -> Z -> bool;
  evaluate : string -> Params -> Z;
  py_hash : string -> Z;
  DEFAULT_PARAMS : Params;
  get_evaluation_params : Params;
  parse_rows : string -> option Board;
  time_at : nat -> Q;
}.

(* ===================================================================== *)
(** * Move ordering (alpha_beta_ki.py, order_moves_fast) *)
(* ===================================================================== *)

Section MoveOrderer.

(** The orderer reads the two per-square accessors of the board and the
    side to move, nothing else. *)
Context {B : Type}.
Variable top_piece_type : B -> Z -> Z -> option PieceType.
Variable stack_owner : B -> Z -> Z -> option Z.

(** [piece_type and piece_type.name == 'WAECHTER'] *)
Definition is_guardian_move (rules : Rules B) (mv : Move) : bool :=
  let '(frm, to, h) := mv in
  match top_piece_type (board rules) (fst frm) (snd frm) with
  | Some piece_type => String.eqb (name piece_type) "WAECHTER"
  | None => false
  end.

(** [target_owner and target_owner != rules.current_player] *)
Definition is_capture_move (rules : Rules B) (mv : Move) : bool :=
  let '(frm, to, h) := mv in
  match stack_owner (board rules) (fst to) (snd to) with
  | Some target_owner =>
      negb (target_owner =? 0) && negb (target_owner =? current_player rules)
  | None => false
  end.

(** The [for mv in moves] loop with its three growing lists. *)
Fixpoint order_loop (rules : Rules B) (moves : list Move)
    (guardian_moves capture_moves other_moves : list Move)
  : list Move * list Move * list Move :=
  match moves with
  | [] => (guardian_moves, capture_moves, other_moves)
  | mv :: rest =>
      if is_guardian_move rules mv
      then order_loop rules rest (guardian_moves ++ [mv]) capture_moves other_moves
      else if is_capture_move rules mv
      then order_loop rules rest guardian_moves (capture_moves ++ [mv]) other_moves
      else order_loop rules rest guardian_moves capture_moves (other_moves ++ [mv])
  end.

Definition order_moves_fast (rules : Rules B) (moves : list Move) : list Move :=
  match moves with
  | [] => moves
  | _ =>
      let '(guardian_moves, capture_moves, other_moves) :=
        order_loop rules moves [] [] [] in
      (guardian_moves ++ capture_moves) ++ other_moves
  end.

End MoveOrderer.

(* ===================================================================== *)
(** * Search state *)
(* ===================================================================== *)

(** The module globals of alpha_beta_ki.py and the clock. *)
Record State : Type := mkState {
  nodes_visited : Z;
  ttable : gmap (Z * Z) Score;
  time_start : Q;
  time_budget : Q;
  clock : nat;
}.

(** One reading of [time.time()]. *)
Definition tick (E : Env) (st : State) : Q * State :=
  (time_at E (clock st),
   mkState (nodes_visited st) (ttable st) (time_start st) (time_budget st)
           (S (clock st))).

(** [nodes_visited += 1] *)
Definition count_node (st : State) : State :=
  mkState (nodes_visited st + 1) (ttable st) (time_start st) (time_budget st)
          (clock st).

(** [ttable[key] = v] *)
Definition store (key : Z * Z) (v : Score) (st : State) : State :=
  mkState (nodes_visited st) (<[key := v]> (ttable st)) (time_start st)
          (time_budget st) (clock st).

(** The result of a call that may raise [TimeoutError]; the globals keep
    what was written before the exception. *)
Inductive Outcome (A : Type) : Type :=
| Returned (a : A) (st : State)
| Raised (st : State).
Arguments Returned {A} _ _.
Arguments Raised {A} _.

Definition MAX_DEPTH : nat := 4.
Definition TIME_BUFFER : Q := 0.05%Q.
Definition NULL_MOVE_REDUCTION : Z := 1.
Definition WIN_SCORE : Z := 100000.

(** Python's [float] arithmetic: IEEE 754 binary64, round to nearest, ties
    to even.  A float is the rational it holds; overflow to infinity,
    which needs a magnitude of [2 ^ 1024], is left out. *)
Module Float.

(** [n / d] for [d > 0], rounded to the nearest integer, a tie to the even
    one. *)
Definition round_div (n d : Z) : Z :=
  let q := (n / d)%Z in
  let r := (n mod d)%Z in
  match (2 * r ?= d)%Z with
  | Lt => q
  | Gt => (q + 1)%Z
  | Eq => if Z.even q then q else (q + 1)%Z
  end.

(** The float nearest to [x]: with [2 ^ k <= |x| < 2 ^ (k + 1)] the
    spacing of the floats around [x] is [2 ^ e] for [e = k - 52], and
    [2 ^ -1074] among the subnormal numbers; [|x|] in units of that
    spacing is rounded to an integer. *)
Definition fl (x : Q) : Q :=
  let x := Qred x in
  let n := Qnum x in
  let d := Z.pos (Qden x) in
  if (n =? 0)%Z then 0%Q
  else
    let a := Z.abs n in
    let l := (Z.log2 a - Z.log2 d)%Z in
    let k := if (a * 2 ^ Z.max 0 (- l) <? d * 2 ^ Z.max 0 l)%Z
             then (l - 1)%Z else l in
    let e := Z.max (k - 52) (-1074) in
    let m := round_div (a * 2 ^ Z.max 0 (- e)) (d * 2 ^ Z.max 0 e) in
    let v := Qred (inject_Z m * (if (0 <=? e)%Z then inject_Z (2 ^ e)
                                 else / inject_Z (2 ^ (- e)))) in
    if (n <? 0)%Z then (- v)%Q else v.

(** [x + y], [x - y] and [x * y] on floats, and [x >= y]. *)
Definition add (x y : Q) : Q := fl (fl x + fl y).
Definition sub (x y : Q) : Q := fl (fl x - fl y).
Definition mul (x y : Q) : Q := fl (fl x * fl y).
Definition ge (x y : Q) : bool := Qle_bool (fl y) (fl x).

(** [a / b] on integers, [b] not zero: the quotient, rounded once. *)
Definition true_div (a b : Z) : Q := fl (inject_Z a / inject_Z b).

End Float.

(** [time.time() >= stop_time - TIME_BUFFER] *)
Definition timed_out (stop_time now : Q) : bool :=
  Float.ge now (Float.sub stop_time TIME_BUFFER).

Arguments timed_out : simpl never.
Global Opaque timed_out.

(* ===================================================================== *)
(** * Negamax, iterative deepening and the driver (alpha_beta_ki.py) *)
(* ===================================================================== *)

Section Engine.

Variable E : Env.

Local Abbreviation RulesE := (Rules (Board E)).

(** The orderer on the board of this environment. *)
Definition ordered_moves (rules : RulesE) (moves : list Move) : list Move :=
  order_moves_fast (get_top_piece_type E) (get_stack_owner E) rules moves.

(** [eval_params] after [if eval_params is None: eval_params =
    get_evaluation_params()]. *)
Definition params_or_default (eval_params : option (Params E)) : Params E :=
  match eval_params with
  | Some p => p
  | None => get_evaluation_params E
  end.

(** The main loop of [negamax] over the ordered moves; [rec] is the
    recursive call one ply deeper for the other player. *)
Fixpoint search_moves
    (rec : RulesE -> Score -> Score -> State -> Outcome Score)
    (rules : RulesE) (player : Z) (beta : Score) (moves : list Move)
    (alpha best : Score) (st : State) : Outcome Score :=
  match moves with
  | [] => Returned best st
  | mv :: rest =>
      let child := set_current_player (make_move E rules mv) (3 - player) in
      match rec child (Score.neg beta) (Score.neg alpha) st with
      | Raised st' => Raised st'
      | Returned v st' =>
          let score := Score.neg v in
          let best := Score.max best score in
          let alpha := Score.max alpha best in
          if Score.leb (Fin WIN_SCORE) best || Score.leb beta alpha
          then Returned best st'
          else search_moves rec rules player beta rest alpha best st'
      end
  end.

(** [negamax(rules, depth, alpha, beta, player, stop_time, eval_params)] for
    a depth that is not negative.  The probe of the null move runs at
    [depth - 1 - NULL_MOVE_REDUCTION], which is [d2] below. *)
Fixpoint negamax (depth : nat) (rules : RulesE) (alpha beta : Score)
    (player : Z) (stop_time : Q) (eval_params : option (Params E))
    (st : State) {struct depth} : Outcome Score :=
  let '(now, st) := tick E st in
  if timed_out stop_time now then Raised st
  else
    let st := count_node st in
    let fen := to_fen E (board rules) player in
    let key := (py_hash E fen mod 10000, Z.of_nat depth) in
    match ttable st !! key with
    | Some cached => Returned cached st
    | None =>
        if check_win_by_distance_or_capture E (board rules) player
        then Returned (Fin WIN_SCORE) (store key (Fin WIN_SCORE) st)
        else if check_win_by_distance_or_capture E (board rules) (3 - player)
        then Returned (Fin (- WIN_SCORE)) (store key (Fin (- WIN_SCORE)) st)
        else
          let moves := get_legal_moves E rules player in
          let leaf :=
            let val := evaluate E fen (params_or_default eval_params) in
            Returned (Fin val) (store key (Fin val) st) in
          match depth with
          | O => leaf
          | S d1 =>
              match moves with
              | [] => leaf
              | _ :: _ =>
                  let main st :=
                    match search_moves
                            (fun child a b s =>
                               negamax d1 child a b (3 - player) stop_time eval_params s)
                            rules player beta (ordered_moves rules moves)
                            alpha NegInf st with
                    | Raised st' => Raised st'
                    | Returned best st' => Returned best (store key best st')
                    end in
                  match d1 with
                  | S (S _ as d2) =>
                      (* depth > 2 *)
                      let null_rules := set_current_player rules (3 - player) in
                      match negamax d2 null_rules (Score.neg beta) (Score.neg alpha)
                                    player stop_time eval_params st with
                      | Raised st' => Raised st'
                      | Returned v st' =>
                          let val := Score.neg v in
                          if Score.leb beta val
                          then Returned beta (store key beta st')
                          else main st'
                      end
                  | _ => main st
                  end
              end
          end
    end.

(** How one pass over the root moves ends: the list was exhausted, the
    [return best_mv] on a proven win was taken, or [TimeoutError] left the
    loop.  Each carries the value of the variable [best_mv] at that point. *)
Inductive RootOutcome : Type :=
| RootDone (best_mv : option Move) (st : State)
| RootWin (best_mv : option Move) (st : State)
| RootTimeout (best_mv : option Move) (st : State).

(** The loop [for mv in root_moves] of one depth. *)
Fixpoint root_loop (depth : nat) (rules : RulesE) (stop_time : Q)
    (eval_params : option (Params E)) (root_moves : list Move)
    (alpha beta local_best : Score) (best_mv : option Move) (st : State)
  : RootOutcome :=
  match root_moves with
  | [] => RootDone best_mv st
  | mv :: rest =>
      let '(now, st) := tick E st in
      if timed_out stop_time now then RootTimeout best_mv st
      else
        let child :=
          set_current_player (make_move E rules mv) (3 - current_player rules) in
        match negamax (depth - 1) child (Score.neg beta) (Score.neg alpha)
                      (3 - current_player rules) stop_time eval_params st with
        | Raised st' => RootTimeout best_mv st'
        | Returned v st' =>
            let score := Score.neg v in
            let '(local_best, best_mv) :=
              if Score.ltb local_best score then (score, Some mv)
              else (local_best, best_mv) in
            let alpha := Score.max alpha score in
            if Score.leb (Fin WIN_SCORE) local_best then RootWin best_mv st'
            else root_loop depth rules stop_time eval_params rest
                           alpha beta local_best best_mv st'
        end
  end.

(** The loop [for depth in range(1, MAX_DEPTH + 1)] with its [try]. *)
Fixpoint deepen (rules : RulesE) (stop_time : Q)
    (eval_params : option (Params E)) (root_moves : list Move)
    (depths : list nat) (best_mv : option Move) (st : State)
  : option Move * State :=
  match depths with
  | [] => (best_mv, st)
  | depth :: deeper =>
      match root_loop depth rules stop_time eval_params root_moves
                      NegInf PosInf NegInf best_mv st with
      | RootDone best_mv st' =>
          deepen rules stop_time eval_params root_moves deeper best_mv st'
      | RootWin best_mv st' => (best_mv, st')
      | RootTimeout best_mv st' => (best_mv, st')
      end
  end.

(** The globals after the first five statements of [iterative_deepening]. *)
Definition start_search (budget : Q) (st : State) : State :=
  mkState 0 ∅ (time_at E (clock st)) budget (S (clock st)).

Definition iterative_deepening (rules : RulesE) (budget : Q)
    (eval_params : option (Params E)) (st : State) : option Move * State :=
  let st := start_search budget st in
  let stop_time := Float.add (time_start st) budget in
  let eval_params := Some (params_or_default eval_params) in
  let root_moves :=
    ordered_moves rules (get_legal_moves E rules (current_player rules)) in
  deepen rules stop_time eval_params root_moves (seq 1 MAX_DEPTH) None st.

(** The quick win check: the first of the given moves after which the
    player has won. *)
Fixpoint quick_win (rules : RulesE) (player : Z) (moves : list Move)
  : option Move :=
  match moves with
  | [] => None
  | mv :: rest =>
      let tmp := make_move E rules mv in
      if check_win_by_distance_or_capture E (board tmp) player then Some mv
      else quick_win rules player rest
  end.

(** What [choose_best_move] hands back: a move or [None], or an exception
    of the parser on a malformed string. *)
Inductive Answer : Type :=
| Chosen (best_move : option Move) (st : State)
| Malformed (st : State).

Definition choose_best_move (fen_str : string)
    (eval_params : option (Params E)) (st : State) : Answer :=
  match parse_fen (parse_rows E) fen_str with
  | None => Malformed st
  | Some (board, player) =>
      let rules := mkRules board player in
      let eval_params := Some (params_or_default eval_params) in
      match Phase.allocate_time fen_str with
      | None => Malformed st
      | Some budget =>
          let moves := ordered_moves rules (get_legal_moves E rules player) in
          match quick_win rules player (PyStr.slice 0 3 moves) with
          | Some mv => Chosen (Some mv) st
          | None =>
              let '(best_move, st') :=
                iterative_deepening rules budget eval_params st in
              Chosen best_move st'
          end
      end
  end.

(** ** Names for the parts of a node and of a pass *)

(** The cache key of a node. *)
Definition key_of (rules : RulesE) (player : Z) (depth : nat) : Z * Z :=
  (py_hash E (to_fen E (board rules) player) mod 10000, Z.of_nat depth).

(** The globals once a node is entered: the clock was read, the node
    counted. *)
Definition entered (st : State) : State := count_node (snd (tick E st)).

(** The main search of a node: the loop over the ordered moves, then the
    store of the best value. *)
Definition main_search (depth1 : nat) (rules : RulesE) (alpha beta : Score)
    (player : Z) (stop_time : Q) (eval_params : option (Params E))
    (key : Z * Z) (st : State) : Outcome Score :=
  match search_moves
          (fun child a b s =>
             negamax depth1 child a b (3 - player) stop_time eval_params s)
          rules player beta
          (ordered_moves rules (get_legal_moves E rules player))
          alpha NegInf st with
  | Raised st' => Raised st'
  | Returned best st' => Returned best (store key best st')
  end.

(** What a node does once it is entered and found neither cached nor
    decided. *)
Definition expand (depth : nat) (rules : RulesE) (alpha beta : Score)
    (player : Z) (stop_time : Q) (eval_params : option (Params E))
    (st : State) : Outcome Score :=
  let key := key_of rules player depth in
  let leaf :=
    let val := evaluate E (to_fen E (board rules) player)
                 (params_or_default eval_params) in
    Returned (Fin val) (store key (Fin val) st) in
  match depth with
  | O => leaf
  | S d1 =>
      match get_legal_moves E rules player with
      | [] => leaf
      | _ :: _ =>
          match d1 with
          | S (S _ as d2) =>
              match negamax d2 (set_current_player rules (3 - player))
                            (Score.neg beta) (Score.neg alpha)
                            player stop_time eval_params st with
              | Raised st' => Raised st'
              | Returned v st' =>
                  if Score.leb beta (Score.neg v)
                  then Returned beta (store key beta st')
                  else main_search d1 rules alpha beta player stop_time
                                   eval_params key st'
              end
          | _ => main_search d1 rules alpha beta player stop_time
                             eval_params key st
          end
      end
  end.

(** The variable [best_mv] only ever holds its initial value or one of the
    root moves. *)
Definition held (root_moves : list Move) (initial best_mv : option Move) : Prop :=
  best_mv = initial \/ exists mv, best_mv = Some mv /\ In mv root_moves.

(** The root moves a pass scored before it ended, in order, each with its
    score. *)
Fixpoint scored (depth : nat) (rules : RulesE) (stop_time : Q)
    (eval_params : option (Params E)) (root_moves : list Move)
    (alpha beta local_best : Score) (st : State) : list (Move * Score) :=
  match root_moves with
  | [] => []
  | mv :: rest =>
      if timed_out stop_time (time_at E (clock st)) then []
      else
        let child :=
          set_current_player (make_move E rules mv) (3 - current_player rules) in
        match negamax (depth - 1) child (Score.neg beta) (Score.neg alpha)
                      (3 - current_player rules) stop_time eval_params
                      (snd (tick E st)) with
        | Raised _ => []
        | Returned v st' =>
            let score := Score.neg v in
            let local_best :=
              if Score.ltb local_best score then score else local_best in
            (mv, score) ::
            (if Score.leb (Fin WIN_SCORE) local_best then []
             else scored depth rules stop_time eval_params rest
                         (Score.max alpha score) beta local_best st')
        end
  end.


End Engine.

(** ** Reading results *)

(** The value a call returned, if it returned. *)
Definition value_of (o : Outcome Score) : option Score :=
  match o with
  | Returned v _ => Some v
  | Raised _ => None
  end.

(** The move variable and the globals at the end of a pass over the root
    moves, and how the pass ended. *)
Definition best_of (o : RootOutcome) : option Move :=
  match o with
  | RootDone best_mv _ | RootWin best_mv _ | RootTimeout best_mv _ => best_mv
  end.

Definition state_of (o : RootOutcome) : State :=
  match o with
  | RootDone _ st | RootWin _ st | RootTimeout _ st => st
  end.



(** What [choose_best_move] returned, if it did not raise, and the globals
    it left. *)
Definition chosen (a : Answer) : option (option Move) :=
  match a with
  | Chosen best_move _ => Some best_move
  | Malformed _ => None
  end.

Definition left_state (a : Answer) : State :=
  match a with
  | Chosen _ st | Malformed st => st
  end.

(* ===================================================================== *)
(** * The plain minimax engine (Min_max.py) *)
(* ===================================================================== *)

Module MinMax.

Section Engine.

Variable E : Env.

Local Abbreviation RulesE := (Rules (Board E)).

Definition WIN_SCORE : Z := 1000000.

(** The sort key of [order_moves].  [None] is the [AttributeError] of
    [piece_type.name] on an empty origin square. *)
Definition priority (rules : RulesE) (move : Move) : option Z :=
  let '(from_pos, to_pos, height) := move in
  let temp := make_move E rules move in
  if check_win_by_distance_or_capture E (board temp) (current_player rules)
  then Some 3
  else
    match get_top_piece_type E (board rules) (fst from_pos) (snd from_pos) with
    | None => None
    | Some piece_type =>
        if String.eqb (name piece_type) "WAECHTER" then Some 2
        else
          match get_stack_owner E (board rules) (fst to_pos) (snd to_pos) with
          | Some owner_dest =>
              if negb (owner_dest =? current_player rules) then Some 1 else Some 0
          | None => Some 0
          end
    end.

(** The moves [order_moves] gives the key [k]. *)
Definition has_priority (rules : RulesE) (k : Z) (move : Move) : bool :=
  match priority rules move with
  | Some k' => k' =? k
  | None => false
  end.

(** Insertion into a list sorted by decreasing key, before the first entry
    whose key is not greater: an entry inserted this way precedes the equal
    keys already there. *)
Fixpoint insert_desc (x : Z * Move) (l : list (Z * Move)) : list (Z * Move) :=
  match l with
  | [] => [x]
  | y :: l' => if fst y <=? fst x then x :: l else y :: insert_desc x l'
  end.

(** [sorted(keyed, reverse=True)] on the keys: stable, decreasing. *)
Definition sort_desc (keyed : list (Z * Move)) : list (Z * Move) :=
  fold_right insert_desc [] keyed.

(** All keys are computed before the sort; one exception aborts it. *)
Fixpoint keys (rules : RulesE) (moves : list Move) : option (list (Z * Move)) :=
  match moves with
  | [] => Some []
  | mv :: rest =>
      match priority rules mv with
      | None => None
      | Some k =>
          match keys rules rest with
          | None => None
          | Some l => Some ((k, mv) :: l)
          end
      end
  end.

Definition order_moves (rules : RulesE) (moves : list Move) : option (list Move) :=
  match keys rules moves with
  | None => None
  | Some keyed => Some (map snd (sort_desc keyed))
  end.

(** The loop of [minmax] over the ordered moves.  The only global is the
    node counter, threaded as [nodes]; [None] is an exception. *)
Fixpoint minmax_moves (rec : RulesE -> Z -> option (Score * Z))
    (rules : RulesE) (player : Z) (moves : list Move) (best : Score)
    (nodes : Z) : option (Score * Z) :=
  match moves with
  | [] => Some (best, nodes)
  | move :: rest =>
      let next_rules := set_current_player (make_move E rules move) (3 - player) in
      match rec next_rules nodes with
      | None => None
      | Some (v, nodes') =>
          let val := Score.neg v in
          let best := if Score.ltb best val then val else best in
          if Score.leb (Fin WIN_SCORE) best then Some (best, nodes')
          else minmax_moves rec rules player rest best nodes'
      end
  end.

Fixpoint minmax (depth : nat) (rules : RulesE) (player : Z) (nodes : Z)
    {struct depth} : option (Score * Z) :=
  let nodes := nodes + 1 in
  if check_win_by_distance_or_capture E (board rules) player
  then Some (Fin WIN_SCORE, nodes)
  else if check_win_by_distance_or_capture E (board rules) (3 - player)
  then Some (Fin (- WIN_SCORE), nodes)
  else
    let moves := get_legal_moves E rules player in
    let leaf :=
      Some (Fin (evaluate E (to_fen E (board rules) player) (DEFAULT_PARAMS E)),
            nodes) in
    match depth with
    | O => leaf
    | S d1 =>
        match moves with
        | [] => leaf
        | _ :: _ =>
            match order_moves rules moves with
            | None => None
            | Some ordered =>
                minmax_moves (fun r n => minmax d1 r (3 - player) n)
                             rules player ordered NegInf nodes
            end
        end
    end.

(** A result whose node count is raised by [n]. *)
Definition counted_from {A} (n : Z) (o : option (A * Z)) : option (A * Z) :=
  match o with
  | Some (a, k) => Some (a, n + k)
  | None => None
  end.

(** The immediate-win loop of [choose_best_move]: every trial counts. *)
Fixpoint win_trials (rules : RulesE) (player : Z) (moves : list Move)
    (nodes : Z) : option Move * Z :=
  match moves with
  | [] => (None, nodes)
  | move :: rest =>
      let nodes := nodes + 1 in
      let temp_rules := make_move E rules move in
      if check_win_by_distance_or_capture E (board temp_rules) player
      then (Some move, nodes)
      else win_trials rules player rest nodes
  end.

(** The second loop of [choose_best_move] for [depth >= 1]; [depth1] is
    [depth - 1]. *)
Fixpoint root_trials (depth1 : nat) (rules : RulesE) (player : Z)
    (moves : list Move) (best_move : option Move) (best_score : Score)
    (nodes : Z) : option (option Move * Z) :=
  match moves with
  | [] => Some (best_move, nodes)
  | move :: rest =>
      let nodes := nodes + 1 in
      let next_rules := set_current_player (make_move E rules move) (3 - player) in
      match minmax depth1 next_rules (3 - player) nodes with
      | None => None
      | Some (v, nodes') =>
          let score := Score.neg v in
          let '(best_score, best_move) :=
            if Score.ltb best_score score then (score, Some move)
            else (best_score, best_move) in
          if Score.leb (Fin WIN_SCORE) best_score then Some (best_move, nodes')
          else root_trials depth1 rules player rest best_move best_score nodes'
      end
  end.

(** [choose_best_move(fen_str, depth)] for [depth >= 1], the move it goes on
    to describe and the counter it leaves.  [None] is an exception: a
    malformed string, an empty origin square, or the description of [None]
    when there is no move at all. *)
Definition choose_best_move (fen_str : string) (depth : nat) (nodes : Z)
  : option (Move * Z) :=
  match parse_fen (parse_rows E) fen_str with
  | None => None
  | Some (board, player) =>
      let rules := mkRules board player in
      match order_moves rules (get_legal_moves E rules player) with
      | None => None
      | Some moves =>
          match win_trials rules player moves nodes with
          | (Some move, nodes') => Some (move, nodes')
          | (None, nodes') =>
              match root_trials (depth - 1) rules player moves None NegInf nodes' with
              | Some (Some best_move, nodes'') => Some (best_move, nodes'')
              | _ => None
              end
          end
      end
  end.

End Engine.

End MinMax.

(* ===================================================================== *)
(** * The board, the FEN parser, the win test and the evaluator
      (core/fen.py, win_check.py, evaluate.py) *)
(* ===================================================================== *)

Module Bitboard.

(** Modelled from the spec: the class [BitboardBoard] of core/bitboard.py,
    which is not among the sources.  A position is the set of its units
    (section 3); the sources read and write four attributes of the board:
    one bitboard per guardian and, per side, one bitboard for every tower
    height, indexed by the height 1..7. *)
Record BitboardBoard : Type := mkBoard {
  red_guardian : Z;
  blue_guardian : Z;
  red_towers : list Z;
  blue_towers : list Z;
}.

(** [BitboardBoard(setup_initial=False)] *)
Definition empty_board : BitboardBoard :=
  mkBoard 0 0 (replicate 8 0) (replicate 8 0).

(** [towers[h]] and [towers[h] = v] *)
Definition tower (towers : list Z) (h : Z) : Z := default 0 (towers !! Z.to_nat h).
Definition set_tower (towers : list Z) (h : Z) (v : Z) : list Z :=
  <[Z.to_nat h := v]> towers.

(** [int.bit_count()] and [int.bit_length()] *)
Fixpoint ones (p : positive) : Z :=
  match p with
  | xH => 1
  | xO p' => ones p'
  | xI p' => 1 + ones p'
  end.

Definition bit_count (z : Z) : Z :=
  match z with
  | Z0 => 0
  | Zpos p | Zneg p => ones p
  end.

Definition bit_length (z : Z) : Z :=
  match z with
  | Z0 => 0
  | Zpos p | Zneg p => Z.log2 (Zpos p) + 1
  end.

(** [bb & (1 << pos)] as a condition *)
Definition has_bit (bb pos : Z) : bool := negb (Z.land bb (Z.shiftl 1 pos) =? 0).

(** [c.isdigit()] on one character, and [int(c)], for a code point below
    256: the superscript digits of that range (U+00B2, U+00B3, U+00B9)
    pass the first and make the second raise [ValueError] ([None]). *)
Definition isdigit (c : ascii) : bool :=
  let n := nat_of_ascii c in
  ((48 <=? n)%nat && (n <=? 57)%nat) || (n =? 178)%nat || (n =? 179)%nat
  || (n =? 185)%nat.

Definition int_of_char (c : ascii) : option Z :=
  let n := nat_of_ascii c in
  if (48 <=? n)%nat && (n <=? 57)%nat then Some (Z.of_nat n - 48) else None.

(** The parameters of the evaluator: the ten keys of [DEFAULT_PARAMS]. *)
Record EvalParams : Type := {
  material_weight : Z;
  guardian_advance : Z;
  guardian_safety : Z;
  center_control : Z;
  tower_height : Z;
  aggression : Z;
  mobility : Z;
  positioning : Z;
  tempo : Z;
  win_bonus : Z;
}.

Definition DEFAULT_PARAMS : EvalParams := {|
  material_weight := 80;
  guardian_advance := 40;
  guardian_safety := 200;
  center_control := 25;
  tower_height := 20;
  aggression := 50;
  mobility := 10;
  positioning := 10;
  tempo := 20;
  win_bonus := 10000;
|}.

Section Sources.

(** What core/bitboard.py and distance_test.py provide. *)
Variable SIZE : Z.
Variable set_bit : Z -> Z -> Z -> Z.
Variable get_stack_owner : BitboardBoard -> Z -> Z -> option Z.
Variable distance_to_opponent_start : BitboardBoard -> Z -> Z.

(** ** core/fen.py *)

(** The [while] loop of [parse_fen] over one row: [row] is what is left of
    the row from index [i] on, [x] the column.  [None] is the [ValueError]
    of [int] on a digit that is not a decimal one. *)
Fixpoint parse_row (y : Z) (row : string) (x : Z) (b : BitboardBoard)
  : option BitboardBoard :=
  match row with
  | EmptyString => Some b
  | String c1 rest =>
      if SIZE <=? x then Some b
      else
        let single :=
          if isdigit c1
          then match int_of_char c1 with
               | Some empty_count => parse_row y rest (x + empty_count) b
               | None => None
               end
          else parse_row y rest x b in
        match rest with
        | EmptyString => single
        | String c2 rest2 =>
            if Ascii.eqb c1 "R" && Ascii.eqb c2 "G"
            then parse_row y rest2 (x + 1)
                   (mkBoard (set_bit (red_guardian b) x y) (blue_guardian b)
                            (red_towers b) (blue_towers b))
            else if Ascii.eqb c1 "B" && Ascii.eqb c2 "G"
            then parse_row y rest2 (x + 1)
                   (mkBoard (red_guardian b) (set_bit (blue_guardian b) x y)
                            (red_towers b) (blue_towers b))
            else if (Ascii.eqb c1 "r" || Ascii.eqb c1 "b") && isdigit c2
            then
              let player := if Ascii.eqb c1 "r" then 1 else 2 in
              match int_of_char c2 with
              | None => None
              | Some height =>
                  let b' :=
                    if (1 <=? height) && (height <=? 7)
                    then
                      if player =? 1
                      then mkBoard (red_guardian b) (blue_guardian b)
                             (set_tower (red_towers b) height
                                (set_bit (tower (red_towers b) height) x y))
                             (blue_towers b)
                      else mkBoard (red_guardian b) (blue_guardian b)
                             (red_towers b)
                             (set_tower (blue_towers b) height
                                (set_bit (tower (blue_towers b) height) x y))
                    else b in
                  parse_row y rest2 (x + 1) b'
              end
            else single
        end
  end.

(** The loop [for y, row in enumerate(rows)]. *)
Fixpoint parse_rows_from (y : Z) (rows : list string) (b : BitboardBoard)
  : option BitboardBoard :=
  match rows with
  | [] => Some b
  | row :: more =>
      if SIZE <=? y then Some b
      else
        match parse_row y row 0 b with
        | None => None
        | Some b' => parse_rows_from (y + 1) more b'
        end
  end.

(** The board of a placement field. *)
Definition parse_rows (board_str : string) : option BitboardBoard :=
  parse_rows_from 0 (PyStr.split_on "/" board_str) empty_board.

(** ** win_check.py *)

Definition opponent_guardian_exists (b : BitboardBoard) (opponent : Z) : bool :=
  if opponent =? 1 then negb (red_guardian b =? 0)
  else negb (blue_guardian b =? 0).

Definition check_win_by_distance_or_capture (b : BitboardBoard) (player : Z) : bool :=
  let dist := distance_to_opponent_start b player in
  if dist =? 0 then true
  else
    let opponent := 3 - player in
    if negb (opponent_guardian_exists b opponent) then true
    else false.

(** ** evaluate.py *)

(** The four running sums of the first loop. *)
Record Material : Type := mkMaterial {
  my_pieces : Z;
  enemy_pieces : Z;
  my_height_total : Z;
  enemy_height_total : Z;
}.

Definition material_step (my_towers enemy_towers : list Z) (m : Material) (h : Z)
  : Material :=
  let my_count := bit_count (tower my_towers h) in
  let enemy_count := bit_count (tower enemy_towers h) in
  mkMaterial (my_pieces m + my_count) (enemy_pieces m + enemy_count)
             (my_height_total m + (if 3 <=? h then h * my_count else 0))
             (enemy_height_total m + (if 3 <=? h then h * enemy_count else 0)).

(** [range(a, b)] *)
Definition range (a b : Z) : list Z :=
  map (fun k => a + Z.of_nat k) (seq 0 (Z.to_nat (b - a))).

Definition center_squares : list (Z * Z) :=
  [(2, 3); (3, 3); (4, 3); (2, 4); (3, 4); (4, 4)].

(** [evaluate(fen_str, params)]; [None] is an exception of the parser. *)
Definition evaluate (fen_str : string) (params : EvalParams) : option Z :=
  match parse_fen parse_rows fen_str with
  | None => None
  | Some (board, player) =>
      let size := SIZE in
      if check_win_by_distance_or_capture board player
      then Some (win_bonus params)
      else if check_win_by_distance_or_capture board (3 - player)
      then Some (- win_bonus params)
      else
        let my_guard_bb := if player =? 1 then red_guardian board else blue_guardian board in
        let enemy_guard_bb := if player =? 1 then blue_guardian board else red_guardian board in
        let my_towers := if player =? 1 then red_towers board else blue_towers board in
        let enemy_towers := if player =? 1 then blue_towers board else red_towers board in
        let my_target := if player =? 1 then (3, 6) else (3, 0) in
        let score := 0 in
        (* material and height *)
        let m := fold_left (material_step my_towers enemy_towers) (range 1 8)
                           (mkMaterial 0 0 0 0) in
        let my_pieces := my_pieces m + bit_count my_guard_bb in
        let enemy_pieces := enemy_pieces m + bit_count enemy_guard_bb in
        let score := score + material_weight params * (my_pieces - enemy_pieces) in
        let score := score + tower_height params
                             * (my_height_total m - enemy_height_total m) in
        (* guardian strategy *)
        let score :=
          if negb (my_guard_bb =? 0)
          then
            let my_guard_pos := bit_length my_guard_bb - 1 in
            let gx := my_guard_pos mod size in
            let gy := my_guard_pos / size in
            let dist_to_target :=
              Z.abs (gx - fst my_target) + Z.abs (gy - snd my_target) in
            let score := score - guardian_advance params * dist_to_target in
            let center_dist := Z.abs (gx - 3) + Z.abs (gy - 3) in
            let score := score + center_control params * Z.max 0 (3 - center_dist) in
            let edge_dist :=
              Z.min (Z.min (Z.min gx (size - 1 - gx)) gy) (size - 1 - gy) in
            if edge_dist =? 0 then score - guardian_safety params / 2 else score
          else score in
        (* positional control *)
        let '(my_center, enemy_center) :=
          fold_left
            (fun '(mine, theirs) '(x, y) =>
               match get_stack_owner board x y with
               | Some owner =>
                   if owner =? player then (mine + 1, theirs)
                   else if owner =? 3 - player then (mine, theirs + 1)
                   else (mine, theirs)
               | None => (mine, theirs)
               end)
            center_squares (0, 0) in
        let score := score + center_control params * (my_center - enemy_center) in
        (* mobility *)
        let mobility_score :=
          fold_left (fun acc h => acc + bit_count (tower my_towers h) * h)
                    (range 1 4) 0 in
        let score := score + mobility params * mobility_score in
        (* aggression *)
        let score :=
          if negb (enemy_guard_bb =? 0)
          then
            let enemy_guard_pos := bit_length enemy_guard_bb - 1 in
            let ex := enemy_guard_pos mod size in
            let ey := enemy_guard_pos / size in
            let threats :=
              fold_left
                (fun threats h =>
                   let my_bb := tower my_towers h in
                   fold_left
                     (fun threats pos =>
                        if has_bit my_bb pos
                        then
                          let x := pos mod size in
                          let y := pos / size in
                          if Z.abs (x - ex) + Z.abs (y - ey) <=? h + 1
                          then threats + 1 else threats
                        else threats)
                     (range 0 (Z.min 20 (size * size))) threats)
                (range 1 4) 0 in
            score + aggression params * threats
          else score in
        (* positioning *)
        let middle := size / 2 in
        let '(my_advanced, enemy_advanced) :=
          fold_left
            (fun adv h =>
               let my_bb := tower my_towers h in
               let enemy_bb := tower enemy_towers h in
               fold_left
                 (fun '(mine, theirs) pos =>
                    if (player =? 1) && has_bit my_bb pos then (mine + 1, theirs)
                    else if (player =? 2) && has_bit enemy_bb pos then (mine, theirs + 1)
                    else (mine, theirs))
                 (range 0 (size * middle)) adv)
            (range 1 3) (0, 0) in
        let score := score + positioning params * (my_advanced - enemy_advanced) in
        (* tempo *)
        let tempo_score := my_pieces * 2 - enemy_pieces in
        let score := score + tempo params * tempo_score in
        Some (if player =? 1 then score else - score)
  end.

End Sources.

(** ** The missing pieces, for running the evaluator *)

(** Modelled from the spec: [BitboardBoard.SIZE] of core/bitboard.py, which
    is not among the sources.  Columns A..G and rows 1..7 (section 6). *)
Definition SIZE : Z := 7.

(** Modelled from the spec: [BitboardBoard._set_bit] of core/bitboard.py,
    which is not among the sources: the bit of the square [(x, y)] is set.
    The evaluator reads a bit index [pos] back as the square [(pos % size,
    pos // size)], so the bit of [(x, y)] is number [y * SIZE + x]. *)
Definition set_bit (bb x y : Z) : Z := Z.lor bb (Z.shiftl 1 (y * SIZE + x)).

(** The bit of a square in a bitboard. *)
Definition on_square (bb x y : Z) : bool := Z.testbit bb (y * SIZE + x).

(** Modelled from the spec: [BitboardBoard.get_stack_owner] of
    core/bitboard.py, which is not among the sources: the owner of the unit
    on a square (section 6, per-square accessors), 1 for red, 2 for blue,
    [None] on an empty square. *)
Definition get_stack_owner (b : BitboardBoard) (x y : Z) : option Z :=
  if on_square (red_guardian b) x y
     || existsb (fun bb => on_square bb x y) (red_towers b)
  then Some 1
  else if on_square (blue_guardian b) x y
          || existsb (fun bb => on_square bb x y) (blue_towers b)
  then Some 2
  else None.

(** Modelled from the spec: [distance_to_opponent_start] of
    distance_test.py, which is not among the sources: the remaining
    distance of the player's guardian to the opponent's home square
    (section 4.2), D1 for red and D7 for blue as in evaluate.py, counted in
    steps along rows and columns; 99 stands for "no guardian". *)
Definition distance_to_opponent_start (b : BitboardBoard) (player : Z) : Z :=
  let guard := if player =? 1 then red_guardian b else blue_guardian b in
  let target := if player =? 1 then (3, 6) else (3, 0) in
  if guard =? 0 then 99
  else
    let pos := bit_length guard - 1 in
    Z.abs (pos mod SIZE - fst target) + Z.abs (pos / SIZE - snd target).

(** Modelled from the spec: [BitboardBoard.get_top_piece_type] of
    core/bitboard.py, which is not among the sources: the kind of the unit
    on a square (section 6), the guardian or a tower. *)
Definition get_top_piece_type (b : BitboardBoard) (x y : Z) : option PieceType :=
  if on_square (red_guardian b) x y || on_square (blue_guardian b) x y
  then Some {| name := "WAECHTER" |}
  else if existsb (fun bb => on_square bb x y) (red_towers b)
          || existsb (fun bb => on_square bb x y) (blue_towers b)
  then Some {| name := "TURM" |}
  else None.

(** The unit on a square as the FEN notation spells it. *)
Definition spelled (b : BitboardBoard) (x y : Z) : option string :=
  if on_square (red_guardian b) x y then Some "RG"
  else if on_square (blue_guardian b) x y then Some "BG"
  else
    match List.find (fun h => on_square (tower (red_towers b) h) x y) (range 1 8) with
    | Some h => Some (String "r" (String (ascii_of_nat (Z.to_nat (48 + h))) ""))
    | None =>
        match List.find (fun h => on_square (tower (blue_towers b) h) x y) (range 1 8) with
        | Some h => Some (String "b" (String (ascii_of_nat (Z.to_nat (48 + h))) ""))
        | None => None
        end
    end.

Definition digit (n : Z) : string := String (ascii_of_nat (Z.to_nat (48 + n))) "".

(** One row: units as spelled, each run of empty squares as its length. *)
Definition row_to_fen (b : BitboardBoard) (y : Z) : string :=
  let '(text, empties) :=
    fold_left
      (fun '(text, empties) x =>
         match spelled b x y with
         | Some unit =>
             ((text ++ (if (0 <? empties)%Z then digit empties else "") ++ unit)%string, 0)
         | None => (text, empties + 1)
         end)
      (range 0 SIZE) (EmptyString, 0) in
  (text ++ (if (0 <? empties)%Z then digit empties else ""))%string.

(** Modelled from the spec: [BitboardBoard.to_fen] of core/bitboard.py,
    which is not among the sources: the canonical serialization of the
    position with its side to move (sections 3 and 6), in the notation
    [FenParser] reads: rows from the top separated by [/], then [r] or
    [b]. *)
Definition to_fen (b : BitboardBoard) (player : Z) : string :=
  (String.concat "/" (map (row_to_fen b) (range 0 SIZE))
   ++ (if (player =? 1)%Z then " r" else " b"))%string.

(** The evaluator and the win test with these pieces in place. *)
Definition run_parse_fen : string -> option (BitboardBoard * Z) :=
  parse_fen (parse_rows SIZE set_bit).

Definition run_check_win : BitboardBoard -> Z -> bool :=
  check_win_by_distance_or_capture distance_to_opponent_start.

Definition run_evaluate : string -> EvalParams -> option Z :=
  evaluate SIZE set_bit get_stack_owner distance_to_opponent_start.

(** The start position. *)
Definition start_placement : string :=
  "r1r11RG1r1r1/2r11r12/3r13/7/3b13/2b11b12/b1b11BG1b1b1".

End Bitboard.

(* ===================================================================== *)
(** * What a call of the search leaves behind *)
(* ===================================================================== *)

(** The globals after a call, whether it returned or raised. *)
Definition final_state {A} (o : Outcome A) : State :=
  match o with
  | Returned _ st | Raised st => st
  end.

(** A score that is a Python integer, not one of the infinite floats. *)
Definition finite (s : Score) : Prop := exists z, s = Fin z.

(** A cache that holds integers only. *)
Definition finite_cache (st : State) : Prop :=
  forall key v, ttable st !! key = Some v -> finite v.

(** From [st] to [st'] the cache has only grown, by keys [(h, d')] with
    [h] a hash modulo 10000 and [0 <= d' <= d]; the start time and the
    budget are the same, the clock has not run backwards. *)
Definition extends (d : Z) (st st' : State) : Prop :=
  ttable st ⊆ ttable st' /\
  (forall key v, ttable st' !! key = Some v ->
     ttable st !! key = Some v \/ (0 <= fst key < 10000 /\ 0 <= snd key <= d)) /\
  time_start st' = time_start st /\
  time_budget st' = time_budget st /\
  (clock st <= clock st')%nat.

Section Accounts.

Variable E : Env.

(** The node counter against the clock: a call that returns has counted
    one node for each reading of the clock; a call that raises has counted
    one less, and its last reading was at or past the deadline. *)
Definition accounted (stop_time : Q) (st : State) (o : Outcome Score) : Prop :=
  match o with
  | Returned _ st' =>
      nodes_visited st' - nodes_visited st
      = Z.of_nat (clock st') - Z.of_nat (clock st)
  | Raised st' =>
      nodes_visited st' - nodes_visited st
      = Z.of_nat (clock st') - Z.of_nat (clock st) - 1 /\
      (clock st < clock st')%nat /\
      timed_out stop_time (time_at E (pred (clock st'))) = true
  end.

End Accounts.

(* ===================================================================== *)
(** * More string primitives *)
(* ===================================================================== *)

Module PyStrMore.

(** No character of [s] is white space. *)
Fixpoint no_space (s : string) : bool :=
  match s with
  | EmptyString => true
  | String c s' => negb (PyStr.is_space c) && no_space s'
  end.

(** The character [a] does not occur in [s]. *)
Fixpoint lacks (a : ascii) (s : string) : bool :=
  match s with
  | EmptyString => true
  | String c s' => negb (Ascii.eqb c a) && lacks a s'
  end.

End PyStrMore.

(* ===================================================================== *)
(** * The text of a placement *)
(* ===================================================================== *)

Module FenText.

(** A code point below 256 that [str.isdigit] accepts and [int] rejects:
    one of the superscript digits U+00B2, U+00B3, U+00B9. *)
Definition superscript (c : ascii) : bool :=
  Bitboard.isdigit c &&
  match Bitboard.int_of_char c with
  | Some _ => false
  | None => true
  end.

(** No character of [s] is one of them. *)
Fixpoint no_superscript (s : string) : bool :=
  match s with
  | EmptyString => true
  | String c s' => negb (superscript c) && no_superscript s'
  end.

(** The four attributes of a board satisfy [P], and the two lists of
    tower bitboards have their eight entries. *)
Definition bitboards (P : Z -> Prop) (b : Bitboard.BitboardBoard) : Prop :=
  P (Bitboard.red_guardian b) /\ P (Bitboard.blue_guardian b) /\
  Forall P (Bitboard.red_towers b) /\ Forall P (Bitboard.blue_towers b) /\
  length (Bitboard.red_towers b) = 8%nat /\
  length (Bitboard.blue_towers b) = 8%nat.

End FenText.

(* ===================================================================== *)
(** * Moves as text (alpha_beta_ki.py, core/fen.py, ai_client.py) *)
(* ===================================================================== *)

Module MoveText.

(** [str(n)] for an integer, within the interpreter's limit on the number
    of digits (4300 unless configured). *)
Definition str (n : Z) : string := NilZero.string_of_int (Z.to_int n).

(** [ord(c)], and [chr(n)] for a code point below 256. *)
Definition ord (c : ascii) : Z := Z.of_nat (nat_of_ascii c).
Definition chr (n : Z) : ascii := ascii_of_nat (Z.to_nat n).

(** [s.isdigit()]: at least one character, and digits only. *)
Fixpoint all_digits (s : string) : bool :=
  match s with
  | EmptyString => true
  | String c s' => Bitboard.isdigit c && all_digits s'
  end.

Definition isdigit (s : string) : bool :=
  match s with
  | EmptyString => false
  | _ => all_digits s
  end.

(** The inner function of [format_move_description]. *)
Definition coord_to_notation (x y : Z) : string :=
  String (chr (ord "A" + x)) (str (7 - y)).

(** [format_move_description(best_move)] (alpha_beta_ki.py) for a move, a
    tuple of length 3, with columns whose letter has a code point below
    256. *)
Definition format_move_description (best_move : Move) : string :=
  let '(from_pos, to_pos, height) := best_move in
  let from_notation := coord_to_notation (fst from_pos) (snd from_pos) in
  let to_notation := coord_to_notation (fst to_pos) (snd to_pos) in
  (from_notation ++ "-" ++ to_notation ++ "-" ++ str height)%string.

(** [FenParser.describe_move(from_pos, to_pos, height)] (core/fen.py),
    with the same columns. *)
Definition describe_move (from_pos to_pos : Square) (height : Z) : string :=
  let from_col := chr (fst from_pos + ord "A") in
  let from_row := 7 - snd from_pos in
  let to_col := chr (fst to_pos + ord "A") in
  let to_row := 7 - snd to_pos in
  (String from_col (str from_row) ++ "-" ++ String to_col (str to_row)
   ++ "-" ++ str height)%string.

(** [AIClient.validate_move(move)] (ai_client.py) on a string. *)
Definition validate_move (move : string) : bool :=
  let parts := PyStr.split_on "-" move in
  (length parts =? 3)%nat &&
  match parts !! 2%nat with
  | Some part => isdigit part
  | None => false
  end.

(** The part of one pass of the loop of [AIClient.run] that answers a
    position when it is the client's turn: the text it sends to the
    server, or [None] when it sends nothing because an exception is
    raised: that of the parser, the [TypeError] of [len(None)] when the
    engine found no move, the [ValueError] the client raises on a text
    that does not validate. *)
Definition answer (E : Env) (board_text : string) (st : State)
  : option string * State :=
  match choose_best_move E board_text None st with
  | Malformed st' => (None, st')
  | Chosen None st' => (None, st')
  | Chosen (Some ai_move_1) st' =>
      let ai_move := format_move_description ai_move_1 in
      if validate_move ai_move then (Some ai_move, st') else (None, st')
  end.

End MoveText.

(* ===================================================================== *)
(** * Reading the text of a move (demos/KI_vs_KI.py) *)
(* ===================================================================== *)

Module Demo.

(** A line boundary of [str.splitlines] (code points below 256). *)
Definition is_linebreak (c : ascii) : bool :=
  let n := nat_of_ascii c in
  ((10 <=? n)%nat && (n <=? 13)%nat) || ((28 <=? n)%nat && (n <=? 30)%nat)
  || (n =? 133)%nat.

(** The characters of [s] before its first line boundary. *)
Fixpoint before_linebreak (s : string) : string :=
  match s with
  | EmptyString => EmptyString
  | String c s' => if is_linebreak c then EmptyString else String c (before_linebreak s')
  end.

(** [s.splitlines()[0]]: the empty string has no line, and the index
    raises [IndexError] ([None]). *)
Definition first_line (s : string) : option string :=
  match s with
  | EmptyString => None
  | _ => Some (before_linebreak s)
  end.

(** The digits of a decimal literal as [int] reads them: at least one
    digit, single underscores between digits only.  [acc] is the value of
    the digits read, [after_digit] tells whether the last character was
    one. *)
Fixpoint digits_value (acc : Z) (after_digit : bool) (s : string) : option Z :=
  match s with
  | EmptyString => if after_digit then Some acc else None
  | String c s' =>
      if Ascii.eqb c "_"
      then if after_digit then digits_value acc false s' else None
      else match Bitboard.int_of_char c with
           | Some d => digits_value (10 * acc + d) true s'
           | None => None
           end
  end.

(** The number of digits of a literal, underscores left out. *)
Fixpoint digit_count (s : string) : nat :=
  match s with
  | EmptyString => 0%nat
  | String c s' => if Ascii.eqb c "_" then digit_count s' else S (digit_count s')
  end.

(** The limit of the interpreter on the digits of a literal, as it is
    unless configured. *)
Definition max_str_digits : nat := 4300.

(** A literal without its sign: [None] if it is malformed or has more
    digits than the limit. *)
Definition literal (body : string) : option Z :=
  match digits_value 0 false body with
  | Some v => if (max_str_digits <? digit_count body)%nat then None else Some v
  | None => None
  end.

(** White space as [int] takes it (code points below 256): the ASCII
    white space and, unlike [str.isspace] and [str.strip], none of the
    separators U+001C to U+001F. *)
Definition is_int_space (c : ascii) : bool :=
  let n := nat_of_ascii c in
  ((9 <=? n)%nat && (n <=? 13)%nat) || (n =? 32)%nat || (n =? 133)%nat
  || (n =? 160)%nat.

Fixpoint int_lstrip (s : string) : string :=
  match s with
  | EmptyString => EmptyString
  | String c s' => if is_int_space c then int_lstrip s' else s
  end.

Definition int_strip (s : string) : string :=
  String.rev (int_lstrip (String.rev (int_lstrip s))).

(** [int(s)] for a string, in base 10: white space around the literal is
    dropped, one sign may come first; [None] is [ValueError]. *)
Definition int (s : string) : option Z :=
  match int_strip s with
  | EmptyString => None
  | String c body as text =>
      if Ascii.eqb c "-" then option_map Z.opp (literal body)
      else if Ascii.eqb c "+" then literal body
      else literal text
  end.

(** A square from its two characters, as [get_next_fen] reads [from_str]
    and [to_str]: [ord(s[0]) - ord('A')] and [7 - int(s[1])].  [None] is
    the [IndexError] of a text that is too short, or the [ValueError] of
    [int]. *)
Definition read_square (s : string) : option Square :=
  match String.get 0 s, String.get 1 s with
  | Some col, Some row =>
      match Bitboard.int_of_char row with
      | Some r => Some (MoveText.ord col - MoveText.ord "A", 7 - r)
      | None => None
      end
  | _, _ => None
  end.

(** The part of [get_next_fen(current_fen, move)] that reads [move]: the
    arguments it goes on to pass to [rules.make_move]; [Some None] when it
    returns [None] instead, on a text that has not three fields or whose
    height [int] rejects, and [None] when it raises. *)
Definition read_move (move : string) : option (option Move) :=
  match first_line (PyStr.strip move) with
  | None => None
  | Some line =>
      match PyStr.split_on "-" line with
      | [from_str; to_str; height_str] =>
          match read_square from_str, read_square to_str with
          | Some from_pos, Some to_pos =>
              match int height_str with
              | Some height => Some (Some (from_pos, to_pos, height))
              | None => Some None
              end
          | _, _ => None
          end
      | _ => Some None
      end
  end.

End Demo.

(* ===================================================================== *)
(** * The tournament runner (ML_mst4/tournament_runner.py) *)
(* ===================================================================== *)

Module Tournament.

Section Runner.

(** The parameter sets, and the games: [play_game k p1 p2] is what the
    call [play_game(p1, p2)] returns when it is the [k]-th game of a
    tournament.  What a game returns depends on the clock and on
    [random.choice]; it is left open here. *)
Variable Params : Type.
Variable play_game : nat -> Params -> Params -> Z.

(** The body of the loop of [run_tournament]. *)
Definition tally (params1 params2 : Params) (acc : Z * Z * Z) (game_num : nat)
  : Z * Z * Z :=
  let '(wins1, wins2, draws) := acc in
  let result :=
    if Nat.even game_num
    then play_game game_num params1 params2
    else
      let result := play_game game_num params2 params1 in
      if result =? 1 then 2 else if result =? 2 then 1 else result in
  if result =? 1 then (wins1 + 1, wins2, draws)
  else if result =? 2 then (wins1, wins2 + 1, draws)
  else (wins1, wins2, draws + 1).

(** [run_tournament(params1, params2, num_games)] *)
Definition run_tournament (params1 params2 : Params) (num_games : nat)
  : Z * Z * Z :=
  fold_left (tally params1 params2) (seq 0 num_games) (0, 0, 0).

(** [evaluate_params(params, baseline, num_games)]: the divisions of the
    counts and the arithmetic on their quotients are those of floats. *)
Definition evaluate_params (params baseline : Params) (num_games : nat) : Q :=
  let '(wins1, wins2, draws) := run_tournament params baseline num_games in
  let total_games := wins1 + wins2 + draws in
  if total_games =? 0 then 0%Q
  else
    let win_rate := Float.true_div wins1 total_games in
    let decisiveness_bonus :=
      Float.mul (Float.sub 1 (Float.true_div draws total_games)) 0.3 in
    Float.add win_rate decisiveness_bonus.

End Runner.

End Tournament.

(* ===================================================================== *)
(** * Depth-limited negamax, for reference *)
(* ===================================================================== *)

Section Reference.

Variable E : Env.

(** The value of a position for [player], [depth] plies ahead: the
    recursion of [minmax] of Min_max.py with its terminal and leaf values,
    but over every legal move, in the order the rules engine generates
    them; no ordering, no early exit, no counter. *)
Fixpoint plain_value (depth : nat) (rules : Rules (Board E)) (player : Z)
  : Score :=
  if check_win_by_distance_or_capture E (board rules) player
  then Fin MinMax.WIN_SCORE
  else if check_win_by_distance_or_capture E (board rules) (3 - player)
  then Fin (- MinMax.WIN_SCORE)
  else
    let leaf :=
      Fin (evaluate E (to_fen E (board rules) player) (DEFAULT_PARAMS E)) in
    match depth with
    | O => leaf
    | S d1 =>
        match get_legal_moves E rules player with
        | [] => leaf
        | moves =>
            fold_left
              (fun best move =>
                 Score.max best
                   (Score.neg
                      (plain_value d1
                         (set_current_player (make_move E rules move) (3 - player))
                         (3 - player))))
              moves NegInf
        end
    end.

(** What a move is worth to the player who makes it, [depth1] plies
    ahead of the position it leads to. *)
Definition move_value (depth1 : nat) (rules : Rules (Board E)) (player : Z)
    (move : Move) : Score :=
  Score.neg
    (plain_value depth1
       (set_current_player (make_move E rules move) (3 - player)) (3 - player)).

End Reference.

(* ===================================================================== *)
(** * A table-driven game to run the driver on *)
(* ===================================================================== *)

(** The rules engine is not part of the search: any implementation of the
    collaborators can stand behind it.  [Toy.env] builds one from tables.
    Positions are numbered; the position a move leads to is the column of
    its destination square; the serialization of position [n] for a player
    is the letter number [65 + n] followed by [" r"] or [" b"]. *)
Module Toy.

Record Tables : Type := {
  moves_of : Z -> Z -> list Move;
  won : Z -> Z -> bool;
  value : Z -> Z -> Z;
  piece_at : Z -> Z -> Z -> option PieceType;
  owner_at : Z -> Z -> Z -> option Z;
  readings : nat -> Q;
}.

Definition letter (n : Z) : ascii := ascii_of_nat (Z.to_nat (65 + n)).

Definition position_of (s : string) : Z :=
  match s with
  | String c _ => Z.of_nat (nat_of_ascii c) - 65
  | EmptyString => 0
  end.

Definition fen_of (n player : Z) : string :=
  String (letter n) (if player =? 1 then " r" else " b").

Definition env (T : Tables) : Env := {|
  Board := Z;
  Params := unit;
  get_top_piece_type := piece_at T;
  get_stack_owner := owner_at T;
  to_fen := fen_of;
  get_legal_moves := fun rules player => moves_of T (board rules) player;
  make_move := fun rules mv => mkRules (fst (snd (fst mv))) (current_player rules);
  check_win_by_distance_or_capture := won T;
  evaluate := fun fen _ => value T (position_of fen) (Phase.player_of fen);
  py_hash := fun fen => 2 * position_of fen + Phase.player_of fen;
  DEFAULT_PARAMS := tt;
  get_evaluation_params := tt;
  parse_rows := fun s => Some (position_of s);
  time_at := readings T;
|}.

(** The move to position [n]. *)
Definition to_pos (n : Z) : Move := ((0, 0), (n, 0), 1).

(** A clock that shows [0] for the first [n] readings and [1] from then
    on. *)
Definition expires_after (n : nat) : nat -> Q :=
  fun k => if (k <? n)%nat then 0%Q else 1%Q.

(** A state as an earlier call may have left it. *)
Definition used_state : State :=
  mkState 7 (<[(1, 1) := Fin 42]> ∅) 0%Q 0.2%Q 0.

Definition fresh_state : State := mkState 0 ∅ 0%Q 0%Q 0.

(** ** Two root moves whose order changes between depth 1 and depth 2 *)

(** Player 1 moves from position 0 to 1 or to 2; from 1 player 2 goes on to
    3, from 2 to 4. *)
Definition two_moves : Tables := {|
  moves_of := fun n player =>
    if n =? 0 then (if player =? 1 then [to_pos 1; to_pos 2] else [])
    else if n =? 1 then (if player =? 2 then [to_pos 3] else [])
    else if n =? 2 then (if player =? 2 then [to_pos 4] else [])
    else [];
  won := fun _ _ => false;
  value := fun n player =>
    if n =? 1 then -1 else if n =? 2 then -5
    else if n =? 3 then -9 else if n =? 4 then 2 else 0;
  piece_at := fun _ _ _ => None;
  owner_at := fun _ _ _ => None;
  readings := expires_after 8;
|}.

(** ** Four root moves, only the last one wins *)

Definition late_win (clock : nat -> Q) : Tables := {|
  moves_of := fun n player =>
    if (n =? 0) && (player =? 1) then [to_pos 1; to_pos 2; to_pos 3; to_pos 4]
    else [];
  won := fun n player => (n =? 4) && (player =? 1);
  value := fun _ _ => 0;
  piece_at := fun _ _ _ => None;
  owner_at := fun _ _ _ => None;
  readings := clock;
|}.

(** ** The first root move wins *)

Definition early_win : Tables := {|
  moves_of := fun n player =>
    if (n =? 0) && (player =? 1) then [to_pos 1; to_pos 2] else [];
  won := fun n player => (n =? 1) && (player =? 1);
  value := fun _ _ => 0;
  piece_at := fun _ _ _ => Some {| name := "TURM" |};
  owner_at := fun _ _ _ => None;
  readings := fun _ => 0%Q;
|}.

(** ** The second root move wins *)

Definition win_last : Tables := {|
  moves_of := fun n player =>
    if (n =? 0) && (player =? 1) then [to_pos 1; to_pos 2] else [];
  won := fun n player => (n =? 2) && (player =? 1);
  value := fun _ _ => 0;
  piece_at := fun _ _ _ => Some {| name := "TURM" |};
  owner_at := fun _ _ _ => None;
  readings := fun _ => 0%Q;
|}.

(** ** Each side has one move that gains it a point *)

(** From position 0 player 1 moves to 1, player 2 to 2.  The value of a
    position for player 2 is the negation of its value for player 1. *)
Definition tempo : Tables := {|
  moves_of := fun n player =>
    if n =? 0 then (if player =? 1 then [to_pos 1] else [to_pos 2]) else [];
  won := fun n player => (n =? 9) && (player =? 1);
  value := fun n player =>
    let for_one := if n =? 1 then 1 else if n =? 2 then -1 else 0 in
    if player =? 1 then for_one else - for_one;
  piece_at := fun _ _ _ => None;
  owner_at := fun _ _ _ => None;
  readings := fun _ => 0%Q;
|}.

(** ** A position where moving is worse than passing *)

(** From position 0 player 1 can only move to 1, which is worth 100 to
    player 2; player 2 can only move to 2, which is worth 200 to player 2. *)
Definition passing : Tables := {|
  moves_of := fun n player =>
    if n =? 0 then (if player =? 1 then [to_pos 1] else [to_pos 2]) else [];
  won := fun _ _ => false;
  value := fun n player =>
    let for_two := if n =? 1 then 100 else if n =? 2 then 200 else 0 in
    if player =? 2 then for_two else - for_two;
  piece_at := fun _ _ _ => None;
  owner_at := fun _ _ _ => None;
  readings := fun _ => 0%Q;
|}.

(** ** A position without any move *)

Definition stuck : Tables := {|
  moves_of := fun _ _ => [];
  won := fun _ _ => false;
  value := fun _ _ => 0;
  piece_at := fun _ _ _ => None;
  owner_at := fun _ _ _ => None;
  readings := fun _ => 0%Q;
|}.

End Toy.

(* ===================================================================== *)
(** * The evaluator of the repository behind the search *)
(* ===================================================================== *)

(** The collaborators as far as the sources and their models above give
    them: the board, its serialization, the win test and the evaluator.
    The rules engine (core/bitboard_rules.py) is not among the sources and
    the specification leaves it external; the engine that stands in here
    generates no move, so this instance only serves where the moves play no
    part, at depth 0.  Parameters are the defaults, the clock stands
    still, the hash is the length of the string. *)
Module TurmWaechter.

Definition env : Env := {|
  Board := Bitboard.BitboardBoard;
  Params := Bitboard.EvalParams;
  get_top_piece_type := Bitboard.get_top_piece_type;
  get_stack_owner := Bitboard.get_stack_owner;
  to_fen := Bitboard.to_fen;
  get_legal_moves := fun _ _ => [];
  make_move := fun rules _ => rules;
  check_win_by_distance_or_capture := Bitboard.run_check_win;
  evaluate := fun fen params => default 0 (Bitboard.run_evaluate fen params);
  py_hash := fun fen => Z.of_nat (String.length fen);
  DEFAULT_PARAMS := Bitboard.DEFAULT_PARAMS;
  get_evaluation_params := Bitboard.DEFAULT_PARAMS;
  parse_rows := Bitboard.parse_rows Bitboard.SIZE Bitboard.set_bit;
  time_at := fun _ => 0%Q;
|}.

(** The board of the start position. *)
Definition start_board : Bitboard.BitboardBoard :=
  Bitboard.mkBoard 8 35184372088832
          [0; 133731; 0; 0; 0; 0; 0; 0]
          [0; 436095946850304; 0; 0; 0; 0; 0; 0].

End TurmWaechter.

(** ** Tables for Min_max.py *)

(** The ordering of Min_max.py reads the piece at the origin of each move;
    [towers T] is the game of [T] with a tower on every square. *)
Module ToyMore.

Definition towers (T : Toy.Tables) : Toy.Tables := {|
  Toy.moves_of := Toy.moves_of T;
  Toy.won := Toy.won T;
  Toy.value := Toy.value T;
  Toy.piece_at := fun _ _ _ => Some {| name := "TURM" |};
  Toy.owner_at := Toy.owner_at T;
  Toy.readings := Toy.readings T;
|}.

End ToyMore.

(* ===================================================================== *)
(** * Properties of the string primitives *)
(* ===================================================================== *)

Module PyStrFacts.
Import PyStr.

Lemma split_ws_from_nil (s tok : string) :
  split_ws_from tok s = [] <-> tok = EmptyString /\ all_space s = true.
Proof.
  revert tok. induction s as [|c s IH]; intros tok; simpl.
  - destruct tok; split; intros H; try easy; now destruct H.
  - destruct (is_space c) eqn:Hc; simpl.
    + destruct tok.
      * rewrite IH. tauto.
      * split; intros H; try easy; now destruct H.
    + rewrite IH. split; intros [H1 H2]; discriminate.
Qed.

Lemma split_ws_nil (s : string) : split_ws s = [] <-> all_space s = true.
Proof. unfold split_ws. rewrite split_ws_from_nil. tauto. Qed.



Lemma count_nonneg (s sub : string) : 0 <= count s sub.
Proof. unfold count. destruct sub; lia. Qed.

Lemma lstrip_all_space (s : string) :
  all_space s = true -> lstrip s = EmptyString.
Proof.
  induction s as [|c s IH]; simpl; [reflexivity|].
  intros H. apply andb_true_iff in H as [Hc Hs]. rewrite Hc. now apply IH.
Qed.

Lemma strip_all_space (s : string) :
  all_space s = true -> strip s = EmptyString.
Proof.
  intros H. unfold strip, rstrip. now rewrite (lstrip_all_space s H).
Qed.

(** A string with a token after [strip()] has one before. *)
Lemma split_ws_strip (s : string) :
  split_ws (strip s) <> [] -> split_ws s <> [].
Proof.
  intros H Hnil. apply H. apply split_ws_nil in Hnil.
  now rewrite (strip_all_space s Hnil).
Qed.

End PyStrFacts.

(* ===================================================================== *)
(** * Properties of the game phase classifier *)
(* ===================================================================== *)

Module PhaseFacts.
Import PyStr PyStrFacts Phase.


Lemma count_nonneg_my (fen_str : string) : 0 <= count_my_pieces fen_str.
Proof.
  unfold count_my_pieces.
  pose proof (count_nonneg fen_str "r"). pose proof (count_nonneg fen_str "RG").
  pose proof (count_nonneg fen_str "b"). pose proof (count_nonneg fen_str "BG").
  destruct (_ =? _); lia.
Qed.

Lemma in_half_defined (fen_str : string) :
  split_ws fen_str <> [] ->
  exists n, count_enemy_pieces_in_half fen_str = Some n.
Proof.
  intros H. unfold count_enemy_pieces_in_half.
  destruct (split_ws fen_str); [easy|].
  destruct (player_of fen_str =? 1); eauto.
Qed.

Lemma in_half_undefined (fen_str : string) :
  split_ws fen_str = [] -> count_enemy_pieces_in_half fen_str = None.
Proof. intros H. unfold count_enemy_pieces_in_half. now rewrite H. Qed.

Lemma detect_game_phase_eq (fen_str : string) (n : Z) :
  count_enemy_pieces_in_half fen_str = Some n ->
  detect_game_phase fen_str =
  Some (phase_of (diff_of_pieces fen_str) n
                 (count_my_pieces fen_str) (count_enemy_pieces fen_str)).
Proof.
  intros H. unfold detect_game_phase, phase_of. rewrite H.
  destruct (3 <=? _); [reflexivity|]. now destruct (_ && _).
Qed.

(** The seven values [phase_of] can take are five. *)
Lemma phase_of_cases (d h m e : Z) :
  In (phase_of d h m e)
     ["opening"; "midgame"; "endgame"; "opening_critical";
      "midgame_critical"; "critical"].
Proof.
  unfold phase_of, base_phase, criticality.
  destruct (d <=? -3); destruct (d <=? -1);
    destruct (3 <=? h); destruct (1 <=? h);
    destruct ((m <=? 2) || (e <=? 2));
    destruct (12 <=? m + e); destruct (7 <=? m + e);
    simpl; tauto.
Qed.

Lemma allocate_time_eq (fen_str : string) (n : Z) :
  count_enemy_pieces_in_half fen_str = Some n ->
  allocate_time fen_str =
  Some (dict_get mapping
          (phase_of (diff_of_pieces fen_str) n
                    (count_my_pieces fen_str) (count_enemy_pieces fen_str))
          0.2%Q).
Proof.
  intros H. unfold allocate_time. now rewrite (detect_game_phase_eq _ _ H).
Qed.

Lemma allocate_time_defined (fen_str : string) :
  split_ws fen_str <> [] -> exists budget, allocate_time fen_str = Some budget.
Proof.
  intros H. destruct (in_half_defined _ H) as [n Hn].
  rewrite (allocate_time_eq _ _ Hn). eauto.
Qed.

(** C10. Whatever the input string, the classifier never returns
    "endgame_critical": the table entry of that name is never the one
    looked up (the table without it gives the same budget), and the budget
    is 0.2, 0.3, 0.4 or 0.5 whenever the string has a token at all; without
    any token [fen_str.split()[0]] raises. *)
Theorem endgame_critical_never_returned (fen_str : string) :
  detect_game_phase fen_str <> Some "endgame_critical" /\
  (forall phase, detect_game_phase fen_str = Some phase ->
     dict_get mapping phase 0.2%Q =
     dict_get (delete "endgame_critical" mapping) phase 0.2%Q) /\
  ((split_ws fen_str = [] /\ allocate_time fen_str = None) \/
   (split_ws fen_str <> [] /\
    exists budget, allocate_time fen_str = Some budget /\
                   In budget [0.2%Q; 0.3%Q; 0.4%Q; 0.5%Q])).
Proof.
  destruct (split_ws fen_str) as [|tok toks] eqn:Hsplit.
  - pose proof (in_half_undefined _ Hsplit) as Hnone.
    unfold allocate_time, detect_game_phase. rewrite Hnone.
    repeat split; try discriminate. now left.
  - assert (Hne : split_ws fen_str <> []) by now rewrite Hsplit.
    destruct (in_half_defined _ Hne) as [n Hn].
    rewrite (allocate_time_eq _ _ Hn), (detect_game_phase_eq _ _ Hn).
    pose proof (phase_of_cases (diff_of_pieces fen_str) n
                  (count_my_pieces fen_str) (count_enemy_pieces fen_str)) as Hc.
    set (ph := phase_of _ _ _ _) in *. clearbody ph.
    simpl in Hc.
    repeat split.
    + intros Heq. injection Heq as ->. intuition discriminate.
    + intros phase Heq. injection Heq as <-.
      intuition (subst ph; reflexivity).
    + right. split; [discriminate|].
      eexists. split; [reflexivity|].
      intuition (subst ph; vm_compute; tauto).
Qed.

End PhaseFacts.

(* ===================================================================== *)
(** * Properties of the move orderer *)
(* ===================================================================== *)

Section MoveOrdererFacts.

Context {B : Type}.
Variable top_piece_type : B -> Z -> Z -> option PieceType.
Variable stack_owner : B -> Z -> Z -> option Z.
Variable rules : Rules B.

Local Abbreviation guardian := (is_guardian_move top_piece_type rules).
Local Abbreviation capture := (is_capture_move stack_owner rules).

(** The three classes, as tests on one move. *)
Local Abbreviation first_class := (fun mv : Move => guardian mv).
Local Abbreviation second_class := (fun mv : Move => negb (guardian mv) && capture mv).
Local Abbreviation third_class :=
  (fun mv : Move => negb (guardian mv) && negb (capture mv)).

Lemma order_loop_filters (moves g c o : list Move) :
  order_loop top_piece_type stack_owner rules moves g c o =
  ((g ++ List.filter first_class moves)%list,
   (c ++ List.filter second_class moves)%list,
   (o ++ List.filter third_class moves)%list).
Proof.
  revert g c o. induction moves as [|mv moves IH]; intros g c o; simpl.
  - now rewrite !app_nil_r.
  - destruct (guardian mv) eqn:Hg; simpl.
    + rewrite IH. now rewrite <- app_assoc.
    + destruct (capture mv) eqn:Hc; simpl; rewrite IH; now rewrite <- app_assoc.
Qed.

Lemma classes_exclusive (mv : Move) :
  (guardian mv = true /\ negb (guardian mv) && capture mv = false
   /\ negb (guardian mv) && negb (capture mv) = false) \/
  (guardian mv = false /\ negb (guardian mv) && capture mv = true
   /\ negb (guardian mv) && negb (capture mv) = false) \/
  (guardian mv = false /\ negb (guardian mv) && capture mv = false
   /\ negb (guardian mv) && negb (capture mv) = true).
Proof.
  destruct (guardian mv), (capture mv); simpl; tauto.
Qed.

Lemma order_moves_fast_filters (moves : list Move) :
  order_moves_fast top_piece_type stack_owner rules moves =
  (List.filter first_class moves ++ List.filter second_class moves
     ++ List.filter third_class moves)%list.
Proof.
  unfold order_moves_fast. rewrite order_loop_filters.
  destruct moves as [|mv moves]; [reflexivity|].
  cbn [app]. now rewrite <- app_assoc.
Qed.

Lemma order_moves_fast_perm (moves : list Move) :
  Permutation (order_moves_fast top_piece_type stack_owner rules moves) moves.
Proof.
  rewrite order_moves_fast_filters.
  induction moves as [|mv moves IH]; [constructor|].
  cbn [List.filter]. cbn beta.
  destruct (classes_exclusive mv) as [(H1&H2&H3)|[(H1&H2&H3)|(H1&H2&H3)]];
    rewrite H2, H3, H1.
  - simpl. now constructor.
  - cbn [app]. rewrite <- Permutation_middle. now constructor.
  - rewrite app_assoc, <- Permutation_middle, <- app_assoc. now constructor.
Qed.

Lemma order_moves_fast_In (moves : list Move) (mv : Move) :
  In mv (order_moves_fast top_piece_type stack_owner rules moves) <-> In mv moves.
Proof.
  pose proof (order_moves_fast_perm moves) as Hp.
  split; intros H.
  - eapply Permutation_in; [exact Hp|exact H].
  - eapply Permutation_in; [symmetry; exact Hp|exact H].
Qed.

End MoveOrdererFacts.

(* ===================================================================== *)
(** * Properties of the driver *)
(* ===================================================================== *)

Section DriverFacts.

Variable E : Env.

Local Abbreviation RulesE := (Rules (Board E)).

Lemma parse_fen_has_token (fen_str : string) (parsed : Board E * Z) :
  parse_fen (parse_rows E) fen_str = Some parsed -> PyStr.split_ws fen_str <> [].
Proof.
  unfold parse_fen. intros H. apply PyStrFacts.split_ws_strip.
  destruct (PyStr.split_ws (PyStr.strip fen_str)); [discriminate|easy].
Qed.

Lemma parse_fen_budget (fen_str : string) (parsed : Board E * Z) :
  parse_fen (parse_rows E) fen_str = Some parsed ->
  exists budget, Phase.allocate_time fen_str = Some budget.
Proof.
  intros H. apply PhaseFacts.allocate_time_defined.
  exact (parse_fen_has_token _ _ H).
Qed.

Lemma In_slice {A} (i j : nat) (l : list A) (x : A) :
  In x (PyStr.slice i j l) -> In x l.
Proof.
  unfold PyStr.slice. intros H.
  apply list_elem_of_In in H. apply list_elem_of_In.
  apply elem_of_take in H as (k & Hk & _).
  rewrite lookup_drop in Hk. eapply list_elem_of_lookup_2, Hk.
Qed.

(** The quick win check finds the first winning move of its list, if there
    is one. *)
Lemma quick_win_Some (rules : RulesE) (player : Z) (moves : list Move) (mv : Move) :
  quick_win E rules player moves = Some mv ->
  In mv moves /\
  check_win_by_distance_or_capture E (board (make_move E rules mv)) player = true.
Proof.
  induction moves as [|m moves IH]; simpl; [discriminate|].
  destruct (check_win_by_distance_or_capture E (board (make_move E rules m)) player)
    eqn:Hw.
  - intros [= H]. subst m. auto.
  - intros H. destruct (IH H). auto.
Qed.

Lemma quick_win_None (rules : RulesE) (player : Z) (moves : list Move) :
  quick_win E rules player moves = None <->
  forall mv, In mv moves ->
    check_win_by_distance_or_capture E (board (make_move E rules mv)) player = false.
Proof.
  induction moves as [|m moves IH]; simpl.
  - split; [intros _ mv []|reflexivity].
  - destruct (check_win_by_distance_or_capture E (board (make_move E rules m)) player)
      eqn:Hw.
    + split; [discriminate|]. intros H. rewrite (H m) in Hw; [discriminate|auto].
    + rewrite IH. split.
      * intros H mv [<-|Hin]; auto.
      * intros H mv Hin. apply H. auto.
Qed.

Lemma held_trans (root_moves : list Move) (a b c : option Move) :
  held root_moves a b -> held root_moves b c -> held root_moves a c.
Proof.
  unfold held. intros [->|Hb] [->|Hc]; auto.
Qed.

Lemma root_loop_held (depth : nat) (rules : RulesE) (stop_time : Q)
    (eval_params : option (Params E)) (root_moves : list Move)
    (alpha beta local_best : Score) (best_mv : option Move) (st : State) :
  held root_moves best_mv
       (best_of (root_loop E depth rules stop_time eval_params root_moves
                           alpha beta local_best best_mv st)).
Proof.
  revert alpha local_best best_mv st.
  induction root_moves as [|mv rest IH]; intros alpha local_best best_mv st;
    simpl; [now left|].
  destruct (timed_out _ _); [now left|].
  destruct (negamax _ _ _ _ _ _ _ _ _) as [v st'|st']; [|now left].
  assert (Hstep : forall bm, held (mv :: rest) best_mv bm ->
            forall a lb s,
              held (mv :: rest) best_mv
                (best_of (root_loop E depth rules stop_time eval_params rest
                                    a beta lb bm s))).
  { intros bm Hbm a lb s. eapply held_trans; [exact Hbm|].
    destruct (IH a lb bm s) as [->|(m & -> & Hin)]; [now left|].
    right. exists m. simpl. auto. }
  destruct (Score.ltb local_best (Score.neg v)); cbn beta iota zeta.
  - destruct (Score.leb (Fin WIN_SCORE) (Score.neg v)); simpl.
    + right. exists mv. split; [reflexivity|now left].
    + apply Hstep. right. exists mv. split; [reflexivity|now left].
  - destruct (Score.leb (Fin WIN_SCORE) local_best); simpl.
    + now left.
    + apply Hstep. now left.
Qed.

Lemma deepen_held (rules : RulesE) (stop_time : Q)
    (eval_params : option (Params E)) (root_moves : list Move)
    (depths : list nat) (best_mv : option Move) (st : State) :
  held root_moves best_mv
       (fst (deepen E rules stop_time eval_params root_moves depths best_mv st)).
Proof.
  revert best_mv st. induction depths as [|d ds IH]; intros best_mv st; simpl.
  - now left.
  - pose proof (root_loop_held d rules stop_time eval_params root_moves
                  NegInf PosInf NegInf best_mv st) as H.
    destruct (root_loop _ _ _ _ _ _ _ _ _ _ _) as [bm s|bm s|bm s]; simpl in *; auto.
    eapply held_trans; [exact H|apply IH].
Qed.

(** What [iterative_deepening] returns is [None] or one of the legal moves
    of the side to move. *)
Lemma iterative_deepening_legal (rules : RulesE) (budget : Q)
    (eval_params : option (Params E)) (st : State) (mv : Move) :
  fst (iterative_deepening E rules budget eval_params st) = Some mv ->
  In mv (get_legal_moves E rules (current_player rules)).
Proof.
  unfold iterative_deepening. intros H.
  match type of H with
  | fst (deepen ?e ?r ?s ?p ?m ?d ?b ?t) = _ =>
      destruct (deepen_held r s p m d b t) as [H0|(m' & Hm & Hin)]
  end.
  - rewrite H in H0. discriminate.
  - rewrite H in Hm. injection Hm as <-.
    now apply order_moves_fast_In in Hin.
Qed.

(** ** A cancelled pass *)



(** C6. Whenever [choose_best_move] returns a move, the move is one of the
    legal moves generated for the parsed position and its side to move; it
    raises only on a string the parser rejects. *)
Theorem choose_best_move_legal (fen_str : string)
    (eval_params : option (Params E)) (st : State) :
  match choose_best_move E fen_str eval_params st with
  | Chosen (Some mv) _ =>
      exists root player,
        parse_fen (parse_rows E) fen_str = Some (root, player) /\
        In mv (get_legal_moves E (mkRules root player) player)
  | Chosen None _ => exists parsed, parse_fen (parse_rows E) fen_str = Some parsed
  | Malformed _ => parse_fen (parse_rows E) fen_str = None
  end.
Proof.
  unfold choose_best_move.
  destruct (parse_fen (parse_rows E) fen_str) as [[root player]|] eqn:Hparse;
    [|reflexivity].
  destruct (parse_fen_budget _ _ Hparse) as [budget ->].
  destruct (quick_win E _ player _) as [mv|] eqn:Hq.
  - exists root, player. split; [reflexivity|].
    apply quick_win_Some in Hq as [Hin _].
    apply In_slice in Hin. now apply order_moves_fast_In in Hin.
  - pose proof (iterative_deepening_legal (mkRules root player) budget
                  (Some (params_or_default E eval_params)) st) as Hid.
    destruct (iterative_deepening E _ budget _ st) as [[mv|] st']; simpl in *.
    + exists root, player. split; [reflexivity|]. now apply Hid.
    + eauto.
Qed.

(** C7. When the side to move has no legal move at the root, the driver
    returns [None], the "no move" result, and raises nothing. *)
Theorem no_legal_moves_sentinel (fen_str : string)
    (eval_params : option (Params E)) (st : State) (root : Board E) (player : Z) :
  parse_fen (parse_rows E) fen_str = Some (root, player) ->
  get_legal_moves E (mkRules root player) player = [] ->
  exists st', choose_best_move E fen_str eval_params st = Chosen None st'.
Proof.
  intros Hparse Hmoves. unfold choose_best_move. rewrite Hparse.
  destruct (parse_fen_budget _ _ Hparse) as [budget ->].
  rewrite Hmoves. unfold iterative_deepening. simpl. rewrite Hmoves. simpl.
  eauto.
Qed.

(** The move the quick check returns is the first of its list that wins:
    every move before it was tried and does not win. *)
Lemma quick_win_first (rules : RulesE) (player : Z) (moves : list Move) (mv : Move) :
  quick_win E rules player moves = Some mv ->
  exists earlier later,
    moves = (earlier ++ mv :: later)%list /\
    (forall m, In m earlier ->
       check_win_by_distance_or_capture E (board (make_move E rules m)) player
       = false) /\
    check_win_by_distance_or_capture E (board (make_move E rules mv)) player = true.
Proof.
  induction moves as [|m moves IH]; cbn [quick_win]; [discriminate|].
  destruct (check_win_by_distance_or_capture E (board (make_move E rules m)) player)
    eqn:Hw.
  - intros [= <-]. exists [], moves. split; [reflexivity|].
    split; [intros x []|exact Hw].
  - intros H. destruct (IH H) as (earlier & later & -> & Hbefore & Hwin).
    exists (m :: earlier), later. split; [reflexivity|].
    split; [|exact Hwin]. intros x [<-|Hx]; [exact Hw|now apply Hbefore].
Qed.

(** C3, amended. If one of the first three moves of the ordered root list
    wins at once, [choose_best_move] returns the first of them that does
    (the moves before it in the list do not win), straight from the quick
    check: the globals and the clock are as they were, the deepening
    search has not started.  If none of the first three wins, the quick
    check returns nothing, whatever wins further down the list, and the
    answer is the one of the deepening search. *)
Theorem quick_win_shortcut (fen_str : string)
    (eval_params : option (Params E)) (st : State) (root : Board E)
    (player : Z) :
  parse_fen (parse_rows E) fen_str = Some (root, player) ->
  ((exists mv,
      In mv (PyStr.slice 0 3
               (ordered_moves E (mkRules root player)
                  (get_legal_moves E (mkRules root player) player))) /\
      check_win_by_distance_or_capture E
        (board (make_move E (mkRules root player) mv)) player = true) ->
   exists earlier mv' later,
     PyStr.slice 0 3
       (ordered_moves E (mkRules root player)
          (get_legal_moves E (mkRules root player) player))
     = (earlier ++ mv' :: later)%list /\
     (forall m, In m earlier ->
        check_win_by_distance_or_capture E
          (board (make_move E (mkRules root player) m)) player = false) /\
     check_win_by_distance_or_capture E
       (board (make_move E (mkRules root player) mv')) player = true /\
     choose_best_move E fen_str eval_params st = Chosen (Some mv') st) /\
  ((forall mv,
      In mv (PyStr.slice 0 3
               (ordered_moves E (mkRules root player)
                  (get_legal_moves E (mkRules root player) player))) ->
      check_win_by_distance_or_capture E
        (board (make_move E (mkRules root player) mv)) player = false) ->
   exists budget,
     Phase.allocate_time fen_str = Some budget /\
     choose_best_move E fen_str eval_params st
     = Chosen
         (fst (iterative_deepening E (mkRules root player) budget
                 (Some (params_or_default E eval_params)) st))
         (snd (iterative_deepening E (mkRules root player) budget
                 (Some (params_or_default E eval_params)) st))).
Proof.
  intros Hparse. unfold choose_best_move. rewrite Hparse.
  destruct (parse_fen_budget _ _ Hparse) as [budget ->].
  destruct (quick_win E _ player _) as [mv'|] eqn:Hq.
  - split.
    + intros _. apply quick_win_first in Hq as (earlier & later & Heq & Hbefore & Hwin).
      exists earlier, mv', later. auto.
    + intros Hnone. apply quick_win_Some in Hq as [Hin Hwin].
      rewrite (Hnone mv' Hin) in Hwin. discriminate.
  - split.
    + intros (mv & Hin & Hwin). rewrite quick_win_None in Hq.
      rewrite (Hq mv Hin) in Hwin. discriminate.
    + intros _. exists budget. split; [reflexivity|].
      now destruct (iterative_deepening E _ budget _ st).
Qed.

End DriverFacts.

(* ===================================================================== *)
(** * Properties of the search *)
(* ===================================================================== *)

Section SearchFacts.

Variable E : Env.

Local Abbreviation RulesE := (Rules (Board E)).

(** ** The first steps of a node *)

Lemma negamax_timeout (depth : nat) (rules : RulesE) (alpha beta : Score)
    (player : Z) (stop_time : Q) (eval_params : option (Params E)) (st : State) :
  timed_out stop_time (time_at E (clock st)) = true ->
  negamax E depth rules alpha beta player stop_time eval_params st
  = Raised (snd (tick E st)).
Proof. intros H. destruct depth; simpl; now rewrite H. Qed.

Lemma negamax_cached (depth : nat) (rules : RulesE) (alpha beta : Score)
    (player : Z) (stop_time : Q) (eval_params : option (Params E)) (st : State)
    (cached : Score) :
  timed_out stop_time (time_at E (clock st)) = false ->
  ttable st !! key_of E rules player depth = Some cached ->
  negamax E depth rules alpha beta player stop_time eval_params st
  = Returned cached (entered E st).
Proof.
  intros Ht Hc. unfold key_of in Hc.
  destruct depth; simpl; rewrite Ht; simpl in *; now rewrite Hc.
Qed.

Lemma negamax_won (depth : nat) (rules : RulesE) (alpha beta : Score)
    (player : Z) (stop_time : Q) (eval_params : option (Params E)) (st : State) :
  timed_out stop_time (time_at E (clock st)) = false ->
  ttable st !! key_of E rules player depth = None ->
  check_win_by_distance_or_capture E (board rules) player = true ->
  negamax E depth rules alpha beta player stop_time eval_params st
  = Returned (Fin WIN_SCORE)
             (store (key_of E rules player depth) (Fin WIN_SCORE) (entered E st)).
Proof.
  intros Ht Hc Hw. unfold key_of in *.
  destruct depth; simpl; rewrite Ht; simpl in *; now rewrite Hc, Hw.
Qed.

Lemma negamax_lost (depth : nat) (rules : RulesE) (alpha beta : Score)
    (player : Z) (stop_time : Q) (eval_params : option (Params E)) (st : State) :
  timed_out stop_time (time_at E (clock st)) = false ->
  ttable st !! key_of E rules player depth = None ->
  check_win_by_distance_or_capture E (board rules) player = false ->
  check_win_by_distance_or_capture E (board rules) (3 - player) = true ->
  negamax E depth rules alpha beta player stop_time eval_params st
  = Returned (Fin (- WIN_SCORE))
             (store (key_of E rules player depth) (Fin (- WIN_SCORE)) (entered E st)).
Proof.
  intros Ht Hc Hw Hl. unfold key_of in *.
  destruct depth; simpl; rewrite Ht; simpl in *; now rewrite Hc, Hw, Hl.
Qed.

Lemma negamax_depth0 (rules : RulesE) (alpha beta : Score)
    (player : Z) (stop_time : Q) (eval_params : option (Params E)) (st : State) :
  timed_out stop_time (time_at E (clock st)) = false ->
  ttable st !! key_of E rules player 0 = None ->
  check_win_by_distance_or_capture E (board rules) player = false ->
  check_win_by_distance_or_capture E (board rules) (3 - player) = false ->
  negamax E 0 rules alpha beta player stop_time eval_params st
  = Returned
      (Fin (evaluate E (to_fen E (board rules) player) (params_or_default E eval_params)))
      (store (key_of E rules player 0)
         (Fin (evaluate E (to_fen E (board rules) player)
                 (params_or_default E eval_params)))
         (entered E st)).
Proof.
  intros Ht Hc Hw Hl. unfold key_of in *.
  simpl; rewrite Ht; simpl in *; now rewrite Hc, Hw, Hl.
Qed.

(** ** The equation of [negamax] *)

Lemma negamax_eq (depth : nat) (rules : RulesE) (alpha beta : Score)
    (player : Z) (stop_time : Q) (eval_params : option (Params E)) (st : State) :
  negamax E depth rules alpha beta player stop_time eval_params st =
  if timed_out stop_time (time_at E (clock st)) then Raised (snd (tick E st))
  else
    match ttable st !! key_of E rules player depth with
    | Some cached => Returned cached (entered E st)
    | None =>
        if check_win_by_distance_or_capture E (board rules) player
        then Returned (Fin WIN_SCORE)
               (store (key_of E rules player depth) (Fin WIN_SCORE) (entered E st))
        else if check_win_by_distance_or_capture E (board rules) (3 - player)
        then Returned (Fin (- WIN_SCORE))
               (store (key_of E rules player depth) (Fin (- WIN_SCORE)) (entered E st))
        else expand E depth rules alpha beta player stop_time eval_params (entered E st)
    end.
Proof.
  destruct depth as [|[|[|d]]]; reflexivity.
Qed.

Lemma negamax_searched (depth : nat) (rules : RulesE) (alpha beta : Score)
    (player : Z) (stop_time : Q) (eval_params : option (Params E)) (st : State) :
  timed_out stop_time (time_at E (clock st)) = false ->
  ttable st !! key_of E rules player depth = None ->
  check_win_by_distance_or_capture E (board rules) player = false ->
  check_win_by_distance_or_capture E (board rules) (3 - player) = false ->
  negamax E depth rules alpha beta player stop_time eval_params st
  = expand E depth rules alpha beta player stop_time eval_params (entered E st).
Proof.
  intros Ht Hc Hw Hl. now rewrite negamax_eq, Ht, Hc, Hw, Hl.
Qed.

(** ** The null move *)

(** At depth 1 and 2 a searched node with a legal move goes straight to its
    main search: no probe. *)
Lemma negamax_without_null_move (depth : nat) (rules : RulesE)
    (alpha beta : Score) (player : Z) (stop_time : Q)
    (eval_params : option (Params E)) (st : State) :
  (1 <= depth <= 2)%nat ->
  timed_out stop_time (time_at E (clock st)) = false ->
  ttable st !! key_of E rules player depth = None ->
  check_win_by_distance_or_capture E (board rules) player = false ->
  check_win_by_distance_or_capture E (board rules) (3 - player) = false ->
  get_legal_moves E rules player <> [] ->
  negamax E depth rules alpha beta player stop_time eval_params st
  = main_search E (depth - 1) rules alpha beta player stop_time eval_params
                (key_of E rules player depth) (entered E st).
Proof.
  intros Hd Ht Hc Hw Hl Hm. rewrite negamax_searched by assumption.
  destruct depth as [|[|[|d]]]; try lia; simpl;
    destruct (get_legal_moves E rules player); easy.
Qed.

(** The path of [negamax] through the null move.  At a node of depth 3 or
    more that is searched (no deadline, no cache hit, nobody has won, some
    legal move), the first recursive call is the probe: on a copy of the
    rules whose [current_player] is the opponent, at [depth - 1 -
    NULL_MOVE_REDUCTION], with the window negated, and with [player] itself
    as the player argument.  If the probe is cancelled the node is; if its
    negated value reaches [beta] the node stores and returns [beta] and no
    move is tried; otherwise the main search follows. *)
Lemma negamax_null_move (d : nat) (rules : RulesE) (alpha beta : Score)
    (player : Z) (stop_time : Q) (eval_params : option (Params E)) (st : State) :
  timed_out stop_time (time_at E (clock st)) = false ->
  ttable st !! key_of E rules player (S (S (S d))) = None ->
  check_win_by_distance_or_capture E (board rules) player = false ->
  check_win_by_distance_or_capture E (board rules) (3 - player) = false ->
  get_legal_moves E rules player <> [] ->
  Z.of_nat (S d) = Z.of_nat (S (S (S d))) - 1 - NULL_MOVE_REDUCTION /\
  negamax E (S (S (S d))) rules alpha beta player stop_time eval_params st =
  match negamax E (S d) (set_current_player rules (3 - player))
                (Score.neg beta) (Score.neg alpha) player stop_time eval_params
                (entered E st) with
  | Raised st' => Raised st'
  | Returned v st' =>
      if Score.leb beta (Score.neg v)
      then Returned beta (store (key_of E rules player (S (S (S d)))) beta st')
      else main_search E (S (S d)) rules alpha beta player stop_time eval_params
                       (key_of E rules player (S (S (S d)))) st'
  end.
Proof.
  intros Ht Hc Hw Hl Hm. split; [unfold NULL_MOVE_REDUCTION; lia|].
  rewrite negamax_searched by assumption. unfold expand.
  destruct (get_legal_moves E rules player); easy.
Qed.

(** ** Zero-sum symmetry *)

(** C5, amended. With a far-future deadline and an empty cache, the value
    of a position for a player is the negation of its value for the
    opponent at every depth when exactly one of the two has won, and at
    depth 0, when nobody has won, exactly as far as the evaluator gives
    opposite values to the two serializations of the position. *)
Theorem zero_sum_where_decided (depth : nat) (rules : RulesE) (player : Z)
    (stop_time : Q) (eval_params : option (Params E)) (st1 st2 : State) :
  (forall k, timed_out stop_time (time_at E k) = false) ->
  ttable st1 = ∅ -> ttable st2 = ∅ ->
  (check_win_by_distance_or_capture E (board rules) player
   <> check_win_by_distance_or_capture E (board rules) (3 - player))
  \/ (depth = 0%nat /\
      check_win_by_distance_or_capture E (board rules) player = false /\
      check_win_by_distance_or_capture E (board rules) (3 - player) = false /\
      evaluate E (to_fen E (board rules) player) (params_or_default E eval_params)
      = - evaluate E (to_fen E (board rules) (3 - player))
            (params_or_default E eval_params)) ->
  exists v,
    value_of (negamax E depth rules NegInf PosInf player stop_time eval_params st1)
    = Some v /\
    value_of (negamax E depth rules NegInf PosInf (3 - player) stop_time
                      eval_params st2)
    = Some (Score.neg v).
Proof.
  intros Hfar H1 H2 Hcase.
  assert (Hback : 3 - (3 - player) = player) by lia.
  assert (Hm1 : forall k, ttable st1 !! k = None) by (intros; now rewrite H1).
  assert (Hm2 : forall k, ttable st2 !! k = None) by (intros; now rewrite H2).
  destruct Hcase as [Hone|(-> & Hw & Hl & Hev)].
  - destruct (check_win_by_distance_or_capture E (board rules) player) eqn:Hw;
      destruct (check_win_by_distance_or_capture E (board rules) (3 - player)) eqn:Hl;
      try congruence.
    + exists (Fin WIN_SCORE). split.
      * now rewrite negamax_won.
      * rewrite negamax_lost; auto. now rewrite Hback.
    + exists (Fin (- WIN_SCORE)). split.
      * now rewrite negamax_lost.
      * rewrite negamax_won; auto.
  - exists (Fin (evaluate E (to_fen E (board rules) player)
                    (params_or_default E eval_params))).
    split.
    + now rewrite negamax_depth0.
    + rewrite negamax_depth0; auto; [|now rewrite Hback].
      simpl. rewrite Hev. unfold Score.neg. now rewrite Z.opp_involutive.
Qed.

End SearchFacts.

(* ===================================================================== *)
(** * Properties of the plain minimax engine and of the two orderers *)
(* ===================================================================== *)

Section MinMaxFacts.

Variable E : Env.

Local Abbreviation RulesE := (Rules (Board E)).

(** The entries of a keyed list with a given key, in their order. *)
Local Abbreviation bucket k l :=
  (List.filter (fun x : Z * Move => fst x =? k) l).

Lemma insert_desc_between (x : Z * Move) (above below : list (Z * Move)) :
  (forall y, In y above -> fst x < fst y) ->
  (forall y, In y below -> fst y <= fst x) ->
  MinMax.insert_desc x (above ++ below) = (above ++ x :: below)%list.
Proof.
  intros Ha Hb. induction above as [|a above IH]; simpl.
  - destruct below as [|y below]; simpl; [reflexivity|].
    assert (fst y <= fst x) by (apply Hb; now left).
    destruct (Z.leb_spec (fst y) (fst x)); [reflexivity|lia].
  - assert (fst x < fst a) by (apply Ha; now left).
    destruct (Z.leb_spec (fst a) (fst x)); [lia|].
    f_equal. apply IH. intros y Hy. apply Ha. now right.
Qed.

Lemma in_bucket (k : Z) (l : list (Z * Move)) (y : Z * Move) :
  In y (bucket k l) -> fst y = k.
Proof. intros H. apply filter_In in H as [_ H]. lia. Qed.

(** Bounds on the key of a member of several buckets. *)
Ltac bucket_bound H :=
  rewrite ?in_app_iff in H;
  repeat match type of H with
         | _ \/ _ => destruct H as [H|H]
         end;
  apply in_bucket in H; lia.

(** A stable sort by decreasing key, for keys 0 to 3, lines up the four
    buckets. *)
Lemma sort_desc_buckets (l : list (Z * Move)) :
  (forall y, In y l -> 0 <= fst y <= 3) ->
  MinMax.sort_desc l = (bucket 3 l ++ bucket 2 l ++ bucket 1 l ++ bucket 0 l)%list.
Proof.
  induction l as [|x l IH]; intros Hk; [reflexivity|].
  assert (Hx : 0 <= fst x <= 3) by (apply Hk; now left).
  assert (Hl : forall y, In y l -> 0 <= fst y <= 3) by (intros; apply Hk; now right).
  change (MinMax.sort_desc (x :: l)) with (MinMax.insert_desc x (MinMax.sort_desc l)).
  rewrite (IH Hl). cbn [List.filter].
  assert (Hcases : fst x = 3 \/ fst x = 2 \/ fst x = 1 \/ fst x = 0) by lia.
  destruct Hcases as [Hc|[Hc|[Hc|Hc]]]; rewrite Hc; cbn [Z.eqb Pos.eqb].
  - apply (insert_desc_between x []).
    + intros y Hy. destruct Hy.
    + intros y Hy. bucket_bound Hy.
  - rewrite insert_desc_between; [reflexivity| |]; intros y Hy; bucket_bound Hy.
  - rewrite (app_assoc (bucket 3 l)), insert_desc_between;
      [now rewrite <- app_assoc| |]; intros y Hy; bucket_bound Hy.
  - rewrite (app_assoc (bucket 2 l)), (app_assoc (bucket 3 l)), insert_desc_between;
      [now rewrite <- !app_assoc| |]; intros y Hy; bucket_bound Hy.
Qed.

Lemma priority_range (rules : RulesE) (mv : Move) (k : Z) :
  MinMax.priority E rules mv = Some k -> 0 <= k <= 3.
Proof.
  unfold MinMax.priority. destruct mv as [[from_pos to_pos] height].
  destruct (check_win_by_distance_or_capture E _ _); [intros [= <-]; lia|].
  destruct (get_top_piece_type E _ _ _); [|discriminate].
  destruct (String.eqb _ _); [intros [= <-]; lia|].
  destruct (get_stack_owner E _ _ _) as [o|]; [|intros [= <-]; lia].
  destruct (negb _); intros [= <-]; lia.
Qed.

Lemma keys_spec (rules : RulesE) (moves : list Move) (keyed : list (Z * Move)) :
  MinMax.keys E rules moves = Some keyed ->
  map snd keyed = moves /\
  (forall y, In y keyed -> MinMax.priority E rules (snd y) = Some (fst y)).
Proof.
  revert keyed. induction moves as [|mv moves IH]; intros keyed; simpl.
  - intros [= <-]. split; [reflexivity|intros y []].
  - destruct (MinMax.priority E rules mv) as [k|] eqn:Hp; [|discriminate].
    destruct (MinMax.keys E rules moves) as [l|]; [|discriminate].
    intros [= <-]. destruct (IH l eq_refl) as [Hm Hk]. split.
    + simpl. now rewrite Hm.
    + intros y [<-|Hy]; [exact Hp|now apply Hk].
Qed.

Lemma keys_None (rules : RulesE) (moves : list Move) :
  MinMax.keys E rules moves = None ->
  exists mv, In mv moves /\ MinMax.priority E rules mv = None.
Proof.
  induction moves as [|mv moves IH]; simpl; [discriminate|].
  destruct (MinMax.priority E rules mv) as [k|] eqn:Hp.
  - destruct (MinMax.keys E rules moves) as [l|]; [discriminate|].
    intros _. destruct (IH eq_refl) as (m & Hin & Hm). eauto.
  - intros _. eauto.
Qed.

Lemma map_snd_bucket (rules : RulesE) (k : Z) (keyed : list (Z * Move)) :
  (forall y, In y keyed -> MinMax.priority E rules (snd y) = Some (fst y)) ->
  map snd (bucket k keyed)
  = List.filter (MinMax.has_priority E rules k) (map snd keyed).
Proof.
  induction keyed as [|y keyed IH]; intros Hk; [reflexivity|].
  cbn [List.filter map]. unfold MinMax.has_priority at 1.
  rewrite (Hk y (or_introl eq_refl)).
  destruct (fst y =? k); cbn [map]; rewrite IH; auto;
    intros z Hz; apply Hk; now right.
Qed.

Lemma priority_3 (rules : RulesE) (mv : Move) :
  MinMax.has_priority E rules 3 mv
  = check_win_by_distance_or_capture E (board (make_move E rules mv))
      (current_player rules).
Proof.
  unfold MinMax.has_priority, MinMax.priority.
  destruct mv as [[from_pos to_pos] height].
  destruct (check_win_by_distance_or_capture E _ _); [reflexivity|].
  destruct (get_top_piece_type E _ _ _); [|reflexivity].
  destruct (String.eqb _ _); [reflexivity|].
  destruct (get_stack_owner E _ _ _) as [o|]; [|reflexivity].
  now destruct (negb _).
Qed.

(** C9, amended. The orderer of alpha_beta_ki.py, [order_moves_fast],
    returns the guardian's moves, then the other moves onto a square the
    opponent owns, then the rest, each part in the order of the candidates,
    and reads the class of a move off the piece on its origin and the owner
    of its destination without applying the move.  The orderer of
    Min_max.py, [order_moves], returns the candidates by decreasing
    priority, each priority in the order of the candidates, and its first
    priority is that of the moves that win at once, which it finds by
    applying every move to a copy; it raises on a move from an empty
    square. *)
Theorem move_orderers (rules : RulesE) (moves : list Move) :
  ordered_moves E rules moves =
  (List.filter (fun mv => is_guardian_move (get_top_piece_type E) rules mv) moves
   ++ List.filter (fun mv => negb (is_guardian_move (get_top_piece_type E) rules mv)
                             && is_capture_move (get_stack_owner E) rules mv) moves
   ++ List.filter (fun mv => negb (is_guardian_move (get_top_piece_type E) rules mv)
                             && negb (is_capture_move (get_stack_owner E) rules mv))
        moves)%list
  /\ Permutation (ordered_moves E rules moves) moves
  /\ match MinMax.order_moves E rules moves with
     | Some ordered =>
         ordered =
         (List.filter (MinMax.has_priority E rules 3) moves
          ++ List.filter (MinMax.has_priority E rules 2) moves
          ++ List.filter (MinMax.has_priority E rules 1) moves
          ++ List.filter (MinMax.has_priority E rules 0) moves)%list
     | None => exists mv, In mv moves /\ MinMax.priority E rules mv = None
     end
  /\ (forall mv,
        MinMax.has_priority E rules 3 mv
        = check_win_by_distance_or_capture E (board (make_move E rules mv))
            (current_player rules)).
Proof.
  split; [apply order_moves_fast_filters|].
  split; [apply order_moves_fast_perm|].
  split; [|apply priority_3].
  unfold MinMax.order_moves.
  destruct (MinMax.keys E rules moves) as [keyed|] eqn:Hkeys;
    [|now apply keys_None].
  destruct (keys_spec _ _ _ Hkeys) as [Hmoves Hprio].
  rewrite sort_desc_buckets.
  - rewrite !map_app, !(map_snd_bucket rules) by exact Hprio.
    now rewrite Hmoves.
  - intros y Hy. eapply priority_range, Hprio, Hy.
Qed.

(** ** The node counter of Min_max.py *)

Lemma counted_from_add {A} (n k : Z) (o : option (A * Z)) :
  MinMax.counted_from n (MinMax.counted_from k o) = MinMax.counted_from (n + k) o.
Proof. destruct o as [[a j]|]; simpl; [f_equal; f_equal; lia|reflexivity]. Qed.

Lemma minmax_moves_counts
    (rec : RulesE -> Z -> option (Score * Z)) (rules : RulesE) (player : Z) :
  (forall r n, rec r n = MinMax.counted_from n (rec r 0)) ->
  forall (moves : list Move) (best : Score) (n : Z),
    MinMax.minmax_moves E rec rules player moves best n
    = MinMax.counted_from n (MinMax.minmax_moves E rec rules player moves best 0).
Proof.
  intros Hrec. induction moves as [|mv moves IH]; intros best n; simpl.
  - f_equal. f_equal. lia.
  - rewrite (Hrec _ n).
    destruct (rec _ 0) as [[v k]|]; simpl; [|reflexivity].
    destruct (Score.leb _ _); simpl; [reflexivity|].
    rewrite (IH _ (n + k)), (IH _ k). now rewrite counted_from_add.
Qed.

Lemma minmax_counts (depth : nat) (rules : RulesE) (player n : Z) :
  MinMax.minmax E depth rules player n
  = MinMax.counted_from n (MinMax.minmax E depth rules player 0).
Proof.
  revert rules player n. induction depth as [|d IH]; intros rules player n; simpl.
  - repeat (destruct (check_win_by_distance_or_capture E _ _); [reflexivity|]).
    reflexivity.
  - repeat (destruct (check_win_by_distance_or_capture E _ _); [reflexivity|]).
    destruct (get_legal_moves E rules player); [reflexivity|].
    destruct (MinMax.order_moves E rules _); [|reflexivity].
    rewrite (minmax_moves_counts _ rules player) with (n := n + 1)
      by (intros; apply IH).
    rewrite (minmax_moves_counts _ rules player) with (n := 0 + 1)
      by (intros; apply IH).
    now rewrite counted_from_add.
Qed.

Lemma win_trials_counts (rules : RulesE) (player : Z) (moves : list Move) (n : Z) :
  MinMax.win_trials E rules player moves n
  = (fst (MinMax.win_trials E rules player moves 0),
     n + snd (MinMax.win_trials E rules player moves 0)).
Proof.
  revert n. induction moves as [|mv moves IH]; intros n; simpl.
  - f_equal. lia.
  - destruct (check_win_by_distance_or_capture E _ _); simpl; [reflexivity|].
    rewrite (IH (n + 1)), (IH (0 + 1)). simpl. f_equal. lia.
Qed.

Lemma root_trials_counts (depth1 : nat) (rules : RulesE) (player : Z)
    (moves : list Move) (best_move : option Move) (best_score : Score) (n : Z) :
  MinMax.root_trials E depth1 rules player moves best_move best_score n
  = MinMax.counted_from n
      (MinMax.root_trials E depth1 rules player moves best_move best_score 0).
Proof.
  revert best_move best_score n.
  induction moves as [|mv moves IH]; intros best_move best_score n; simpl.
  - f_equal. f_equal. lia.
  - rewrite (minmax_counts _ _ _ (n + 1)), (minmax_counts _ _ _ (0 + 1)).
    destruct (MinMax.minmax E depth1 _ _ 0) as [[v k]|]; simpl; [|reflexivity].
    destruct (Score.ltb best_score (Score.neg v)); cbn beta iota zeta;
      (destruct (Score.leb _ _); simpl;
       [f_equal; f_equal; lia
       |rewrite (IH _ _ (n + 1 + k)), (IH _ _ (0 + 1 + k)), counted_from_add;
        f_equal; lia]).
Qed.

Lemma choose_best_move_counts (fen_str : string) (depth : nat) (n : Z) :
  MinMax.choose_best_move E fen_str depth n
  = MinMax.counted_from n (MinMax.choose_best_move E fen_str depth 0).
Proof.
  unfold MinMax.choose_best_move.
  destruct (parse_fen _ fen_str) as [[b player]|]; [|reflexivity].
  destruct (MinMax.order_moves E _ _) as [moves|]; [|reflexivity].
  rewrite (win_trials_counts _ _ _ n).
  destruct (MinMax.win_trials E _ player moves 0) as [[mv|] k]; simpl;
    [reflexivity|].
  rewrite (root_trials_counts _ _ _ _ _ _ (n + k)),
    (root_trials_counts _ _ _ _ _ _ k).
  destruct (MinMax.root_trials E _ _ player moves None NegInf 0) as [[[mv|] j]|];
    simpl; try reflexivity. f_equal. f_equal. lia.
Qed.

(** C8, amended. [iterative_deepening] starts from zero nodes and an empty
    cache, so what it returns and the globals it leaves do not depend on
    the count, the cache, the start time or the budget an earlier call
    left; nor does the move [choose_best_move] returns.  A call of
    [choose_best_move] that the quick win check ends leaves the globals as
    it found them.  The counter of Min_max.py is not reset: a call leaves
    the count it found plus the nodes it visited itself. *)
Theorem search_state_per_call (rules : RulesE) (budget : Q)
    (eval_params : option (Params E)) (fen_str : string)
    (n1 n2 : Z) (t1 t2 : gmap (Z * Z) Score) (s1 s2 b1 b2 : Q) (k : nat) :
  nodes_visited (start_search E budget (mkState n1 t1 s1 b1 k)) = 0 /\
  ttable (start_search E budget (mkState n1 t1 s1 b1 k)) = ∅ /\
  iterative_deepening E rules budget eval_params (mkState n1 t1 s1 b1 k) =
  iterative_deepening E rules budget eval_params (mkState n2 t2 s2 b2 k) /\
  chosen (choose_best_move E fen_str eval_params (mkState n1 t1 s1 b1 k)) =
  chosen (choose_best_move E fen_str eval_params (mkState n2 t2 s2 b2 k)) /\
  (forall root player mv,
     parse_fen (parse_rows E) fen_str = Some (root, player) ->
     quick_win E (mkRules root player) player
       (PyStr.slice 0 3
          (ordered_moves E (mkRules root player)
             (get_legal_moves E (mkRules root player) player))) = Some mv ->
     choose_best_move E fen_str eval_params (mkState n1 t1 s1 b1 k)
     = Chosen (Some mv) (mkState n1 t1 s1 b1 k)) /\
  (forall depth1,
     MinMax.choose_best_move E fen_str (S depth1) n1
     = MinMax.counted_from n1 (MinMax.choose_best_move E fen_str (S depth1) 0)).
Proof.
  split; [reflexivity|]. split; [reflexivity|]. split; [reflexivity|].
  split; [|split; [|intros; apply choose_best_move_counts]].
  2: { intros root player mv Hparse Hq. unfold choose_best_move.
       rewrite Hparse. destruct (parse_fen_budget E _ _ Hparse) as [q ->].
       now rewrite Hq. }
  unfold choose_best_move.
  destruct (parse_fen (parse_rows E) fen_str) as [[root player]|]; [|reflexivity].
  destruct (Phase.allocate_time fen_str) as [q|]; [|reflexivity].
  destruct (quick_win E _ player _); [reflexivity|].
  reflexivity.
Qed.

End MinMaxFacts.

(* ===================================================================== *)
(** * The driver on the table-driven game *)
(* ===================================================================== *)

Module ToyFacts.
Import Toy.

(** The driver returns a legal move on the game with two root moves. *)
Example two_moves_returns_a_move :
  chosen (choose_best_move (env two_moves) "A r" None fresh_state)
  = Some (Some (to_pos 1)).
Proof. vm_compute. reflexivity. Qed.

Lemma no_legal_moves_sentinel_witness :
  parse_fen (parse_rows (env stuck)) "A r" = Some (0, 1) /\
  get_legal_moves (env stuck) (mkRules 0 1) 1 = [] /\
  exists st', choose_best_move (env stuck) "A r" None used_state = Chosen None st'.
Proof.
  split; [reflexivity|]. split; [reflexivity|].
  apply (no_legal_moves_sentinel (env stuck) "A r" None used_state 0 1);
    reflexivity.
Defined.

Lemma quick_win_shortcut_witness :
  exists earlier mv' later,
    PyStr.slice 0 3
      (ordered_moves (env win_last) (mkRules 0 1)
         (get_legal_moves (env win_last) (mkRules 0 1) 1))
    = (earlier ++ mv' :: later)%list /\
    (forall m, In m earlier ->
       check_win_by_distance_or_capture (env win_last)
         (board (make_move (env win_last) (mkRules 0 1) m)) 1 = false) /\
    check_win_by_distance_or_capture (env win_last)
      (board (make_move (env win_last) (mkRules 0 1) mv')) 1 = true /\
    choose_best_move (env win_last) "A r" None used_state
    = Chosen (Some mv') used_state.
Proof.
  destruct (quick_win_shortcut (env win_last) "A r" None used_state 0 1 eq_refl)
    as [Hfirst _].
  apply Hfirst. exists (to_pos 2). split; [|reflexivity].
  vm_compute. right. left. reflexivity.
Defined.

(** C3, as stated, fails: the fourth root move wins at once and the quick
    check, which tries three, does not see it.  With the deadline reached
    after the first root move of depth 1 the driver returns that move,
    which does not win; with time to spare it returns the winning move, but
    from the deepening search, four nodes later. *)
Lemma late_win_missed :
  In (to_pos 4) (get_legal_moves (env (late_win (expires_after 3))) (mkRules 0 1) 1) /\
  check_win_by_distance_or_capture (env (late_win (expires_after 3)))
    (board (make_move (env (late_win (expires_after 3))) (mkRules 0 1) (to_pos 4))) 1
  = true /\
  quick_win (env (late_win (expires_after 3))) (mkRules 0 1) 1
    (PyStr.slice 0 3
       (ordered_moves (env (late_win (expires_after 3))) (mkRules 0 1)
          (get_legal_moves (env (late_win (expires_after 3))) (mkRules 0 1) 1)))
  = None /\
  chosen (choose_best_move (env (late_win (expires_after 3))) "A r" None fresh_state)
  = Some (Some (to_pos 1)) /\
  check_win_by_distance_or_capture (env (late_win (expires_after 3)))
    (board (make_move (env (late_win (expires_after 3))) (mkRules 0 1) (to_pos 1))) 1
  = false /\
  chosen (choose_best_move (env (late_win (fun _ => 0%Q))) "A r" None fresh_state)
  = Some (Some (to_pos 4)) /\
  nodes_visited
    (left_state (choose_best_move (env (late_win (fun _ => 0%Q))) "A r" None fresh_state))
  = 4.
Proof. vm_compute. intuition congruence. Qed.

(** C8, as stated, fails.  When the quick check returns the move,
    [choose_best_move] leaves the node count and the cache of the earlier
    call in place; and the counter of Min_max.py is never reset: a call
    that starts at 7 ends at 8, the next one at 9. *)
Lemma state_survives_a_call :
  choose_best_move (env early_win) "A r" None used_state
  = Chosen (Some (to_pos 1)) used_state /\
  nodes_visited used_state = 7 /\
  ttable used_state !! (1, 1) = Some (Fin 42) /\
  MinMax.choose_best_move (env early_win) "A r" 4 7 = Some (to_pos 1, 8) /\
  MinMax.choose_best_move (env early_win) "A r" 4 8 = Some (to_pos 1, 9).
Proof. vm_compute. intuition congruence. Qed.



(** C5, as stated, fails.  At depth 0 the value of a position is what the
    evaluator says, and the evaluator of the repository does not give the
    two players opposite values: the start position is worth -65 to red
    and 155 to blue.  At depth 1 the equation fails whatever the evaluator:
    each side looks at its own moves, and on the table game where a move
    gains either side a point, with values that are opposite for the two
    players, the position is worth 1 to both. *)
Lemma zero_sum_fails :
  (parse_fen (parse_rows TurmWaechter.env) (Bitboard.start_placement ++ " r")
   = Some (TurmWaechter.start_board, 1) /\
   to_fen TurmWaechter.env TurmWaechter.start_board 1
   = (Bitboard.start_placement ++ " r")%string /\
   value_of (negamax TurmWaechter.env 0 (mkRules TurmWaechter.start_board 1)
               NegInf PosInf 1 100%Q None fresh_state)
   = Some (Fin (-65)) /\
   value_of (negamax TurmWaechter.env 0 (mkRules TurmWaechter.start_board 1)
               NegInf PosInf 2 100%Q None fresh_state)
   = Some (Fin 155) /\
   Fin (-65) <> Score.neg (Fin 155)) /\
  ((forall n, value tempo n 2 = - value tempo n 1) /\
   value_of (negamax (env tempo) 1 (mkRules 0 1) NegInf PosInf 1 100%Q None fresh_state)
   = Some (Fin 1) /\
   value_of (negamax (env tempo) 1 (mkRules 0 1) NegInf PosInf 2 100%Q None fresh_state)
   = Some (Fin 1) /\
   Fin 1 <> Score.neg (Fin 1)).
Proof.
  split.
  - vm_compute. intuition congruence.
  - split; [intros n; unfold tempo; simpl; lia|].
    vm_compute. intuition congruence.
Qed.

Lemma zero_sum_where_decided_witness :
  exists v,
    value_of (negamax (env tempo) 2 (mkRules 9 1) NegInf PosInf 1 100%Q None fresh_state)
    = Some v /\
    value_of (negamax (env tempo) 2 (mkRules 9 1) NegInf PosInf (3 - 1) 100%Q None
                      (mkState 7 ∅ 0%Q 0.2%Q 3))
    = Some (Score.neg v).
Proof.
  apply (zero_sum_where_decided (env tempo) 2 (mkRules 9 1) 1 100%Q None
           fresh_state (mkState 7 ∅ 0%Q 0.2%Q 3)).
  - intros k. reflexivity.
  - reflexivity.
  - reflexivity.
  - left. vm_compute. congruence.
Defined.

(** C2 on a position where moving is worse than passing.  The window is
    (-50, 50), the depth 3, player 1 to move.  The probe the code runs has
    the opponent as [current_player] of the rules and player 1 as its
    player argument: it is the depth 1 search of player 1's own move and
    returns -100; negated, 100 reaches beta and the node returns beta, 50.
    The probe for the opponent, the side to move flipped, returns 200;
    negated, -200 stays below beta, and the main search of the node gives
    -100. *)
Lemma null_move_probe_keeps_player :
  value_of (negamax (env passing) 3 (mkRules 0 1) (Fin (-50)) (Fin 50) 1
                    100%Q None fresh_state)
  = Some (Fin 50) /\
  value_of (negamax (env passing) 1 (set_current_player (mkRules 0 1) (3 - 1))
                    (Score.neg (Fin 50)) (Score.neg (Fin (-50))) 1
                    100%Q None (entered (env passing) fresh_state))
  = Some (Fin (-100)) /\
  Score.leb (Fin 50) (Score.neg (Fin (-100))) = true /\
  value_of (negamax (env passing) 1 (set_current_player (mkRules 0 1) (3 - 1))
                    (Score.neg (Fin 50)) (Score.neg (Fin (-50))) (3 - 1)
                    100%Q None (entered (env passing) fresh_state))
  = Some (Fin 200) /\
  Score.leb (Fin 50) (Score.neg (Fin 200)) = false /\
  value_of (main_search (env passing) 2 (mkRules 0 1) (Fin (-50)) (Fin 50) 1
                        100%Q None (key_of (env passing) (mkRules 0 1) 1 3)
                        (entered (env passing) fresh_state))
  = Some (Fin (-100)).
Proof. vm_compute. intuition congruence. Qed.

(** C9, as stated, fails on the orderer of Min_max.py: of two plain tower
    moves onto empty squares it puts the second first, because the second
    wins at once.  By the claim both belong to the remaining moves and
    keep their order. *)
Lemma lookahead_orders_first :
  MinMax.order_moves (env win_last) (mkRules 0 1) [to_pos 1; to_pos 2]
  = Some [to_pos 2; to_pos 1] /\
  List.filter
    (fun mv => negb (is_guardian_move (piece_at win_last) (mkRules 0 1) mv)
               && negb (is_capture_move (owner_at win_last) (mkRules 0 1) mv))
    [to_pos 1; to_pos 2]
  = [to_pos 1; to_pos 2] /\
  check_win_by_distance_or_capture (env win_last)
    (board (make_move (env win_last) (mkRules 0 1) (to_pos 2))) 1 = true /\
  ordered_moves (env win_last) (mkRules 0 1) [to_pos 1; to_pos 2]
  = [to_pos 1; to_pos 2].
Proof. vm_compute. intuition congruence. Qed.

(** The evaluator on the start position, for either side to move. *)
Example evaluate_start :
  Bitboard.run_evaluate (Bitboard.start_placement ++ " r") Bitboard.DEFAULT_PARAMS
  = Some (-65) /\
  Bitboard.run_evaluate (Bitboard.start_placement ++ " b") Bitboard.DEFAULT_PARAMS
  = Some 155.
Proof. vm_compute. split; reflexivity. Qed.

End ToyFacts.

(* ===================================================================== *)
(** * Invariants of the search: the cache, the node counter, the clock *)
(* ===================================================================== *)

Section SearchInvariants.

Variable E : Env.

Local Abbreviation RulesE := (Rules (Board E)).

(** ** Growth of the globals *)

Lemma extends_refl (d : Z) (st : State) : extends d st st.
Proof.
  split; [reflexivity|]. split; [now left|]. split; [reflexivity|].
  split; [reflexivity|lia].
Qed.

Lemma extends_trans (d : Z) (st1 st2 st3 : State) :
  extends d st1 st2 -> extends d st2 st3 -> extends d st1 st3.
Proof.
  intros (S1 & N1 & A1 & B1 & C1) (S2 & N2 & A2 & B2 & C2).
  split; [etrans; eassumption|]. split.
  - intros key v H. destruct (N2 _ _ H) as [H'|H']; auto.
  - split; [congruence|]. split; [congruence|lia].
Qed.

Lemma extends_mono (d d' : Z) (st st' : State) :
  d <= d' -> extends d st st' -> extends d' st st'.
Proof.
  intros Hd (S1 & N1 & A1 & B1 & C1).
  split; [assumption|]. split; [|auto].
  intros key v H. destruct (N1 _ _ H) as [H'|H']; [now left|right; lia].
Qed.

Lemma extends_entered (d : Z) (st : State) : extends d st (entered E st).
Proof.
  split; [reflexivity|]. split; [now left|]. split; [reflexivity|].
  split; [reflexivity|simpl; lia].
Qed.

Lemma extends_store (d : Z) (key : Z * Z) (v : Score) (st : State) :
  ttable st !! key = None ->
  0 <= fst key < 10000 -> 0 <= snd key <= d ->
  extends d st (store key v st).
Proof.
  intros Hnone Hh Hd. split; [now apply insert_subseteq|]. split.
  - intros key' v' H. simpl in H. apply lookup_insert_Some in H.
    destruct H as [[<- _]|[_ H]]; auto.
  - split; [reflexivity|]. split; [reflexivity|simpl; lia].
Qed.

(** A key of greater depth than a call writes is as absent after the call
    as it was before. *)
Lemma extends_absent (d : Z) (st st' : State) (key : Z * Z) :
  extends d st st' -> d < snd key -> ttable st !! key = None ->
  ttable st' !! key = None.
Proof.
  intros (_ & N & _) Hd Hnone.
  destruct (ttable st' !! key) as [v|] eqn:H; [|reflexivity].
  destruct (N _ _ H) as [H'|H']; [congruence|lia].
Qed.

Lemma key_of_range (rules : RulesE) (player : Z) (depth : nat) :
  0 <= fst (key_of E rules player depth) < 10000 /\
  snd (key_of E rules player depth) = Z.of_nat depth.
Proof.
  unfold key_of. simpl. split; [apply Z.mod_pos_bound; lia|reflexivity].
Qed.

(** ** The invariant of a call *)

Local Abbreviation inv stop d st o :=
  (extends d st (final_state o) /\ accounted E stop st o).

Lemma inv_returned_here (stop : Q) (d : Z) (st : State) (v : Score) :
  inv stop d st (Returned v st).
Proof. split; [apply extends_refl|simpl; lia]. Qed.

Lemma inv_after (stop : Q) (d : Z) (st st1 : State) (o : Outcome Score) :
  extends d st st1 ->
  nodes_visited st1 - nodes_visited st = Z.of_nat (clock st1) - Z.of_nat (clock st) ->
  inv stop d st1 o -> inv stop d st o.
Proof.
  intros Hx Hn [Hx1 Ha]. split; [eapply extends_trans; eassumption|].
  destruct Hx as (_ & _ & _ & _ & Hc).
  destruct o as [v st2|st2]; simpl in *; [lia|].
  destruct Ha as (Ha & Hlt & Ht). split; [lia|]. split; [lia|assumption].
Qed.

Lemma inv_stored (stop : Q) (d : Z) (st st1 : State) (v w : Score) (key : Z * Z) :
  inv stop d st (Returned v st1) ->
  ttable st1 !! key = None ->
  0 <= fst key < 10000 -> 0 <= snd key <= d ->
  inv stop d st (Returned w (store key w st1)).
Proof.
  intros [Hx Ha] Hnone Hh Hd. simpl in *. split; [|exact Ha].
  eapply extends_trans; [exact Hx|now apply extends_store].
Qed.

Lemma inv_mono (stop : Q) (d d' : Z) (st : State) (o : Outcome Score) :
  d <= d' -> inv stop d st o -> inv stop d' st o.
Proof. intros Hd [Hx Ha]. split; [eapply extends_mono; eassumption|exact Ha]. Qed.

(** The loop over the moves keeps what every recursive call keeps. *)
Lemma search_moves_inv (stop : Q) (d : Z)
    (rec : RulesE -> Score -> Score -> State -> Outcome Score) :
  (forall child a b s, inv stop d s (rec child a b s)) ->
  forall (rules : RulesE) (player : Z) (beta : Score) (moves : list Move)
         (alpha best : Score) (st : State),
    inv stop d st (search_moves E rec rules player beta moves alpha best st).
Proof.
  intros Hrec rules player beta moves.
  induction moves as [|mv rest IH]; intros alpha best st; cbn [search_moves].
  - apply (inv_returned_here stop d st best).
  - pose proof (Hrec (set_current_player (make_move E rules mv) (3 - player))
                     (Score.neg beta) (Score.neg alpha) st) as H.
    destruct (rec _ _ _ st) as [v st1|st1]; [|exact H].
    destruct (_ || _); [exact H|].
    destruct H as [Hx Ha]. simpl in *.
    eapply inv_after; [exact Hx|exact Ha|apply IH].
Qed.

Lemma main_search_inv (stop : Q) (ep : option (Params E)) (d1 depth : nat)
    (rules : RulesE) (alpha beta : Score) (player : Z) (st : State) :
  (d1 < depth)%nat ->
  (forall child a b p s,
     inv stop (Z.of_nat d1) s (negamax E d1 child a b p stop ep s)) ->
  ttable st !! key_of E rules player depth = None ->
  inv stop (Z.of_nat depth) st
      (main_search E d1 rules alpha beta player stop ep
                   (key_of E rules player depth) st).
Proof.
  intros Hlt Hrec Hnone. unfold main_search.
  pose proof (search_moves_inv stop (Z.of_nat d1)
                (fun child a b s => negamax E d1 child a b (3 - player) stop ep s)
                (fun child a b s => Hrec child a b (3 - player) s)
                rules player beta
                (ordered_moves E rules (get_legal_moves E rules player))
                alpha NegInf st) as H.
  destruct (search_moves _ _ _ _ _ _ _ _ _) as [best st1|st1].
  - destruct (key_of_range rules player depth) as [Hh Hd].
    eapply inv_stored.
    + eapply inv_mono; [|exact H]. lia.
    + destruct H as [Hx _]. eapply extends_absent; [exact Hx| |exact Hnone].
      rewrite Hd. lia.
    + exact Hh.
    + rewrite Hd. lia.
  - eapply inv_mono; [|exact H]. lia.
Qed.

Lemma expand_inv (stop : Q) (ep : option (Params E)) (depth : nat) :
  (forall d', (d' < depth)%nat ->
     forall child a b p s,
       inv stop (Z.of_nat d') s (negamax E d' child a b p stop ep s)) ->
  forall (rules : RulesE) (alpha beta : Score) (player : Z) (st : State),
    ttable st !! key_of E rules player depth = None ->
    inv stop (Z.of_nat depth) st
        (expand E depth rules alpha beta player stop ep st).
Proof.
  intros IH rules alpha beta player st Hnone.
  destruct (key_of_range rules player depth) as [Hh Hd].
  assert (Hleaf : forall w,
            inv stop (Z.of_nat depth) st
                (Returned w (store (key_of E rules player depth) w st))).
  { intros w. eapply inv_stored with (v := w);
      [apply inv_returned_here|exact Hnone|exact Hh|rewrite Hd; lia]. }
  unfold expand. destruct depth as [|d1]; [apply Hleaf|].
  destruct (get_legal_moves E rules player) eqn:Hmoves; [apply Hleaf|].
  clear Hmoves.
  destruct d1 as [|[|d]].
  - fold (main_search E 0 rules alpha beta player stop ep
            (key_of E rules player 1) st).
    apply main_search_inv; [lia|apply IH; lia|exact Hnone].
  - apply main_search_inv; [lia|apply IH; lia|exact Hnone].
  - pose proof (IH (S d) ltac:(lia) (set_current_player rules (3 - player))
                   (Score.neg beta) (Score.neg alpha) player st) as Hp.
    destruct (negamax E (S d) _ _ _ _ _ _ _) as [v st1|st1].
    + assert (Hnone1 : ttable st1 !! key_of E rules player (S (S (S d))) = None).
      { destruct Hp as [Hx _]. eapply extends_absent; [exact Hx| |exact Hnone].
        rewrite Hd. lia. }
      destruct Hp as [Hx Ha]. simpl in Hx, Ha.
      destruct (Score.leb beta (Score.neg v)).
      * eapply inv_stored with (v := v).
        -- split; [eapply extends_mono; [|exact Hx]; lia|exact Ha].
        -- exact Hnone1.
        -- exact Hh.
        -- rewrite Hd. lia.
      * eapply inv_after; [eapply extends_mono; [|exact Hx]; lia|exact Ha|].
        apply main_search_inv; [lia|apply IH; lia|exact Hnone1].
    + eapply inv_mono; [|exact Hp]. lia.
Qed.

(** Every call of [negamax] keeps the invariant, and reads the clock at
    least once. *)
Lemma negamax_inv (stop : Q) (ep : option (Params E)) (depth : nat)
    (rules : RulesE) (alpha beta : Score) (player : Z) (st : State) :
  inv stop (Z.of_nat depth) st (negamax E depth rules alpha beta player stop ep st).
Proof.
  revert rules alpha beta player st.
  induction depth as [depth IH] using (well_founded_induction lt_wf).
  intros rules alpha beta player st.
  destruct (key_of_range rules player depth) as [Hh Hd].
  assert (Hin : extends (Z.of_nat depth) st (entered E st)) by apply extends_entered.
  assert (Hcount : nodes_visited (entered E st) - nodes_visited st
                   = Z.of_nat (clock (entered E st)) - Z.of_nat (clock st))
    by (simpl; lia).
  rewrite negamax_eq.
  destruct (timed_out stop (time_at E (clock st))) eqn:Ht.
  - split.
    + split; [reflexivity|]. split; [now left|]. split; [reflexivity|].
      split; [reflexivity|simpl; lia].
    + simpl. split; [lia|]. split; [lia|exact Ht].
  - destruct (ttable st !! key_of E rules player depth) as [cached|] eqn:Hc.
    + split; [exact Hin|exact Hcount].
    + assert (Hnone : ttable (entered E st) !! key_of E rules player depth = None)
        by exact Hc.
      assert (Hstore : forall w,
                inv stop (Z.of_nat depth) st
                    (Returned w (store (key_of E rules player depth) w (entered E st)))).
      { intros w. eapply inv_stored with (v := w);
          [split; [exact Hin|exact Hcount]|exact Hnone|exact Hh|rewrite Hd; lia]. }
      destruct (check_win_by_distance_or_capture E (board rules) player);
        [apply Hstore|].
      destruct (check_win_by_distance_or_capture E (board rules) (3 - player));
        [apply Hstore|].
      eapply inv_after; [exact Hin|exact Hcount|].
      apply expand_inv; [|exact Hnone].
      intros d' Hd' child a b p s. now apply IH.
Qed.

Lemma negamax_reads_clock (stop : Q) (ep : option (Params E)) (depth : nat)
    (rules : RulesE) (alpha beta : Score) (player : Z) (st : State) :
  (clock st < clock (final_state
                       (negamax E depth rules alpha beta player stop ep st)))%nat.
Proof.
  pose proof (negamax_inv stop ep depth rules alpha beta player st) as [_ Ha].
  destruct (negamax _ _ _ _ _ _ _ _ _) as [v st'|st'] eqn:Hn; simpl in *; [|lia].
  rewrite negamax_eq in Hn.
  destruct (timed_out _ _); [discriminate|].
  destruct (ttable st !! _) eqn:Hc.
  - injection Hn as _ <-. simpl. lia.
  - destruct (check_win_by_distance_or_capture E (board rules) player);
      [injection Hn as _ <-; simpl; lia|].
    destruct (check_win_by_distance_or_capture E (board rules) (3 - player));
      [injection Hn as _ <-; simpl; lia|].
    pose proof (expand_inv stop ep depth
                  (fun d' _ child a b p s => negamax_inv stop ep d' child a b p s)
                  rules alpha beta player (entered E st) Hc) as [Hx _].
    rewrite Hn in Hx. destruct Hx as (_ & _ & _ & _ & Hcl). simpl in Hcl. lia.
Qed.

(** ** Finite values *)

Lemma neg_finite (v : Score) : finite v -> finite (Score.neg v).
Proof. intros [z ->]. now exists (- z). Qed.

Lemma neg_not_PosInf (a : Score) : a <> NegInf -> Score.neg a <> PosInf.
Proof. now destruct a. Qed.

Lemma neg_not_NegInf (a : Score) : a <> PosInf -> Score.neg a <> NegInf.
Proof. now destruct a. Qed.

Lemma finite_not_PosInf (a : Score) : finite a -> a <> PosInf.
Proof. now intros [z ->]. Qed.

Lemma max_finite (a b : Score) :
  a <> PosInf -> finite b -> finite (Score.max a b).
Proof.
  intros Ha [z ->]. unfold Score.max, Score.ltb, Score.leb.
  destruct a as [|x|]; [now exists z| |congruence].
  destruct (z <=? x); [now exists x|now exists z].
Qed.

Lemma max_not_PosInf (a b : Score) :
  a <> PosInf -> b <> PosInf -> Score.max a b <> PosInf.
Proof. intros Ha Hb. unfold Score.max. now destruct (Score.ltb a b). Qed.

Lemma cutoff_finite (beta v : Score) :
  beta <> NegInf -> finite v -> Score.leb beta v = true -> finite beta.
Proof.
  intros Hb [z ->]. unfold Score.leb.
  destruct beta as [|x|]; [congruence|now exists x|discriminate].
Qed.

Lemma finite_cache_store (key : Z * Z) (v : Score) (st : State) :
  finite_cache st -> finite v -> finite_cache (store key v st).
Proof.
  intros Hc Hv key' v' H. simpl in H. apply lookup_insert_Some in H.
  destruct H as [[_ <-]|[_ H]]; [exact Hv|exact (Hc _ _ H)].
Qed.

(** A result that is an integer over a cache of integers. *)
Local Abbreviation finite_result o :=
  (match o with
   | Returned v st' => finite v /\ finite_cache st'
   | Raised st' => finite_cache st'
   end).

Lemma search_moves_finite
    (rec : RulesE -> Score -> Score -> State -> Outcome Score) :
  (forall child a b s,
     a <> PosInf -> b <> NegInf -> finite_cache s -> finite_result (rec child a b s)) ->
  forall (rules : RulesE) (player : Z) (beta : Score),
    beta <> NegInf ->
    forall (moves : list Move) (alpha best : Score) (st : State),
      alpha <> PosInf -> best <> PosInf -> finite_cache st ->
      moves <> [] \/ finite best ->
      finite_result (search_moves E rec rules player beta moves alpha best st).
Proof.
  intros Hrec rules player beta Hbeta moves.
  induction moves as [|mv rest IH]; intros alpha best st Ha Hb Hc Hstart;
    cbn [search_moves].
  - split; [|exact Hc]. now destruct Hstart.
  - pose proof (Hrec (set_current_player (make_move E rules mv) (3 - player))
                     (Score.neg beta) (Score.neg alpha) st
                     (neg_not_PosInf _ Hbeta) (neg_not_NegInf _ Ha) Hc) as H.
    destruct (rec _ _ _ st) as [v st1|st1]; [|exact H].
    destruct H as [Hv Hc1].
    assert (Hbest : finite (Score.max best (Score.neg v)))
      by (apply max_finite; [exact Hb|now apply neg_finite]).
    destruct (_ || _); [now split|].
    apply IH; [|now apply finite_not_PosInf|exact Hc1|now right].
    apply max_not_PosInf; [exact Ha|now apply finite_not_PosInf].
Qed.

Lemma ordered_moves_nonempty (rules : RulesE) (moves : list Move) :
  moves <> [] -> ordered_moves E rules moves <> [].
Proof.
  destruct moves as [|mv moves]; [easy|]. intros _ Hnil.
  assert (Hin : In mv (ordered_moves E rules (mv :: moves)))
    by (apply order_moves_fast_In; now left).
  now rewrite Hnil in Hin.
Qed.

Lemma main_search_finite (ep : option (Params E)) (stop : Q) (d1 : nat)
    (rules : RulesE) (alpha beta : Score) (player : Z) (key : Z * Z) (st : State) :
  (forall child a b p s,
     a <> PosInf -> b <> NegInf -> finite_cache s ->
     finite_result (negamax E d1 child a b p stop ep s)) ->
  get_legal_moves E rules player <> [] ->
  alpha <> PosInf -> beta <> NegInf -> finite_cache st ->
  finite_result (main_search E d1 rules alpha beta player stop ep key st).
Proof.
  intros Hrec Hmoves Ha Hb Hc. unfold main_search.
  pose proof (search_moves_finite
                (fun child a b s => negamax E d1 child a b (3 - player) stop ep s)
                (fun child a b s => Hrec child a b (3 - player) s)
                rules player beta Hb
                (ordered_moves E rules (get_legal_moves E rules player))
                alpha NegInf st Ha ltac:(discriminate) Hc
                (or_introl (ordered_moves_nonempty rules _ Hmoves))) as H.
  destruct (search_moves _ _ _ _ _ _ _ _ _) as [best st1|st1]; [|exact H].
  destruct H as [Hv Hc1]. split; [exact Hv|now apply finite_cache_store].
Qed.

(** ** What a returned value leaves in the cache *)

Lemma negamax_result_cached (ep : option (Params E)) (stop : Q) (depth : nat)
    (rules : RulesE) (alpha beta : Score) (player : Z) (st st' : State) (v : Score) :
  negamax E depth rules alpha beta player stop ep st = Returned v st' ->
  ttable st' !! key_of E rules player depth = Some v.
Proof.
  rewrite negamax_eq.
  destruct (timed_out _ _); [discriminate|].
  destruct (ttable st !! key_of E rules player depth) as [cached|] eqn:Hlook.
  { intros [= <- <-]. exact Hlook. }
  assert (Hstore : forall w st1,
            Returned w (store (key_of E rules player depth) w st1) = Returned v st' ->
            ttable st' !! key_of E rules player depth = Some v).
  { intros w st1 [= <- <-]. simpl. apply lookup_insert_eq. }
  destruct (check_win_by_distance_or_capture E (board rules) player);
    [apply Hstore|].
  destruct (check_win_by_distance_or_capture E (board rules) (3 - player));
    [apply Hstore|].
  assert (Hmain : forall d1 st1,
            main_search E d1 rules alpha beta player stop ep
                        (key_of E rules player depth) st1 = Returned v st' ->
            ttable st' !! key_of E rules player depth = Some v).
  { intros d1 st1. unfold main_search.
    destruct (search_moves _ _ _ _ _ _ _ _ _) as [best st2|st2]; [|discriminate].
    apply Hstore. }
  unfold expand. destruct depth as [|d1]; [apply Hstore|].
  destruct (get_legal_moves E rules player); [apply Hstore|].
  destruct d1 as [|[|d]]; [apply Hmain|apply Hmain|].
  destruct (negamax E (S d) _ _ _ _ _ _ _) as [w st1|st1]; [|discriminate].
  destruct (Score.leb beta (Score.neg w)); [apply Hstore|apply Hmain].
Qed.

(** ** The search as its callers see it *)

(** X1. A call of [negamax], returned or raised, leaves every cache entry
    it found as it was: nothing is overwritten, nothing removed.  What it
    adds lies under keys [(h, d)] with [h] between 0 and 9999 and [d]
    between 0 and the depth of the call. *)
Theorem negamax_cache_write_once (depth : nat) (rules : RulesE)
    (alpha beta : Score) (player : Z) (stop_time : Q)
    (eval_params : option (Params E)) (st : State) :
  ttable st ⊆
    ttable (final_state
              (negamax E depth rules alpha beta player stop_time eval_params st)) /\
  forall key v,
    ttable (final_state
              (negamax E depth rules alpha beta player stop_time eval_params st))
      !! key = Some v ->
    ttable st !! key = Some v \/
    (0 <= fst key < 10000 /\ 0 <= snd key <= Z.of_nat depth).
Proof.
  destruct (negamax_inv stop_time eval_params depth rules alpha beta player st)
    as [(Hsub & Hnew & _) _].
  split; [exact Hsub|exact Hnew].
Qed.

(** X2. [negamax] counts one node for every reading of the clock that is
    before the deadline: when it returns, [nodes_visited] has grown by the
    number of readings made, when it raises by one less, and the last
    reading made was at or past the deadline, which is the only cause of
    the exception.  Every call reads the clock at least once and leaves
    [time_start] and [time_budget] alone.  At or past the deadline is the
    test of the code, [time.time() >= stop_time - TIME_BUFFER], in the
    arithmetic of floats. *)
Theorem negamax_counts_readings (depth : nat) (rules : RulesE)
    (alpha beta : Score) (player : Z) (stop_time : Q)
    (eval_params : option (Params E)) (st : State) :
  match negamax E depth rules alpha beta player stop_time eval_params st with
  | Returned _ st' =>
      (clock st < clock st')%nat /\
      nodes_visited st' = nodes_visited st + Z.of_nat (clock st' - clock st) /\
      time_start st' = time_start st /\ time_budget st' = time_budget st
  | Raised st' =>
      (clock st < clock st')%nat /\
      nodes_visited st' = nodes_visited st + Z.of_nat (clock st' - clock st) - 1 /\
      timed_out stop_time (time_at E (pred (clock st'))) = true /\
      time_start st' = time_start st /\ time_budget st' = time_budget st
  end.
Proof.
  pose proof (negamax_inv stop_time eval_params depth rules alpha beta player st)
    as [(_ & _ & Hs & Hb & _) Ha].
  pose proof (negamax_reads_clock stop_time eval_params depth rules alpha beta
                player st) as Hc.
  destruct (negamax _ _ _ _ _ _ _ _ _) as [v st'|st']; simpl in *.
  - split; [exact Hc|]. split; [lia|]. split; assumption.
  - destruct Ha as (Ha & _ & Ht). split; [exact Hc|]. split; [lia|].
    split; [exact Ht|]. split; assumption.
Qed.

(** X3. If no reading of the clock from the current one on is at or past
    the deadline, that is, passes the test
    [time.time() >= stop_time - TIME_BUFFER] in the arithmetic of floats,
    [negamax] returns a value: it raises nothing. *)
Theorem negamax_returns_in_time (depth : nat) (rules : RulesE)
    (alpha beta : Score) (player : Z) (stop_time : Q)
    (eval_params : option (Params E)) (st : State) :
  (forall k, (clock st <= k)%nat -> timed_out stop_time (time_at E k) = false) ->
  exists v st',
    negamax E depth rules alpha beta player stop_time eval_params st
    = Returned v st'.
Proof.
  intros Hfar.
  pose proof (negamax_inv stop_time eval_params depth rules alpha beta player st)
    as [_ Ha].
  destruct (negamax _ _ _ _ _ _ _ _ _) as [v st'|st']; [eauto|].
  destruct Ha as (_ & Hlt & Ht). rewrite Hfar in Ht by lia. discriminate.
Qed.

(** X4. The value a call returned is in the cache under the key of its
    node, and the cache is read before anything else is looked at: a later
    call at the same depth whose position has the same hash modulo 10000,
    made on the globals the first call left and before the deadline,
    returns the same value after one node, whatever its window, its
    parameters or its deadline. *)
Theorem cached_value_returned_again (depth : nat) (rules rules' : RulesE)
    (alpha beta alpha' beta' : Score) (player player' : Z)
    (stop_time stop_time' : Q) (eval_params eval_params' : option (Params E))
    (st st' : State) (v : Score) :
  negamax E depth rules alpha beta player stop_time eval_params st
  = Returned v st' ->
  py_hash E (to_fen E (board rules') player') mod 10000
  = py_hash E (to_fen E (board rules) player) mod 10000 ->
  timed_out stop_time' (time_at E (clock st')) = false ->
  negamax E depth rules' alpha' beta' player' stop_time' eval_params' st'
  = Returned v (entered E st') /\
  nodes_visited (entered E st') = nodes_visited st' + 1 /\
  ttable (entered E st') = ttable st'.
Proof.
  intros Hret Hkey Ht. split; [|split; reflexivity].
  apply negamax_cached; [exact Ht|].
  unfold key_of. rewrite Hkey.
  exact (negamax_result_cached _ _ _ _ _ _ _ _ _ _ Hret).
Qed.

(** X5. With a window whose lower bound is not plus infinity and whose
    upper bound is not minus infinity, over a cache that holds no infinite
    value, [negamax] returns a finite value, never one of the infinite
    floats it starts its maximum from, and leaves a cache that holds no
    infinite value. *)
Theorem negamax_returns_integers (depth : nat) (rules : RulesE)
    (alpha beta : Score) (player : Z) (stop_time : Q)
    (eval_params : option (Params E)) (st : State) :
  alpha <> PosInf -> beta <> NegInf -> finite_cache st ->
  match negamax E depth rules alpha beta player stop_time eval_params st with
  | Returned v st' => finite v /\ finite_cache st'
  | Raised st' => finite_cache st'
  end.
Proof.
  revert rules alpha beta player st.
  induction depth as [depth IH] using (well_founded_induction lt_wf).
  intros rules alpha beta player st Ha Hb Hc.
  rewrite negamax_eq.
  destruct (timed_out stop_time (time_at E (clock st))); [exact Hc|].
  destruct (ttable st !! key_of E rules player depth) as [cached|] eqn:Hlook;
    [split; [exact (Hc _ _ Hlook)|exact Hc]|].
  assert (Hstore : forall z st1, finite_cache st1 ->
            finite_result
              (Returned (Fin z) (store (key_of E rules player depth) (Fin z) st1))).
  { intros z st1 Hc1. split; [now exists z|].
    apply finite_cache_store; [exact Hc1|now exists z]. }
  destruct (check_win_by_distance_or_capture E (board rules) player);
    [now apply Hstore|].
  destruct (check_win_by_distance_or_capture E (board rules) (3 - player));
    [now apply Hstore|].
  assert (Hce : finite_cache (entered E st)) by exact Hc.
  unfold expand. destruct depth as [|d1]; [now apply Hstore|].
  destruct (get_legal_moves E rules player) as [|m ms] eqn:Hmoves;
    [now apply Hstore|].
  assert (Hne : get_legal_moves E rules player <> []) by now rewrite Hmoves.
  clear Hmoves.
  assert (Hmain : forall d1' st1, (d1' < S d1)%nat -> finite_cache st1 ->
            finite_result
              (main_search E d1' rules alpha beta player stop_time eval_params
                           (key_of E rules player (S d1)) st1)).
  { intros d1' st1 Hlt Hc1. apply main_search_finite; auto.
    intros child a b p s Ha' Hb' Hc'. now apply IH. }
  destruct d1 as [|[|d]].
  - apply Hmain; [lia|exact Hce].
  - apply Hmain; [lia|exact Hce].
  - pose proof (IH (S d) ltac:(lia) (set_current_player rules (3 - player))
                   (Score.neg beta) (Score.neg alpha) player (entered E st)
                   (neg_not_PosInf _ Hb) (neg_not_NegInf _ Ha) Hce) as Hp.
    destruct (negamax E (S d) _ _ _ _ _ _ _) as [v st1|st1]; [|exact Hp].
    destruct Hp as [Hv Hc1].
    destruct (Score.leb beta (Score.neg v)) eqn:Hcut.
    + assert (Hfb : finite beta)
        by (eapply cutoff_finite; [exact Hb|apply neg_finite; exact Hv|exact Hcut]).
      split; [exact Hfb|now apply finite_cache_store].
    + apply Hmain; [lia|exact Hc1].
Qed.

End SearchInvariants.

(* ===================================================================== *)
(** * The driver: when it finds no move, and what it leaves *)
(* ===================================================================== *)

Section DriverInvariants.

Variable E : Env.

Local Abbreviation RulesE := (Rules (Board E)).

(** ** A move once held is never given up *)

Lemma root_loop_keeps_some (depth : nat) (rules : RulesE) (stop : Q)
    (ep : option (Params E)) (root_moves : list Move)
    (alpha beta local_best : Score) (m : Move) (st : State) :
  exists m',
    best_of (root_loop E depth rules stop ep root_moves alpha beta local_best
                       (Some m) st) = Some m'.
Proof.
  destruct (root_loop_held E depth rules stop ep root_moves alpha beta local_best
              (Some m) st) as [H|(m' & H & _)]; eauto.
Qed.

Lemma deepen_keeps_some (rules : RulesE) (stop : Q) (ep : option (Params E))
    (root_moves : list Move) (depths : list nat) (m : Move) (st : State) :
  exists m', fst (deepen E rules stop ep root_moves depths (Some m) st) = Some m'.
Proof.
  destruct (deepen_held E rules stop ep root_moves depths (Some m) st)
    as [H|(m' & H & _)]; eauto.
Qed.

(** A node of depth 0 over an empty cache returns an integer. *)
Lemma negamax_leaf_value (rules : RulesE) (alpha beta : Score) (player : Z)
    (stop : Q) (ep : option (Params E)) (st : State) :
  ttable st = ∅ ->
  timed_out stop (time_at E (clock st)) = false ->
  exists z st', negamax E 0 rules alpha beta player stop ep st = Returned (Fin z) st'.
Proof.
  intros Hempty Ht. rewrite negamax_eq, Ht, Hempty, lookup_empty.
  destruct (check_win_by_distance_or_capture E (board rules) player); [eauto|].
  destruct (check_win_by_distance_or_capture E (board rules) (3 - player)); [eauto|].
  unfold expand. eauto.
Qed.

(** The first pass of the deepening loop on a list of root moves that is
    not empty, over an empty cache: no move if the first or the second
    reading of the clock is at or past the deadline, a move otherwise. *)
Lemma deepen_first_pass (rules : RulesE) (stop : Q) (ep : option (Params E))
    (mv : Move) (rest : list Move) (deeper : list nat) (st : State) :
  ttable st = ∅ ->
  (fst (deepen E rules stop ep (mv :: rest) (1%nat :: deeper) None st) = None <->
   timed_out stop (time_at E (clock st)) = true \/
   timed_out stop (time_at E (S (clock st))) = true).
Proof.
  intros Hempty. cbn [deepen root_loop]. unfold tick. cbn [Nat.sub].
  destruct (timed_out stop (time_at E (clock st))) eqn:Ht1.
  { simpl. tauto. }
  set (st1 := mkState (nodes_visited st) (ttable st) (time_start st)
                      (time_budget st) (S (clock st))).
  destruct (timed_out stop (time_at E (S (clock st)))) eqn:Ht2.
  { rewrite negamax_timeout by exact Ht2. simpl. tauto. }
  destruct (negamax_leaf_value
              (set_current_player (make_move E rules mv) (3 - current_player rules))
              (Score.neg PosInf) (Score.neg NegInf) (3 - current_player rules)
              stop ep st1 Hempty Ht2) as (z & st2 & ->).
  change (Score.ltb NegInf (Score.neg (Fin z))) with true. cbn beta iota zeta.
  split; [|intros [H|H]; discriminate].
  destruct (Score.leb (Fin WIN_SCORE) (Score.neg (Fin z))); [discriminate|].
  destruct (root_loop_keeps_some 1 rules stop ep rest
              (Score.max NegInf (Score.neg (Fin z))) PosInf (Score.neg (Fin z))
              mv st2) as [m' Hm'].
  destruct (root_loop _ _ _ _ _ _ _ _ _ _ _) as [bm s|bm s|bm s];
    simpl in Hm'; subst bm; [|discriminate|discriminate].
  destruct (deepen_keeps_some rules stop ep (mv :: rest) deeper m' s) as [m'' ->].
  discriminate.
Qed.

(** ** What the driver leaves *)

(** From [st] to [st'] the globals have grown and the node counter has
    risen by no more than the clock has. *)
Local Abbreviation within d st st' :=
  (extends d st st' /\
   0 <= nodes_visited st' - nodes_visited st
     <= Z.of_nat (clock st') - Z.of_nat (clock st)).

Lemma within_refl (d : Z) (st : State) : within d st st.
Proof. split; [apply extends_refl|lia]. Qed.

Lemma within_trans (d : Z) (st1 st2 st3 : State) :
  within d st1 st2 -> within d st2 st3 -> within d st1 st3.
Proof.
  intros [Hx1 Hn1] [Hx2 Hn2]. split; [eapply extends_trans; eassumption|lia].
Qed.

Lemma within_mono (d d' : Z) (st st' : State) :
  d <= d' -> within d st st' -> within d' st st'.
Proof. intros Hd [Hx Hn]. split; [eapply extends_mono; eassumption|exact Hn]. Qed.

Lemma within_tick (d : Z) (st : State) : within d st (snd (tick E st)).
Proof.
  split; [|simpl; lia].
  split; [reflexivity|]. split; [now left|]. split; [reflexivity|].
  split; [reflexivity|simpl; lia].
Qed.

Lemma negamax_within (depth : nat) (rules : RulesE) (alpha beta : Score)
    (player : Z) (stop : Q) (ep : option (Params E)) (st : State) :
  within (Z.of_nat depth) st
         (final_state (negamax E depth rules alpha beta player stop ep st)).
Proof.
  destruct (negamax_inv E stop ep depth rules alpha beta player st) as [Hx Ha].
  split; [exact Hx|].
  destruct Hx as (_ & _ & _ & _ & Hc).
  destruct (negamax _ _ _ _ _ _ _ _ _) as [v st'|st']; simpl in *; lia.
Qed.

Lemma root_loop_within (depth : nat) (rules : RulesE) (stop : Q)
    (ep : option (Params E)) (root_moves : list Move)
    (alpha beta local_best : Score) (best_mv : option Move) (st : State) :
  within (Z.of_nat (depth - 1)) st
         (state_of (root_loop E depth rules stop ep root_moves alpha beta
                              local_best best_mv st)).
Proof.
  revert alpha local_best best_mv st.
  induction root_moves as [|mv rest IH]; intros alpha local_best best_mv st;
    cbn [root_loop].
  - apply within_refl.
  - pose proof (within_tick (Z.of_nat (depth - 1)) st) as Htick.
    unfold tick in *. cbn [snd] in Htick.
    destruct (timed_out _ _); [exact Htick|].
    match goal with
    | |- context [negamax E ?d ?r ?a ?b ?p ?s ?e ?t] =>
        pose proof (negamax_within d r a b p s e t) as Hn;
        destruct (negamax E d r a b p s e t) as [v st'|st']
    end; cbn [final_state] in Hn.
    + assert (Hhere : within (Z.of_nat (depth - 1)) st st')
        by (eapply within_trans; [exact Htick|exact Hn]).
      destruct (Score.ltb local_best (Score.neg v)); cbn beta iota zeta;
        (destruct (Score.leb (Fin WIN_SCORE) _); [exact Hhere|];
         eapply within_trans; [exact Hhere|apply IH]).
    + eapply within_trans; [exact Htick|exact Hn].
Qed.

Lemma deepen_within (d : Z) (rules : RulesE) (stop : Q) (ep : option (Params E))
    (root_moves : list Move) (depths : list nat) (best_mv : option Move)
    (st : State) :
  (forall depth, In depth depths -> Z.of_nat (depth - 1) <= d) ->
  within d st (snd (deepen E rules stop ep root_moves depths best_mv st)).
Proof.
  revert best_mv st. induction depths as [|depth deeper IH];
    intros best_mv st Hd; cbn [deepen].
  - apply within_refl.
  - pose proof (root_loop_within depth rules stop ep root_moves NegInf PosInf
                  NegInf best_mv st) as H.
    apply (within_mono _ d) in H; [|apply Hd; now left].
    destruct (root_loop _ _ _ _ _ _ _ _ _ _ _) as [bm s|bm s|bm s];
      cbn [state_of snd] in *; [|exact H|exact H].
    eapply within_trans; [exact H|]. apply IH. intros k Hk. apply Hd. now right.
Qed.

Lemma iterative_deepening_within (rules : RulesE) (budget : Q)
    (ep : option (Params E)) (st : State) :
  within (Z.of_nat MAX_DEPTH - 1) (start_search E budget st)
         (snd (iterative_deepening E rules budget ep st)).
Proof.
  unfold iterative_deepening. apply deepen_within.
  intros depth Hin. unfold MAX_DEPTH in *. simpl in Hin. lia.
Qed.

(** The keys a search can write. *)
Lemma cache_keys (rules : RulesE) (budget : Q) (ep : option (Params E))
    (st : State) (key : Z * Z) (v : Score) :
  ttable (snd (iterative_deepening E rules budget ep st)) !! key = Some v ->
  0 <= fst key < 10000 /\ 0 <= snd key <= Z.of_nat MAX_DEPTH - 1.
Proof.
  intros H.
  destruct (iterative_deepening_within rules budget ep st) as [(_ & Hnew & _) _].
  destruct (Hnew _ _ H) as [H'|H']; [|exact H'].
  simpl in H'. rewrite lookup_empty in H'. discriminate.
Qed.

(** ** The driver as its callers see it *)

(** X6. On a position with a legal move, [choose_best_move] returns
    [None] in one case only: no move of the quick check wins at once, and
    the first or the second reading of the clock after the start of the
    search, the one before the first root move or the one on entering its
    node, already passes the test of the deadline,
    [time.time() >= stop_time - TIME_BUFFER] with [stop_time] the float
    sum of the reading at the start and the budget.  Otherwise a move is
    returned. *)
Theorem no_move_only_out_of_time (fen_str : string)
    (eval_params : option (Params E)) (st : State) (root : Board E) (player : Z) :
  parse_fen (parse_rows E) fen_str = Some (root, player) ->
  get_legal_moves E (mkRules root player) player <> [] ->
  exists budget,
    Phase.allocate_time fen_str = Some budget /\
    (chosen (choose_best_move E fen_str eval_params st) = Some None <->
     quick_win E (mkRules root player) player
       (PyStr.slice 0 3
          (ordered_moves E (mkRules root player)
             (get_legal_moves E (mkRules root player) player))) = None /\
     (timed_out (Float.add (time_at E (clock st)) budget)
                (time_at E (S (clock st))) = true \/
      timed_out (Float.add (time_at E (clock st)) budget)
                (time_at E (S (S (clock st)))) = true)).
Proof.
  intros Hparse Hmoves.
  destruct (parse_fen_budget E _ _ Hparse) as [budget Hbudget].
  exists budget. split; [exact Hbudget|].
  unfold choose_best_move. rewrite Hparse, Hbudget.
  destruct (quick_win E _ player _) as [mv|] eqn:Hq.
  { simpl. split; [discriminate|intros [H _]; discriminate]. }
  pose proof (ordered_moves_nonempty E (mkRules root player) _ Hmoves) as Hne.
  unfold iterative_deepening. cbn [current_player].
  destruct (ordered_moves E (mkRules root player)
              (get_legal_moves E (mkRules root player) player))
    as [|mv rest] eqn:Hord; [easy|].
  pose proof (deepen_first_pass (mkRules root player)
                (Float.add (time_start (start_search E budget st)) budget)
                (Some (params_or_default E (Some (params_or_default E eval_params))))
                mv rest (seq 2 3) (start_search E budget st) eq_refl) as Hfirst.
  change (seq 1 MAX_DEPTH) with (1%nat :: seq 2 3).
  destruct (deepen E _ _ _ _ _ None _) as [bm st'] eqn:Hdeep.
  cbn [fst chosen] in *. cbn [start_search time_start clock] in Hfirst.
  split.
  - intros [= ->]. split; [reflexivity|]. now apply Hfirst.
  - intros [_ H]. f_equal. now apply Hfirst.
Qed.

(** X7. When [iterative_deepening] ends, [time_start] is the reading of the
    clock at its start and [time_budget] the budget it was given; the node
    counter, reset at the start, is not negative and below the number of
    readings of the clock made since; and every key of the cache is a pair
    [(h, d)] with [h] between 0 and 9999 and [d] between 0 and
    [MAX_DEPTH - 1]. *)
Theorem iterative_deepening_leaves (rules : RulesE) (budget : Q)
    (eval_params : option (Params E)) (st : State) :
  time_start (snd (iterative_deepening E rules budget eval_params st))
  = time_at E (clock st) /\
  time_budget (snd (iterative_deepening E rules budget eval_params st)) = budget /\
  (clock st < clock (snd (iterative_deepening E rules budget eval_params st)))%nat /\
  0 <= nodes_visited (snd (iterative_deepening E rules budget eval_params st))
    <= Z.of_nat (clock (snd (iterative_deepening E rules budget eval_params st))
                 - clock st) - 1 /\
  forall key v,
    ttable (snd (iterative_deepening E rules budget eval_params st)) !! key = Some v ->
    0 <= fst key < 10000 /\ 0 <= snd key <= Z.of_nat MAX_DEPTH - 1.
Proof.
  pose proof (iterative_deepening_within rules budget eval_params st)
    as [(_ & _ & Hs & Hb & Hc) Hn].
  pose proof (cache_keys rules budget eval_params st) as Hkeys.
  set (st' := snd (iterative_deepening E rules budget eval_params st)) in *.
  simpl in Hs, Hb, Hc, Hn.
  split; [exact Hs|]. split; [exact Hb|]. split; [lia|]. split; [lia|exact Hkeys].
Qed.

(** X8. The cache never holds more than 10000 entries for each of the
    [MAX_DEPTH] depths a search stores at: 40000 in all. *)
Theorem cache_size_bounded (rules : RulesE) (budget : Q)
    (eval_params : option (Params E)) (st : State) :
  Z.of_nat (size (ttable (snd (iterative_deepening E rules budget eval_params st))))
  <= 10000 * Z.of_nat MAX_DEPTH.
Proof.
  pose proof (cache_keys rules budget eval_params st) as Hkeys.
  set (m := ttable (snd (iterative_deepening E rules budget eval_params st))) in *.
  assert (H : (size m
               <= length (list_prod (seqZ 0 10000) (seqZ 0 (Z.of_nat MAX_DEPTH))))%nat).
  { rewrite <- (length_map_to_list m), <- (length_fmap fst).
    apply NoDup_incl_length.
    - apply NoDup_ListNoDup, NoDup_fst_map_to_list.
    - intros key Hin. apply in_map_iff in Hin as ([k v] & <- & Hin).
      apply list_elem_of_In, elem_of_map_to_list in Hin.
      destruct (Hkeys _ _ Hin) as [Hh Hd]. destruct k as [h d].
      cbn [fst snd] in *.
      apply in_prod; apply list_elem_of_In, elem_of_seqZ; lia. }
  rewrite length_prod, !length_seqZ in H. unfold MAX_DEPTH in *. lia.
Qed.

(** ** How a pass ends *)

Lemma leb_trans (a b c : Score) :
  Score.leb a b = true -> Score.leb b c = true -> Score.leb a c = true.
Proof.
  unfold Score.leb. destruct a, b, c; try easy. intros H1 H2.
  apply Z.leb_le in H1. apply Z.leb_le in H2. apply Z.leb_le. lia.
Qed.

Lemma not_ltb_leb (a b : Score) : Score.ltb a b = false -> Score.leb b a = true.
Proof. unfold Score.ltb. now destruct (Score.leb b a). Qed.

(** X20. A pass over the root moves that starts from a best score below
    [WIN_SCORE], as every pass of the driver does from minus infinity,
    ends in one of three ways.  If it completes, every root move was
    scored, in order.  If it ends on a win, the move it holds is the last
    one scored, its score is at least [WIN_SCORE], and no move scored
    before it reached that.  If the deadline ends it, at least one root
    move was left unscored. *)
Theorem pass_endings (depth : nat) (rules : RulesE) (stop_time : Q)
    (eval_params : option (Params E)) (root_moves : list Move)
    (alpha beta local_best : Score) (best_mv : option Move) (st : State) :
  Score.leb (Fin WIN_SCORE) local_best = false ->
  match root_loop E depth rules stop_time eval_params root_moves
                  alpha beta local_best best_mv st with
  | RootDone _ _ =>
      map fst (scored E depth rules stop_time eval_params root_moves
                      alpha beta local_best st)
      = root_moves
  | RootWin bm _ =>
      exists earlier mv s,
        scored E depth rules stop_time eval_params root_moves
               alpha beta local_best st
        = (earlier ++ [(mv, s)])%list /\
        bm = Some mv /\
        Score.leb (Fin WIN_SCORE) s = true /\
        (length earlier < length root_moves)%nat /\
        forall x, In x earlier -> Score.leb (Fin WIN_SCORE) (snd x) = false
  | RootTimeout _ _ =>
      (length (scored E depth rules stop_time eval_params root_moves
                      alpha beta local_best st)
       < length root_moves)%nat
  end.
Proof.
  revert alpha local_best best_mv st.
  induction root_moves as [|mv rest IH]; intros alpha local_best best_mv st Hlb;
    cbn [root_loop scored]; [reflexivity|].
  unfold tick. cbn [snd].
  destruct (timed_out stop_time (time_at E (clock st))); [simpl; lia|].
  destruct (negamax E (depth - 1) _ _ _ _ _ _ _) as [v st'|st']; [|simpl; lia].
  destruct (Score.ltb local_best (Score.neg v)) eqn:Hlt; cbn beta iota zeta.
  - destruct (Score.leb (Fin WIN_SCORE) (Score.neg v)) eqn:Hwin.
    + exists [], mv, (Score.neg v). cbn. repeat split; auto; try lia.
    + specialize (IH (Score.max alpha (Score.neg v)) (Score.neg v) (Some mv) st' Hwin).
      destruct (root_loop _ _ _ _ _ _ _ _ _ _ _) as [bm s|bm s|bm s].
      * cbn. now rewrite IH.
      * destruct IH as (earlier & m & sc & Heq & Hbm & Hsc & Hlen & Hearlier).
        exists ((mv, Score.neg v) :: earlier), m, sc. rewrite Heq.
        repeat split; auto; [cbn; lia|].
        intros x [<-|Hx]; [exact Hwin|now apply Hearlier].
      * cbn. lia.
  - rewrite Hlb.
    assert (Hscore : Score.leb (Fin WIN_SCORE) (Score.neg v) = false).
    { destruct (Score.leb (Fin WIN_SCORE) (Score.neg v)) eqn:Hw; [|reflexivity].
      rewrite <- Hlb. symmetry.
      eapply leb_trans; [exact Hw|now apply not_ltb_leb]. }
    specialize (IH (Score.max alpha (Score.neg v)) local_best best_mv st' Hlb).
    destruct (root_loop _ _ _ _ _ _ _ _ _ _ _) as [bm s|bm s|bm s].
    + cbn. now rewrite IH.
    + destruct IH as (earlier & m & sc & Heq & Hbm & Hsc & Hlen & Hearlier).
      exists ((mv, Score.neg v) :: earlier), m, sc. rewrite Heq.
      repeat split; auto; [cbn; lia|].
      intros x [<-|Hx]; [exact Hscore|now apply Hearlier].
    + cbn. lia.
Qed.

End DriverInvariants.

(* ===================================================================== *)
(** * More on the move orderer *)
(* ===================================================================== *)

Section MoveOrdererAgain.

Context {B : Type}.
Variable top_piece_type : B -> Z -> Z -> option PieceType.
Variable stack_owner : B -> Z -> Z -> option Z.
Variable rules : Rules B.

Lemma filter_same {A} (f : A -> bool) (l : list A) :
  List.filter f (List.filter f l) = List.filter f l.
Proof.
  induction l as [|x l IH]; [reflexivity|]. cbn [List.filter].
  destruct (f x) eqn:Hx; [|exact IH]. cbn [List.filter]. now rewrite Hx, IH.
Qed.

Lemma filter_other {A} (f g : A -> bool) (l : list A) :
  (forall x, g x = true -> f x = false) ->
  List.filter f (List.filter g l) = [].
Proof.
  intros Hfg. induction l as [|x l IH]; [reflexivity|]. cbn [List.filter].
  destruct (g x) eqn:Hx; [|exact IH]. cbn [List.filter]. now rewrite (Hfg x Hx).
Qed.

(** X9. Ordering an ordered list changes nothing, and ordering neither
    drops nor adds a move: the list keeps its length. *)
Theorem order_moves_fast_idempotent (moves : list Move) :
  order_moves_fast top_piece_type stack_owner rules
    (order_moves_fast top_piece_type stack_owner rules moves)
  = order_moves_fast top_piece_type stack_owner rules moves /\
  length (order_moves_fast top_piece_type stack_owner rules moves) = length moves.
Proof.
  split; [|apply Permutation_length, order_moves_fast_perm].
  rewrite !order_moves_fast_filters, !List.filter_app.
  rewrite !filter_same.
  rewrite !filter_other;
    try (intros mv; destruct (is_guardian_move top_piece_type rules mv),
                             (is_capture_move stack_owner rules mv); easy).
  now rewrite !app_nil_r.
Qed.

End MoveOrdererAgain.

(* ===================================================================== *)
(** * More on the plain minimax engine (Min_max.py) *)
(* ===================================================================== *)

Section MinMaxMore.

Variable E : Env.

Local Abbreviation RulesE := (Rules (Board E)).

(** ** The orderer keeps the moves *)

Lemma insert_desc_perm (x : Z * Move) (l : list (Z * Move)) :
  Permutation (MinMax.insert_desc x l) (x :: l).
Proof.
  induction l as [|y l IH]; simpl; [reflexivity|].
  destruct (fst y <=? fst x); [reflexivity|].
  rewrite IH. apply perm_swap.
Qed.

Lemma sort_desc_perm (l : list (Z * Move)) : Permutation (MinMax.sort_desc l) l.
Proof.
  induction l as [|x l IH]; [reflexivity|].
  change (MinMax.sort_desc (x :: l)) with (MinMax.insert_desc x (MinMax.sort_desc l)).
  rewrite insert_desc_perm. now constructor.
Qed.

Lemma order_moves_perm (rules : RulesE) (moves ordered : list Move) :
  MinMax.order_moves E rules moves = Some ordered -> Permutation ordered moves.
Proof.
  unfold MinMax.order_moves.
  destruct (MinMax.keys E rules moves) as [keyed|] eqn:Hkeys; [|discriminate].
  intros [= <-]. destruct (keys_spec E _ _ _ Hkeys) as [Hmoves _].
  rewrite <- Hmoves. apply Permutation_map, sort_desc_perm.
Qed.

(** The moves that win at once come first, in the order of the
    candidates. *)
Lemma order_moves_winners_first (rules : RulesE) (moves ordered : list Move) :
  MinMax.order_moves E rules moves = Some ordered ->
  exists others,
    ordered =
    (List.filter
       (fun mv => check_win_by_distance_or_capture E (board (make_move E rules mv))
                    (current_player rules)) moves ++ others)%list.
Proof.
  unfold MinMax.order_moves.
  destruct (MinMax.keys E rules moves) as [keyed|] eqn:Hkeys; [|discriminate].
  intros [= <-]. destruct (keys_spec E _ _ _ Hkeys) as [Hmoves Hprio].
  rewrite sort_desc_buckets
    by (intros y Hy; eapply priority_range, Hprio, Hy).
  rewrite map_app, (map_snd_bucket E rules) by exact Hprio.
  rewrite Hmoves. eexists. f_equal.
  apply List.filter_ext. intros mv. apply priority_3.
Qed.

Lemma find_filter {A} (p : A -> bool) (l : list A) (x : A) :
  List.find p l = Some x -> exists rest, List.filter p l = x :: rest.
Proof.
  induction l as [|y l IH]; simpl; [discriminate|].
  destruct (p y); [intros [= ->]; eauto|exact IH].
Qed.

(** ** Values are integers *)

Lemma minmax_moves_finite (rec : RulesE -> Z -> option (Score * Z))
    (rules : RulesE) (player : Z) :
  (forall r n v n', rec r n = Some (v, n') -> finite v) ->
  forall (moves : list Move) (best : Score) (n : Z) (v : Score) (n' : Z),
    best <> PosInf -> moves <> [] \/ finite best ->
    MinMax.minmax_moves E rec rules player moves best n = Some (v, n') ->
    finite v.
Proof.
  intros Hrec moves. induction moves as [|mv rest IH];
    intros best n v n' Hb Hstart; cbn [MinMax.minmax_moves].
  - intros [= <- _]. now destruct Hstart.
  - destruct (rec _ n) as [[w k]|] eqn:Hr; [|discriminate].
    apply Hrec in Hr.
    assert (Hbest : finite (if Score.ltb best (Score.neg w) then Score.neg w else best)).
    { apply (max_finite best (Score.neg w) Hb). now apply neg_finite. }
    destruct (Score.leb _ _); [now intros [= <- _]|].
    apply IH; [now apply finite_not_PosInf|now right].
Qed.

Lemma minmax_finite (depth : nat) (rules : RulesE) (player n : Z)
    (v : Score) (n' : Z) :
  MinMax.minmax E depth rules player n = Some (v, n') -> finite v.
Proof.
  revert rules player n v n'.
  assert (Hfin : forall (z k : Z) (v : Score) (n' : Z),
            Some (Fin z, k) = Some (v, n') -> finite v)
    by (intros z k v n' [= <- _]; now exists z).
  induction depth as [|d IH]; intros rules player n v n'; cbn [MinMax.minmax].
  - repeat (destruct (check_win_by_distance_or_capture E _ _); [apply Hfin|]).
    apply Hfin.
  - repeat (destruct (check_win_by_distance_or_capture E _ _); [apply Hfin|]).
    destruct (get_legal_moves E rules player) as [|m ms] eqn:Hmoves; [apply Hfin|].
    destruct (MinMax.order_moves E rules (m :: ms)) as [ordered|] eqn:Hord;
      [|discriminate].
    apply minmax_moves_finite; [intros r k w k'; apply IH|discriminate|].
    left. intros ->. apply order_moves_perm, Permutation_nil in Hord. discriminate.
Qed.

(** ** The moves the two loops of [choose_best_move] can return *)

Lemma win_trials_In (rules : RulesE) (player : Z) (moves : list Move) (n : Z)
    (mv : Move) :
  fst (MinMax.win_trials E rules player moves n) = Some mv -> In mv moves.
Proof.
  revert n. induction moves as [|m rest IH]; intros n; cbn [MinMax.win_trials];
    [discriminate|].
  destruct (check_win_by_distance_or_capture E _ _).
  - intros [= ->]. now left.
  - intros H. right. exact (IH _ H).
Qed.

Lemma root_trials_In (depth1 : nat) (rules : RulesE) (player : Z)
    (moves : list Move) (best_move : option Move) (best_score : Score) (n : Z)
    (mv : Move) (n' : Z) :
  MinMax.root_trials E depth1 rules player moves best_move best_score n
  = Some (Some mv, n') ->
  In mv moves \/ best_move = Some mv.
Proof.
  revert best_move best_score n.
  induction moves as [|m rest IH]; intros best_move best_score n;
    cbn [MinMax.root_trials].
  - intros [= -> _]. now right.
  - destruct (MinMax.minmax E depth1 _ _ _) as [[w k]|]; [|discriminate].
    destruct (Score.ltb best_score (Score.neg w)); cbn beta iota zeta;
      (destruct (Score.leb _ _);
       [intros [= -> _]
       |intros H; destruct (IH _ _ _ H) as [Hin|Heq];
        [left; now right|try (injection Heq as ->)]]);
      auto using in_eq.
Qed.

(** ** Where the pieces are *)

(** The rules engine generates moves from occupied squares only. *)
Hypothesis occupied_origin :
  forall (rules : RulesE) (player : Z) (mv : Move),
    In mv (get_legal_moves E rules player) ->
    get_top_piece_type E (board rules) (fst (fst (fst mv))) (snd (fst (fst mv)))
    <> None.

Lemma order_moves_defined (rules : RulesE) (player : Z) :
  exists ordered,
    MinMax.order_moves E rules (get_legal_moves E rules player) = Some ordered.
Proof.
  unfold MinMax.order_moves.
  destruct (MinMax.keys E rules _) as [keyed|] eqn:Hkeys; [eauto|].
  apply keys_None in Hkeys as (mv & Hin & Hp). exfalso.
  apply (occupied_origin rules player mv Hin).
  unfold MinMax.priority in Hp. destruct mv as [[from_pos to_pos] height].
  destruct (check_win_by_distance_or_capture E _ _); [discriminate|].
  cbn [fst snd].
  destruct (get_top_piece_type E _ _ _); [|reflexivity].
  destruct (String.eqb _ _); [discriminate|].
  destruct (get_stack_owner E _ _ _) as [o|]; [|discriminate].
  destruct (negb _); discriminate.
Qed.

Lemma minmax_moves_total (rec : RulesE -> Z -> option (Score * Z))
    (rules : RulesE) (player : Z) :
  (forall r n, exists v n', rec r n = Some (v, n')) ->
  forall (moves : list Move) (best : Score) (n : Z),
    exists v n', MinMax.minmax_moves E rec rules player moves best n = Some (v, n').
Proof.
  intros Hrec moves. induction moves as [|mv rest IH]; intros best n;
    cbn [MinMax.minmax_moves]; [eauto|].
  destruct (Hrec (set_current_player (make_move E rules mv) (3 - player)) n)
    as (w & k & ->).
  destruct (Score.leb _ _); [eauto|apply IH].
Qed.

Lemma minmax_total (depth : nat) (rules : RulesE) (player n : Z) :
  exists v n', MinMax.minmax E depth rules player n = Some (v, n').
Proof.
  revert rules player n.
  induction depth as [|d IH]; intros rules player n; cbn [MinMax.minmax].
  - repeat (destruct (check_win_by_distance_or_capture E _ _); [eauto|]). eauto.
  - repeat (destruct (check_win_by_distance_or_capture E _ _); [eauto|]).
    destruct (order_moves_defined rules player) as [ordered Hord].
    destruct (get_legal_moves E rules player) as [|m ms]; [eauto|].
    rewrite Hord. apply minmax_moves_total. intros r k. apply IH.
Qed.

(** The second loop of [choose_best_move] ends with a move as soon as there
    is one to try. *)
Lemma root_trials_some (depth1 : nat) (rules : RulesE) (player : Z)
    (moves : list Move) (best_move : option Move) (best_score : Score) (n : Z) :
  (best_move = None -> best_score = NegInf) ->
  moves <> [] \/ best_move <> None ->
  exists m n',
    MinMax.root_trials E depth1 rules player moves best_move best_score n
    = Some (Some m, n').
Proof.
  revert best_move best_score n.
  induction moves as [|mv rest IH]; intros best_move best_score n Hinv Hstart;
    cbn [MinMax.root_trials].
  - destruct Hstart as [H|H]; [easy|]. destruct best_move; [eauto|easy].
  - destruct (minmax_total depth1
                (set_current_player (make_move E rules mv) (3 - player))
                (3 - player) (n + 1)) as (w & k & Hm).
    rewrite Hm. apply minmax_finite in Hm as [z ->].
    destruct (Score.ltb best_score (Score.neg (Fin z))) eqn:Hlt; cbn beta iota zeta.
    + destruct (Score.leb _ _); [eauto|].
      apply IH; [discriminate|right; discriminate].
    + assert (Hb : best_move <> None).
      { intros Hnone. rewrite (Hinv Hnone) in Hlt. discriminate. }
      destruct (Score.leb _ _).
      * destruct best_move; [eauto|easy].
      * apply IH; [easy|now right].
Qed.

(** ** The engine as its callers see it *)

(** X10. With a rules engine that generates moves from occupied squares
    only, [choose_best_move] of Min_max.py, called on a string the parser
    accepts, raises exactly when the side to move has no legal move (it
    goes on to describe the move [None]); in every other case it returns a
    move.  The engine of alpha_beta_ki.py returns [None] on such a
    position. *)
Theorem minmax_choice_none_iff (fen_str : string) (depth1 : nat) (n : Z) :
  match parse_fen (parse_rows E) fen_str with
  | None => MinMax.choose_best_move E fen_str (S depth1) n = None
  | Some (root, player) =>
      MinMax.choose_best_move E fen_str (S depth1) n = None <->
      get_legal_moves E (mkRules root player) player = []
  end.
Proof.
  unfold MinMax.choose_best_move.
  destruct (parse_fen (parse_rows E) fen_str) as [[root player]|]; [|reflexivity].
  destruct (order_moves_defined (mkRules root player) player) as [ordered Hord].
  rewrite Hord.
  destruct (get_legal_moves E (mkRules root player) player) as [|m ms] eqn:Hmoves.
  - apply order_moves_perm, Permutation_sym, Permutation_nil in Hord.
    subst ordered. simpl. tauto.
  - split; [|discriminate]. intros Hnone. exfalso.
    destruct (MinMax.win_trials E _ player ordered n) as [[mv|] k];
      [discriminate|].
    destruct (root_trials_some (S depth1 - 1) (mkRules root player) player
                ordered None NegInf k (fun _ => eq_refl)) as (m' & k' & Hr).
    + left. intros ->. apply order_moves_perm, Permutation_nil in Hord.
      discriminate.
    + rewrite Hr in Hnone. discriminate.
Qed.

End MinMaxMore.

Section MinMaxChoice.

Variable E : Env.

Local Abbreviation RulesE := (Rules (Board E)).

(** X11. A move [choose_best_move] of Min_max.py returns is one of the
    legal moves generated for the parsed position and its side to move. *)
Theorem minmax_choice_legal (fen_str : string) (depth : nat) (n : Z)
    (mv : Move) (n' : Z) :
  MinMax.choose_best_move E fen_str depth n = Some (mv, n') ->
  exists root player,
    parse_fen (parse_rows E) fen_str = Some (root, player) /\
    In mv (get_legal_moves E (mkRules root player) player).
Proof.
  unfold MinMax.choose_best_move.
  destruct (parse_fen (parse_rows E) fen_str) as [[root player]|]; [|discriminate].
  destruct (MinMax.order_moves E _ _) as [ordered|] eqn:Hord; [|discriminate].
  intros H. exists root, player. split; [reflexivity|].
  eapply Permutation_in; [apply (order_moves_perm E _ _ _ Hord)|].
  destruct (MinMax.win_trials E _ player ordered n) as [[m|] k] eqn:Hw.
  - injection H as -> _.
    apply (win_trials_In E (mkRules root player) player ordered n).
    now rewrite Hw.
  - destruct (MinMax.root_trials E _ _ player ordered None NegInf k)
      as [[[m|] k']|] eqn:Hr; try discriminate.
    injection H as -> _.
    destruct (root_trials_In E _ _ _ _ _ _ _ _ _ Hr) as [Hin|Heq];
      [exact Hin|discriminate].
Qed.

(** X12. If some legal move wins at once, and the orderer does not raise,
    [choose_best_move] of Min_max.py returns the first such move in the
    order the rules engine generates them, after one trial: the orderer
    has put the winning moves first and the immediate-win loop goes
    through all moves, not through the first three as the quick check of
    alpha_beta_ki.py does. *)
Theorem minmax_immediate_win (fen_str : string) (depth : nat) (n : Z)
    (root : Board E) (player : Z) (mv : Move) :
  parse_fen (parse_rows E) fen_str = Some (root, player) ->
  MinMax.order_moves E (mkRules root player)
    (get_legal_moves E (mkRules root player) player) <> None ->
  List.find
    (fun m => check_win_by_distance_or_capture E
                (board (make_move E (mkRules root player) m)) player)
    (get_legal_moves E (mkRules root player) player) = Some mv ->
  MinMax.choose_best_move E fen_str depth n = Some (mv, n + 1).
Proof.
  intros Hparse Hord Hfind. unfold MinMax.choose_best_move. rewrite Hparse.
  destruct (MinMax.order_moves E _ _) as [ordered|] eqn:Ho; [|easy].
  apply order_moves_winners_first in Ho as [others ->].
  cbn [current_player].
  pose proof (find_some _ _ Hfind) as [_ Hwin].
  apply find_filter in Hfind as [rest ->].
  cbn [app MinMax.win_trials]. now rewrite Hwin.
Qed.

End MinMaxChoice.

(* ===================================================================== *)
(** * More on the strings a position is read from *)
(* ===================================================================== *)

Module PyStrMoreFacts.
Import PyStr PyStrMore.

Local Arguments String.append !_ _ / : simpl nomatch.

Lemma length_app (s1 s2 : string) :
  String.length (s1 ++ s2) = (String.length s1 + String.length s2)%nat.
Proof. induction s1 as [|c s1 IH]; simpl; [reflexivity|now rewrite IH]. Qed.

Lemma app_nil_r (s : string) : (s ++ "")%string = s.
Proof. induction s as [|c s IH]; simpl; [reflexivity|now rewrite IH]. Qed.

Lemma substring_all (s : string) : substring 0 (String.length s) s = s.
Proof. induction s as [|c s IH]; simpl; [reflexivity|now rewrite IH]. Qed.

Lemma substring_app_skip (s1 s2 : string) (m : nat) :
  substring (String.length s1) m (s1 ++ s2) = substring 0 m s2.
Proof. induction s1 as [|c s1 IH]; simpl; [reflexivity|exact IH]. Qed.

(** The last characters of a string decide [endswith]. *)
Lemma endswith_app (p tail suffix : string) :
  String.length tail = String.length suffix ->
  endswith (p ++ tail) suffix = String.eqb tail suffix.
Proof.
  intros Hlen. unfold endswith. rewrite length_app, <- Hlen.
  replace (String.length tail <=? String.length p + String.length tail)%nat
    with true by (symmetry; apply Nat.leb_le; lia).
  replace (String.length p + String.length tail - String.length tail)%nat
    with (String.length p) by lia.
  now rewrite substring_app_skip, substring_all.
Qed.

Lemma prefix_nil (s : string) : String.prefix "" s = true.
Proof. now destruct s. Qed.

(** A pattern of one character is counted character by character. *)
Lemma count_from_single_app (a : ascii) (s1 s2 : string) :
  count_from (String a "") 0 (s1 ++ s2)
  = (count_from (String a "") 0 s1 + count_from (String a "") 0 s2)%nat.
Proof.
  induction s1 as [|c s1 IH]; [reflexivity|].
  cbn [append count_from String.length Nat.sub String.prefix].
  rewrite !prefix_nil, IH. now destruct (ascii_dec a c).
Qed.

(** A pattern of two characters does not reach into a tail of two
    characters that shares none with it where it could match. *)
Lemma count_from_pair_tail (a b x y : ascii) (p : string) (k : nat) :
  x <> a -> y <> a -> x <> b ->
  count_from (String a (String b "")) k (p ++ String x (String y ""))
  = count_from (String a (String b "")) k p.
Proof.
  intros Hxa Hya Hxb. revert k. induction p as [|c p IH]; intros k.
  - destruct k as [|[|k]]; cbn [append count_from String.prefix];
      repeat match goal with
             | |- context [ascii_dec ?u ?v] => destruct (ascii_dec u v)
             end; congruence || reflexivity.
  - cbn [append count_from]. destruct k as [|k]; [|apply IH].
    rewrite !IH.
    assert (Hpre : String.prefix (String a (String b "")) (String c (p ++ String x (String y "")))
                   = String.prefix (String a (String b "")) (String c p)).
    { cbn [String.prefix]. destruct (ascii_dec a c); [|reflexivity].
      destruct p as [|c' p]; cbn [append String.prefix].
      - now destruct (ascii_dec b x); [congruence|].
      - now rewrite !prefix_nil. }
    now rewrite Hpre.
Qed.

Lemma count_single_app (a : ascii) (s1 s2 : string) :
  count (s1 ++ s2) (String a "") = count s1 (String a "") + count s2 (String a "").
Proof. unfold count. rewrite count_from_single_app. lia. Qed.

Lemma count_pair_tail (a b x y : ascii) (p : string) :
  x <> a -> y <> a -> x <> b ->
  count (p ++ String x (String y "")) (String a (String b ""))
  = count p (String a (String b "")).
Proof. intros. unfold count. now rewrite count_from_pair_tail. Qed.

(** ** Reversal, stripping and splitting *)

Lemma rev_app_rev_app (s a b : string) :
  String.rev_app (String.rev_app s a) b = String.rev_app a (s ++ b).
Proof.
  revert a b. induction s as [|c s IH]; intros a b; simpl; [reflexivity|].
  now rewrite IH.
Qed.

Lemma rev_rev (s : string) : String.rev (String.rev s) = s.
Proof. unfold String.rev. rewrite rev_app_rev_app. simpl. apply app_nil_r. Qed.

Lemma rev_app_app (s1 s2 acc : string) :
  String.rev_app (s1 ++ s2) acc = String.rev_app s2 (String.rev_app s1 acc).
Proof.
  revert acc. induction s1 as [|c s1 IH]; intros acc; simpl; [reflexivity|].
  apply IH.
Qed.

Lemma rev_app_not_nil (s acc : string) :
  acc <> "" -> String.rev_app s acc <> "".
Proof.
  revert acc. induction s as [|c s IH]; intros acc Hacc; simpl; [exact Hacc|].
  now apply IH.
Qed.

(** A reversed word starts with a character that is not white space. *)
Lemma lstrip_rev_app (w acc : string) (x : ascii) :
  is_space x = false -> no_space w = true ->
  lstrip (String.rev_app w (String x acc)) = String.rev_app w (String x acc).
Proof.
  revert acc x. induction w as [|c w IH]; intros acc x Hx Hw; cbn [String.rev_app].
  - cbn [lstrip]. now rewrite Hx.
  - cbn [no_space] in Hw. apply andb_true_iff in Hw as [Hc Hw].
    apply negb_true_iff in Hc. now apply IH.
Qed.

(** A word: characters that are not white space. *)
Lemma split_ws_from_word (w rest tok : string) :
  no_space w = true ->
  split_ws_from tok (w ++ rest) = split_ws_from (String.rev_app w tok) rest.
Proof.
  revert tok. induction w as [|c w IH]; intros tok Hw; [reflexivity|].
  cbn [no_space] in Hw. apply andb_true_iff in Hw as [Hc Hw].
  apply negb_true_iff in Hc.
  cbn [append split_ws_from String.rev_app]. rewrite Hc. now apply IH.
Qed.

(** Two words with one blank between them are the two tokens of
    [strip()] and [split()]. *)
Lemma split_two_words (w1 w2 : string) :
  w1 <> "" -> no_space w1 = true -> w2 <> "" -> no_space w2 = true ->
  split_ws (strip (w1 ++ " " ++ w2)) = [w1; w2].
Proof.
  intros Hne1 Hw1 Hne2 Hw2.
  assert (Hstrip : strip (w1 ++ " " ++ w2) = (w1 ++ " " ++ w2)%string).
  { unfold strip, rstrip.
    assert (Hl : lstrip (w1 ++ " " ++ w2) = (w1 ++ " " ++ w2)%string).
    { destruct w1 as [|c w1]; [easy|]. cbn [no_space] in Hw1.
      apply andb_true_iff in Hw1 as [Hc _]. apply negb_true_iff in Hc.
      cbn [append lstrip]. now rewrite Hc. }
    rewrite Hl.
    assert (Hr : lstrip (String.rev (w1 ++ " " ++ w2)) = String.rev (w1 ++ " " ++ w2)).
    { unfold String.rev. rewrite rev_app_app.
      change (" " ++ w2)%string with (String " " w2). cbn [String.rev_app].
      destruct w2 as [|c w2]; [easy|]. cbn [no_space] in Hw2.
      apply andb_true_iff in Hw2 as [Hc Hw2]. apply negb_true_iff in Hc.
      cbn [String.rev_app]. now apply lstrip_rev_app. }
    rewrite Hr. apply rev_rev. }
  rewrite Hstrip. unfold split_ws.
  rewrite split_ws_from_word by exact Hw1.
  change (" " ++ w2)%string with (String " " w2). cbn [split_ws_from].
  change (is_space " ") with true. cbv iota.
  assert (Htok : String.rev_app w1 "" <> "").
  { destruct w1 as [|c w1]; [easy|]. cbn [String.rev_app].
    now apply rev_app_not_nil. }
  destruct (String.rev_app w1 "") as [|c t] eqn:Hrev; [easy|].
  rewrite <- Hrev. fold (String.rev w1). rewrite rev_rev. f_equal.
  rewrite <- (app_nil_r w2) at 1.
  rewrite split_ws_from_word by exact Hw2. cbn [split_ws_from].
  assert (Htok2 : String.rev_app w2 "" <> "").
  { destruct w2 as [|d w2]; [easy|]. cbn [String.rev_app].
    now apply rev_app_not_nil. }
  destruct (String.rev_app w2 "") as [|d t2] eqn:Hrev2; [easy|].
  rewrite <- Hrev2. fold (String.rev w2). now rewrite rev_rev.
Qed.

End PyStrMoreFacts.

(* ===================================================================== *)
(** * More on the game phase classifier and the side to move *)
(* ===================================================================== *)

Module PhaseMoreFacts.
Import PyStr PyStrMore PyStrFacts PyStrMoreFacts Phase PhaseFacts.

Lemma player_of_red (placement : string) : player_of (placement ++ " r") = 1.
Proof. unfold player_of. now rewrite endswith_app. Qed.

Lemma player_of_blue (placement : string) : player_of (placement ++ " b") = 2.
Proof. unfold player_of. now rewrite endswith_app. Qed.

(** X13. The two piece counters count letters of the whole string, so the
    side letter at its end is counted as a piece of the side to move,
    whichever side that is: on a string made of a placement, a blank and
    the side letter, [count_my_pieces] is one more than the letters of the
    placement give, and [count_enemy_pieces] is what they give. *)
Theorem side_letter_counted (placement : string) :
  count_my_pieces (placement ++ " r")
  = count placement "r" + count placement "RG" + 1 /\
  count_enemy_pieces (placement ++ " r")
  = count placement "b" + count placement "BG" /\
  count_my_pieces (placement ++ " b")
  = count placement "b" + count placement "BG" + 1 /\
  count_enemy_pieces (placement ++ " b")
  = count placement "r" + count placement "RG".
Proof.
  unfold count_my_pieces, count_enemy_pieces.
  rewrite player_of_red, player_of_blue. cbn [Z.eqb Pos.eqb].
  rewrite !count_single_app.
  rewrite (count_pair_tail "R" "G" " " "r"), (count_pair_tail "B" "G" " " "r"),
    (count_pair_tail "R" "G" " " "b"), (count_pair_tail "B" "G" " " "b")
    by discriminate.
  change (count " r" "r") with 1. change (count " r" "b") with 0.
  change (count " b" "r") with 0. change (count " b" "b") with 1.
  lia.
Qed.

(** X14. When either counter is at two or less, the phase is "critical"
    and the budget 0.5 seconds, whatever the other numbers are. *)
Theorem low_material_is_critical (fen_str : string) :
  split_ws fen_str <> [] ->
  count_my_pieces fen_str <= 2 \/ count_enemy_pieces fen_str <= 2 ->
  detect_game_phase fen_str = Some "critical" /\
  allocate_time fen_str = Some 0.5%Q.
Proof.
  intros Hne Hlow. destruct (in_half_defined _ Hne) as [n Hn].
  rewrite (allocate_time_eq _ _ Hn), (detect_game_phase_eq _ _ Hn).
  assert (Hph : phase_of (diff_of_pieces fen_str) n (count_my_pieces fen_str)
                         (count_enemy_pieces fen_str) = "critical").
  { unfold phase_of, criticality.
    replace ((count_my_pieces fen_str <=? 2) || (count_enemy_pieces fen_str <=? 2))
      with true by (symmetry; apply orb_true_iff; lia).
    destruct (diff_of_pieces fen_str <=? -3);
      destruct (diff_of_pieces fen_str <=? -1); destruct (3 <=? n);
      destruct (1 <=? n); reflexivity. }
  rewrite Hph. split; reflexivity.
Qed.

(** X15. On a string made of a placement without white space, a blank and
    the side letter, the parser and the classifier read the same side to
    move, and the parser hands exactly the placement to the loop over the
    rows. *)
Theorem side_to_move_agrees {B : Type} (parse_rows : string -> option B)
    (placement side : string) :
  placement <> "" -> no_space placement = true ->
  side = "r" \/ side = "b" ->
  parse_fen parse_rows (placement ++ " " ++ side) =
  match parse_rows placement with
  | Some b => Some (b, player_of (placement ++ " " ++ side))
  | None => None
  end.
Proof.
  intros Hne Hw Hside. unfold parse_fen.
  rewrite split_two_words; [|exact Hne|exact Hw| |];
    [|destruct Hside as [->| ->]; discriminate
     |destruct Hside as [->| ->]; reflexivity].
  destruct Hside as [->| ->].
  - change (" " ++ "r")%string with " r". rewrite player_of_red. reflexivity.
  - change (" " ++ "b")%string with " b". rewrite player_of_blue. reflexivity.
Qed.

End PhaseMoreFacts.

(* ===================================================================== *)
(** * Scenario D: nine pieces, three or more behind *)
(* ===================================================================== *)

Module ScenarioD.
Import PyStr PyStrFacts PyStrMoreFacts Phase PhaseFacts PhaseMoreFacts.






End ScenarioD.

(* ===================================================================== *)
(** * The loop of the FEN parser over the rows (core/fen.py) *)
(* ===================================================================== *)

Section ParserFacts.
Import Bitboard FenText.

Variable SIZE : Z.
Variable set_bit : Z -> Z -> Z -> Z.

(** ** Only squares of the board are written *)

Variable P : Z -> Prop.
Hypothesis P_empty : P 0.
Hypothesis P_set_bit :
  forall bb x y, P bb -> 0 <= x < SIZE -> 0 <= y < SIZE -> P (set_bit bb x y).

Lemma tower_P (towers : list Z) (h : Z) : Forall P towers -> P (tower towers h).
Proof.
  intros H. unfold tower. destruct (towers !! Z.to_nat h) as [bb|] eqn:Hl;
    [|exact P_empty].
  exact (Forall_lookup_1 _ _ _ _ H Hl).
Qed.

Lemma int_of_char_range (c : ascii) (n : Z) : int_of_char c = Some n -> 0 <= n <= 9.
Proof.
  unfold int_of_char.
  destruct ((48 <=? nat_of_ascii c)%nat && (nat_of_ascii c <=? 57)%nat) eqn:H;
    [|discriminate].
  apply andb_true_iff in H as [H1 H2].
  apply Nat.leb_le in H1. apply Nat.leb_le in H2. intros [= <-]. lia.
Qed.

Lemma parse_row_bitboards (n : nat) :
  forall (row : string) (y x : Z) (b b' : BitboardBoard),
    (String.length row <= n)%nat ->
    0 <= y < SIZE -> 0 <= x -> bitboards P b ->
    parse_row SIZE set_bit y row x b = Some b' -> bitboards P b'.
Proof.
  induction n as [|n IH]; intros row y x b b' Hlen Hy Hx Hb.
  - destruct row; [|simpl in Hlen; lia]. now intros [= <-].
  - destruct row as [|c1 rest]; [now intros [= <-]|].
    cbn [parse_row]. simpl in Hlen.
    destruct (Z.leb_spec SIZE x) as [_|Hxs]; [now intros [= <-]|].
    assert (Hsingle :
              (if isdigit c1
               then match int_of_char c1 with
                    | Some empty_count =>
                        parse_row SIZE set_bit y rest (x + empty_count) b
                    | None => None
                    end
               else parse_row SIZE set_bit y rest x b) = Some b' ->
              bitboards P b').
    { destruct (isdigit c1).
      - destruct (int_of_char c1) as [k|] eqn:Hk; [|discriminate].
        apply int_of_char_range in Hk.
        apply IH; [lia|exact Hy|lia|exact Hb].
      - apply IH; [lia|exact Hy|lia|exact Hb]. }
    destruct rest as [|c2 rest2]; [exact Hsingle|].
    simpl in Hlen.
    destruct Hb as (Hrg & Hbg & Hrt & Hbt & Hrl & Hbl).
    destruct (Ascii.eqb c1 "R" && Ascii.eqb c2 "G").
    { apply IH; [lia|exact Hy|lia|].
      repeat split; cbn; auto; try (apply P_set_bit; [assumption|lia|exact Hy]). }
    destruct (Ascii.eqb c1 "B" && Ascii.eqb c2 "G").
    { apply IH; [lia|exact Hy|lia|].
      repeat split; cbn; auto; try (apply P_set_bit; [assumption|lia|exact Hy]). }
    destruct ((Ascii.eqb c1 "r" || Ascii.eqb c1 "b") && isdigit c2);
      [|apply Hsingle].
    destruct (int_of_char c2) as [height|]; [|discriminate].
    apply IH; [lia|exact Hy|lia|].
    destruct ((1 <=? height) && (height <=? 7));
      [|repeat split; assumption].
    destruct (_ =? 1); repeat split; cbn; auto;
      try (unfold set_tower; rewrite length_insert; assumption);
      unfold set_tower; apply Forall_insert; auto;
      (apply P_set_bit; [now apply tower_P|lia|exact Hy]).
Qed.

Lemma parse_rows_from_bitboards (rows : list string) :
  forall (y : Z) (b b' : BitboardBoard),
    0 <= y -> bitboards P b ->
    parse_rows_from SIZE set_bit y rows b = Some b' -> bitboards P b'.
Proof.
  induction rows as [|row more IH]; intros y b b' Hy Hb; cbn [parse_rows_from].
  - now intros [= <-].
  - destruct (Z.leb_spec SIZE y) as [_|Hys]; [now intros [= <-]|].
    destruct (parse_row SIZE set_bit y row 0 b) as [b1|] eqn:Hrow; [|discriminate].
    apply IH; [lia|].
    eapply (parse_row_bitboards _ row y 0 b b1 (Nat.le_refl _));
      [lia|lia|exact Hb|exact Hrow].
Qed.

Lemma parse_rows_bitboards (board_str : string) (b : BitboardBoard) :
  parse_rows SIZE set_bit board_str = Some b -> bitboards P b.
Proof.
  unfold parse_rows. apply parse_rows_from_bitboards; [lia|].
  repeat split; cbn; auto; repeat constructor; exact P_empty.
Qed.

(** X16. The parser fills the board from empty bitboards and sets bits
    only for squares [(x, y)] with [0 <= x < SIZE] and [0 <= y < SIZE]:
    whatever holds of the empty bitboard and is kept by setting the bit of
    such a square holds of every bitboard of a parsed board.  The two
    lists of tower bitboards keep their eight entries. *)
Theorem parser_writes_board_squares_only (board_str : string)
    (b : BitboardBoard) :
  parse_rows SIZE set_bit board_str = Some b -> bitboards P b.
Proof.
  unfold parse_rows. intros Hrows.
  apply (parse_rows_from_bitboards (PyStr.split_on "/" board_str) 0 empty_board b);
    [lia| |exact Hrows].
  repeat split; cbn; auto; repeat constructor; exact P_empty.
Qed.

End ParserFacts.

Section ParserTotal.
Import Bitboard FenText.

Variable SIZE : Z.
Variable set_bit : Z -> Z -> Z -> Z.

Lemma plain_digit (c : ascii) :
  superscript c = false -> isdigit c = true -> exists n, int_of_char c = Some n.
Proof.
  unfold superscript. intros Hs Hd. rewrite Hd in Hs.
  destruct (int_of_char c); [eauto|discriminate].
Qed.

Lemma parse_row_total (n : nat) :
  forall (row : string) (y x : Z) (b : BitboardBoard),
    (String.length row <= n)%nat -> no_superscript row = true ->
    exists b', parse_row SIZE set_bit y row x b = Some b'.
Proof.
  induction n as [|n IH]; intros row y x b Hlen Hrow.
  - destruct row; [simpl; eauto|simpl in Hlen; lia].
  - destruct row as [|c1 rest]; [simpl; eauto|].
    cbn [parse_row]. simpl in Hlen.
    cbn [no_superscript] in Hrow. apply andb_true_iff in Hrow as [Hc1 Hrest].
    apply negb_true_iff in Hc1.
    destruct (SIZE <=? x); [eauto|].
    assert (Hsingle :
              exists b',
                (if isdigit c1
                 then match int_of_char c1 with
                      | Some empty_count =>
                          parse_row SIZE set_bit y rest (x + empty_count) b
                      | None => None
                      end
                 else parse_row SIZE set_bit y rest x b) = Some b').
    { destruct (isdigit c1) eqn:Hd.
      - destruct (plain_digit c1 Hc1 Hd) as [k ->]. apply IH; [lia|exact Hrest].
      - apply IH; [lia|exact Hrest]. }
    destruct rest as [|c2 rest2]; [exact Hsingle|].
    simpl in Hlen. cbn [no_superscript] in Hrest.
    apply andb_true_iff in Hrest as [Hc2 Hrest2]. apply negb_true_iff in Hc2.
    destruct (Ascii.eqb c1 "R" && Ascii.eqb c2 "G"); [apply IH; [lia|exact Hrest2]|].
    destruct (Ascii.eqb c1 "B" && Ascii.eqb c2 "G"); [apply IH; [lia|exact Hrest2]|].
    destruct ((Ascii.eqb c1 "r" || Ascii.eqb c1 "b") && isdigit c2) eqn:Ht;
      [|exact Hsingle].
    apply andb_true_iff in Ht as [_ Hd2].
    destruct (plain_digit c2 Hc2 Hd2) as [h ->]. apply IH; [lia|exact Hrest2].
Qed.

Lemma no_superscript_rev_app (s acc : string) :
  no_superscript (String.rev_app s acc) = no_superscript s && no_superscript acc.
Proof.
  revert acc. induction s as [|c s IH]; intros acc; cbn [String.rev_app no_superscript];
    [reflexivity|].
  rewrite IH. cbn [no_superscript].
  destruct (superscript c), (no_superscript s), (no_superscript acc); reflexivity.
Qed.

Lemma split_on_from_no_superscript (sep : ascii) (s field : string) :
  no_superscript s = true -> no_superscript field = true ->
  Forall (fun row => no_superscript row = true) (PyStr.split_on_from sep field s).
Proof.
  revert field. induction s as [|c s IH]; intros field Hs Hf;
    cbn [PyStr.split_on_from].
  - constructor; [|constructor]. unfold String.rev.
    now rewrite no_superscript_rev_app, Hf.
  - cbn [no_superscript] in Hs. apply andb_true_iff in Hs as [Hc Hs].
    destruct (Ascii.eqb c sep).
    + constructor; [|now apply IH].
      unfold String.rev. now rewrite no_superscript_rev_app, Hf.
    + apply IH; [exact Hs|]. cbn [no_superscript]. now rewrite Hc, Hf.
Qed.

Lemma parse_rows_from_total (rows : list string) :
  Forall (fun row => no_superscript row = true) rows ->
  forall (y : Z) (b : BitboardBoard),
    exists b', parse_rows_from SIZE set_bit y rows b = Some b'.
Proof.
  induction 1 as [|row more Hrow _ IH]; intros y b; cbn [parse_rows_from];
    [eauto|].
  destruct (SIZE <=? y); [eauto|].
  destruct (parse_row_total _ row y 0 b (Nat.le_refl _) Hrow) as [b1 ->].
  apply IH.
Qed.

(** X17. On a placement of code points below 256, the loop over the rows
    raises on nothing but one of the three superscript digits of that
    range (U+00B2, U+00B3, U+00B9), which [isdigit] accepts and [int]
    rejects: such a placement without one of them is parsed to a board,
    whatever else it contains; characters that spell no unit are skipped,
    rows and columns past the board are not read. *)
Theorem parser_accepts_plain_text (board_str : string) :
  no_superscript board_str = true ->
  exists b, parse_rows SIZE set_bit board_str = Some b.
Proof.
  intros H. unfold parse_rows. apply parse_rows_from_total.
  now apply split_on_from_no_superscript.
Qed.

End ParserTotal.

(* ===================================================================== *)
(** * Moves as text: what the client sends *)
(* ===================================================================== *)

Module MoveTextFacts.
Import PyStr PyStrMore PyStrMoreFacts MoveText.

Local Arguments String.append !_ _ / : simpl nomatch.

(** ** Splitting at a character *)

Lemma split_on_from_lacks (sep : ascii) (s field rest : string) :
  lacks sep s = true ->
  split_on_from sep field (s ++ String sep rest)
  = String.rev (String.rev_app s field) :: split_on_from sep EmptyString rest.
Proof.
  revert field. induction s as [|c s IH]; intros field Hs;
    cbn [append split_on_from String.rev_app].
  - now rewrite Ascii.eqb_refl.
  - cbn [lacks] in Hs. apply andb_true_iff in Hs as [Hc Hs].
    apply negb_true_iff in Hc. rewrite Hc. now apply IH.
Qed.

Lemma split_on_from_lacks_end (sep : ascii) (s field : string) :
  lacks sep s = true ->
  split_on_from sep field s = [String.rev (String.rev_app s field)].
Proof.
  revert field. induction s as [|c s IH]; intros field Hs;
    cbn [split_on_from String.rev_app]; [reflexivity|].
  cbn [lacks] in Hs. apply andb_true_iff in Hs as [Hc Hs].
  apply negb_true_iff in Hc. rewrite Hc. now apply IH.
Qed.

Lemma split_on_lacks (sep : ascii) (s rest : string) :
  lacks sep s = true ->
  split_on sep (s ++ String sep rest) = s :: split_on sep rest.
Proof.
  intros Hs. unfold split_on. rewrite split_on_from_lacks by exact Hs.
  fold (String.rev s). now rewrite rev_rev.
Qed.

Lemma split_on_lacks_end (sep : ascii) (s : string) :
  lacks sep s = true -> split_on sep s = [s].
Proof.
  intros Hs. unfold split_on. rewrite split_on_from_lacks_end by exact Hs.
  fold (String.rev s). now rewrite rev_rev.
Qed.

(** ** The decimal spelling of an integer *)

Lemma digits_lack_dash (s : string) : all_digits s = true -> lacks "-" s = true.
Proof.
  induction s as [|c s IH]; [reflexivity|]. cbn [all_digits lacks].
  intros H. apply andb_true_iff in H as [Hc Hs]. rewrite (IH Hs), andb_true_r.
  apply negb_true_iff. destruct (Ascii.eqb_spec c "-") as [->|_]; [|reflexivity].
  discriminate.
Qed.

Lemma string_of_uint_digits (d : Decimal.uint) :
  all_digits (NilEmpty.string_of_uint d) = true.
Proof. induction d; cbn [NilEmpty.string_of_uint all_digits]; auto. Qed.

Lemma string_of_uint_isdigit (d : Decimal.uint) :
  isdigit (NilZero.string_of_uint d) = true.
Proof.
  pose proof (string_of_uint_digits d) as H.
  destruct d; [reflexivity|..]; exact H.
Qed.

Lemma str_nonneg (n : Z) : 0 <= n -> isdigit (str n) = true.
Proof.
  intros Hn. unfold str. destruct n as [|p|p]; [reflexivity| |lia].
  apply string_of_uint_isdigit.
Qed.

Lemma str_neg (n : Z) :
  n < 0 -> exists d, str n = String "-" d /\ isdigit d = true.
Proof.
  intros Hn. unfold str. destruct n as [|p|p]; [lia|lia|].
  eexists. split; [reflexivity|apply string_of_uint_isdigit].
Qed.

Lemma isdigit_lacks_dash (s : string) : isdigit s = true -> lacks "-" s = true.
Proof.
  destruct s as [|c s]; [discriminate|]. apply digits_lack_dash.
Qed.

(** A square of a column from A on and a row from 7 down is spelled
    without a dash. *)
Lemma coord_lacks_dash (x y : Z) :
  0 <= x < 191 -> y <= 7 -> lacks "-" (coord_to_notation x y) = true.
Proof.
  intros Hx Hy. unfold coord_to_notation. cbn [lacks].
  rewrite (isdigit_lacks_dash (str (7 - y))) by (apply str_nonneg; lia).
  rewrite andb_true_r. apply negb_true_iff.
  destruct (Ascii.eqb_spec (chr (ord "A" + x)) "-") as [Heq|_]; [|reflexivity].
  apply (f_equal nat_of_ascii) in Heq. change (ord "A") with 65 in Heq.
  unfold chr in Heq. rewrite nat_ascii_embedding in Heq by lia.
  change (nat_of_ascii "-") with 45%nat in Heq. lia.
Qed.

(** The check of the client on the text of a move. *)
Lemma formatted_moves_validate (fx fy tx ty height : Z) :
  0 <= fx < 191 -> 0 <= tx < 191 -> fy <= 7 -> ty <= 7 ->
  validate_move (format_move_description ((fx, fy), (tx, ty), height))
  = (0 <=? height).
Proof.
  intros Hfx Htx Hfy Hty.
  unfold validate_move, format_move_description. cbn [fst snd].
  change ("-" ++ ?s)%string with (String "-" s).
  rewrite split_on_lacks by now apply coord_lacks_dash.
  change ("-" ++ str height)%string with (String "-" (str height)).
  rewrite split_on_lacks by now apply coord_lacks_dash.
  destruct (Z.leb_spec 0 height) as [Hh|Hh].
  - pose proof (str_nonneg height Hh) as Hd.
    rewrite split_on_lacks_end by now apply isdigit_lacks_dash.
    cbn. exact Hd.
  - destruct (str_neg height Hh) as (d & -> & Hd).
    change (String "-" d) with ("" ++ String "-" d)%string.
    rewrite split_on_lacks by reflexivity.
    rewrite split_on_lacks_end by now apply isdigit_lacks_dash.
    reflexivity.
Qed.

(** X18. The text of a move, as [format_move_description] writes it for
    squares of columns from A on and rows from 7 down, passes the check of
    the client, [validate_move], exactly when the height is not negative;
    and [describe_move] of core/fen.py writes the same text. *)
Theorem formatted_move_validates (fx fy tx ty height : Z) :
  0 <= fx < 191 -> 0 <= tx < 191 -> fy <= 7 -> ty <= 7 ->
  validate_move (format_move_description ((fx, fy), (tx, ty), height))
  = (0 <=? height) /\
  describe_move (fx, fy) (tx, ty) height
  = format_move_description ((fx, fy), (tx, ty), height).
Proof.
  intros Hfx Htx Hfy Hty. split.
  - now apply formatted_moves_validate.
  - unfold describe_move, format_move_description, coord_to_notation.
    cbn [fst snd]. now rewrite !(Z.add_comm _ (ord "A")).
Qed.

End MoveTextFacts.

Section ClientFacts.
Import MoveText.

Variable E : Env.

(** A move [choose_best_move] returns is a legal move of the position it
    parsed. *)
Lemma chosen_move_In (fen_str : string) (eval_params : option (Params E))
    (st st' : State) (mv : Move) :
  choose_best_move E fen_str eval_params st = Chosen (Some mv) st' ->
  exists root player,
    parse_fen (parse_rows E) fen_str = Some (root, player) /\
    In mv (get_legal_moves E (mkRules root player) player).
Proof.
  unfold choose_best_move.
  destruct (parse_fen (parse_rows E) fen_str) as [[root player]|]; [|discriminate].
  destruct (Phase.allocate_time fen_str) as [budget|]; [|discriminate].
  destruct (quick_win E _ player _) as [m|] eqn:Hq.
  - intros [= -> _]. exists root, player. split; [reflexivity|].
    apply quick_win_Some in Hq as [Hin _].
    apply In_slice in Hin. now apply order_moves_fast_In in Hin.
  - pose proof (iterative_deepening_legal E (mkRules root player) budget
                  (Some (params_or_default E eval_params)) st mv) as Hid.
    destruct (iterative_deepening E _ budget _ st) as [bm s].
    intros [= -> _]. exists root, player. split; [reflexivity|]. now apply Hid.
Qed.

(** The rules engine generates moves between squares of the 7 x 7 board,
    of a height that is not negative. *)
Hypothesis on_board :
  forall (rules : Rules (Board E)) (player : Z) (fx fy tx ty height : Z),
    In ((fx, fy), (tx, ty), height) (get_legal_moves E rules player) ->
    0 <= fx < 7 /\ 0 <= fy < 7 /\ 0 <= tx < 7 /\ 0 <= ty < 7 /\ 0 <= height.

(** X19. In a turn of the client, whenever the engine returns a move the
    client sends it: the text of the move passes the client's own check,
    so the [ValueError] of the client is never raised on a move of the
    engine.  On the other two results of the engine, an exception of the
    parser and [None], on which [format_move_description] raises, the
    turn sends nothing. *)
Theorem client_sends_engine_move (board_text : string) (st : State) :
  match choose_best_move E board_text None st with
  | Chosen (Some mv) st' =>
      validate_move (format_move_description mv) = true /\
      answer E board_text st = (Some (format_move_description mv), st')
  | Chosen None st' => answer E board_text st = (None, st')
  | Malformed st' => answer E board_text st = (None, st')
  end.
Proof.
  unfold answer.
  destruct (choose_best_move E board_text None st) as [[mv|] st'|st'] eqn:Hc;
    [|reflexivity|reflexivity].
  apply chosen_move_In in Hc as (root & player & _ & Hin).
  destruct mv as [[[fx fy] [tx ty]] height].
  apply on_board in Hin as (Hfx & Hfy & Htx & Hty & Hh).
  pose proof (MoveTextFacts.formatted_moves_validate fx fy tx ty height
                ltac:(lia) ltac:(lia) ltac:(lia) ltac:(lia)) as Hv.
  cbv zeta.
  match goal with
  | |- ?v = true /\ _ =>
      assert (Hv' : v = true)
        by (etransitivity; [exact Hv|apply Z.leb_le; lia])
  end.
  rewrite Hv'. now split.
Qed.

End ClientFacts.

(* ===================================================================== *)
(** * The tournament runner *)
(* ===================================================================== *)

Section TournamentFacts.
Import Tournament.

Variable Params : Type.
Variable play_game : nat -> Params -> Params -> Z.

Lemma tally_counts (params1 params2 : Params) (games : list nat)
    (wins1 wins2 draws : Z) :
  0 <= wins1 -> 0 <= wins2 -> 0 <= draws ->
  exists w1 w2 d,
    fold_left (tally Params play_game params1 params2) games (wins1, wins2, draws)
    = (w1, w2, d) /\
    0 <= w1 /\ 0 <= w2 /\ 0 <= d /\
    w1 + w2 + d = wins1 + wins2 + draws + Z.of_nat (length games).
Proof.
  revert wins1 wins2 draws. induction games as [|k games IH];
    intros wins1 wins2 draws H1 H2 Hd; cbn [fold_left].
  - exists wins1, wins2, draws. cbn. repeat split; auto; lia.
  - unfold tally at 2.
    set (result := if Nat.even k then _ else _). clearbody result.
    destruct (result =? 1); [|destruct (result =? 2)];
      [destruct (IH (wins1 + 1) wins2 draws) as (w1 & w2 & d & -> & ? & ? & ? & ?)
      |destruct (IH wins1 (wins2 + 1) draws) as (w1 & w2 & d & -> & ? & ? & ? & ?)
      |destruct (IH wins1 wins2 (draws + 1)) as (w1 & w2 & d & -> & ? & ? & ? & ?)];
      try lia; exists w1, w2, d; cbn [length]; repeat split; auto; lia.
Qed.

(** Rounding takes equal rationals to the same float. *)
Lemma fl_eq (x y : Q) : (x == y)%Q -> Float.fl x = Float.fl y.
Proof. intros H. unfold Float.fl. now rewrite (Qred_complete x y H). Qed.

Lemma true_div_zero (n : Z) : Float.true_div 0 n = Float.fl 0.
Proof. apply fl_eq. unfold Qdiv. apply Qmult_0_l. Qed.

Lemma true_div_same (n : Z) : 0 < n -> Float.true_div n n = Float.fl 1.
Proof.
  intros Hn. apply fl_eq. unfold Qdiv. apply Qmult_inv_r.
  change 0%Q with (inject_Z 0). rewrite inject_Z_injective. lia.
Qed.

(** X21. [run_tournament] counts every game once, as a win of one side or
    as a draw.  The score [evaluate_params] makes of the counts, in the
    arithmetic of floats, is 0 for a tournament without a decided game
    (none played, or all drawn), the float 0.3 when every game is lost and
    the float 1.3 when every game is won: a parameter set that loses
    every game scores more than one that draws every game. *)
Theorem tournament_score (params baseline : Params) (num_games : nat) :
  exists wins1 wins2 draws,
    run_tournament Params play_game params baseline num_games
    = (wins1, wins2, draws) /\
    0 <= wins1 /\ 0 <= wins2 /\ 0 <= draws /\
    wins1 + wins2 + draws = Z.of_nat num_games /\
    (wins1 = 0 /\ wins2 = 0 ->
     (evaluate_params Params play_game params baseline num_games == 0)%Q) /\
    (wins1 = 0 /\ draws = 0 /\ 0 < wins2 ->
     (evaluate_params Params play_game params baseline num_games
      == Float.fl 0.3)%Q) /\
    (wins2 = 0 /\ draws = 0 /\ 0 < wins1 ->
     (evaluate_params Params play_game params baseline num_games
      == Float.fl 1.3)%Q) /\
    (Float.fl 0 < Float.fl 0.3 < Float.fl 1.3)%Q.
Proof.
  unfold evaluate_params, run_tournament.
  destruct (tally_counts params baseline (seq 0 num_games) 0 0 0)
    as (w1 & w2 & d & Hrun & H1 & H2 & Hd & Hsum); try lia.
  rewrite length_seq in Hsum.
  exists w1, w2, d. rewrite Hrun.
  repeat (split; [auto; lia|]).
  split; [|split; [|split; [|split; reflexivity]]].
  - intros [-> ->]. rewrite !Z.add_0_l.
    destruct (Z.eqb_spec d 0) as [_|Hne]; [reflexivity|].
    rewrite true_div_zero, true_div_same by lia. vm_compute. reflexivity.
  - intros (-> & -> & Hpos). rewrite Z.add_0_r, !Z.add_0_l.
    destruct (Z.eqb_spec w2 0) as [|_]; [lia|].
    rewrite !true_div_zero. vm_compute. reflexivity.
  - intros (-> & -> & Hpos). rewrite !Z.add_0_r.
    destruct (Z.eqb_spec w1 0) as [|_]; [lia|].
    rewrite true_div_zero, true_div_same by lia. vm_compute. reflexivity.
Qed.

End TournamentFacts.

(* ===================================================================== *)
(** * The size of an evaluation (evaluate.py) *)
(* ===================================================================== *)

Section EvaluationBound.
Import Bitboard FenText.

Variable set_bit : Z -> Z -> Z -> Z.
Variable get_stack_owner : BitboardBoard -> Z -> Z -> option Z.
Variable distance_to_opponent_start : BitboardBoard -> Z -> Z.

(** A bitboard of the 7 x 7 board: 49 bits. *)
Local Abbreviation on49 := (fun bb : Z => 0 <= bb < 2 ^ 49).

Lemma ones_size (p : positive) : 1 <= ones p <= Z.pos (Pos.size p).
Proof. induction p as [p IH|p IH|]; cbn [ones Pos.size]; lia. Qed.

Lemma size_49 (p : positive) : Z.pos p < 2 ^ 49 -> Z.pos (Pos.size p) <= 49.
Proof.
  intros Hp. pose proof (Pos.size_le p) as Hs.
  apply Pos2Z.pos_le_pos in Hs. rewrite Pos2Z.inj_pow in Hs.
  change (Z.pos p~0) with (2 * Z.pos p) in Hs.
  destruct (Z.le_gt_cases (Z.pos (Pos.size p)) 49) as [H|H]; [exact H|].
  assert (H50 : 2 ^ 50 <= 2 ^ Z.pos (Pos.size p))
    by (apply Z.pow_le_mono_r; lia).
  change (2 ^ 50) with (2 * 2 ^ 49) in H50. lia.
Qed.

Lemma bit_count_49 (bb : Z) : on49 bb -> 0 <= bit_count bb <= 49.
Proof.
  intros [H0 H]. destruct bb as [|p|p]; [cbn; lia| |lia].
  cbn [bit_count]. pose proof (ones_size p). pose proof (size_49 p H). lia.
Qed.

Lemma bit_length_49 (bb : Z) : on49 bb -> bb <> 0 -> 1 <= bit_length bb <= 49.
Proof.
  intros [H0 H] Hne. destruct bb as [|p|p]; [easy| |lia].
  cbn [bit_length]. pose proof (Z.log2_nonneg (Z.pos p)).
  assert (Z.log2 (Z.pos p) < 49) by (apply Z.log2_lt_pow2; lia). lia.
Qed.

Lemma range_length (a b : Z) : length (range a b) = Z.to_nat (b - a).
Proof. unfold range. now rewrite length_map, length_seq. Qed.

(** A loop that adds at most [k] in each round. *)
Lemma counter_bound {A} (k : Z) (f : Z -> A -> Z) (l : list A) :
  (forall acc x, acc <= f acc x <= acc + k) ->
  forall acc, acc <= fold_left f l acc <= acc + k * Z.of_nat (length l).
Proof.
  intros Hf. induction l as [|x l IH]; intros acc; cbn [fold_left length].
  - lia.
  - specialize (IH (f acc x)). specialize (Hf acc x). lia.
Qed.

Lemma counters_bound {A} (k : Z) (f : Z * Z -> A -> Z * Z) (l : list A) :
  (forall acc x,
     fst acc <= fst (f acc x) <= fst acc + k /\
     snd acc <= snd (f acc x) <= snd acc + k) ->
  forall acc,
    fst acc <= fst (fold_left f l acc) <= fst acc + k * Z.of_nat (length l) /\
    snd acc <= snd (fold_left f l acc) <= snd acc + k * Z.of_nat (length l).
Proof.
  intros Hf. induction l as [|x l IH]; intros acc; cbn [fold_left length].
  - lia.
  - specialize (IH (f acc x)). specialize (Hf acc x). lia.
Qed.

Lemma material_bound (mine theirs : list Z) :
  Forall on49 mine -> Forall on49 theirs ->
  0 <= my_pieces (fold_left (material_step mine theirs) (range 1 8)
                            (mkMaterial 0 0 0 0)) <= 343 /\
  0 <= enemy_pieces (fold_left (material_step mine theirs) (range 1 8)
                               (mkMaterial 0 0 0 0)) <= 343 /\
  0 <= my_height_total (fold_left (material_step mine theirs) (range 1 8)
                                  (mkMaterial 0 0 0 0)) <= 1225 /\
  0 <= enemy_height_total (fold_left (material_step mine theirs) (range 1 8)
                                     (mkMaterial 0 0 0 0)) <= 1225.
Proof.
  intros Hm Ht.
  assert (Hb : forall towers h, Forall on49 towers ->
            0 <= bit_count (tower towers h) <= 49).
  { intros towers h H. apply bit_count_49.
    apply (tower_P on49); [lia|exact H]. }
  pose proof (Hb mine 1 Hm). pose proof (Hb mine 2 Hm). pose proof (Hb mine 3 Hm).
  pose proof (Hb mine 4 Hm). pose proof (Hb mine 5 Hm). pose proof (Hb mine 6 Hm).
  pose proof (Hb mine 7 Hm).
  pose proof (Hb theirs 1 Ht). pose proof (Hb theirs 2 Ht).
  pose proof (Hb theirs 3 Ht). pose proof (Hb theirs 4 Ht).
  pose proof (Hb theirs 5 Ht). pose proof (Hb theirs 6 Ht).
  pose proof (Hb theirs 7 Ht).
  change (range 1 8) with [1; 2; 3; 4; 5; 6; 7].
  cbn [fold_left material_step my_pieces enemy_pieces my_height_total
       enemy_height_total Z.leb Z.compare Pos.compare Pos.compare_cont].
  lia.
Qed.

Hypothesis set_bit_on49 :
  forall bb x y, on49 bb -> 0 <= x < 7 -> 0 <= y < 7 -> on49 (set_bit bb x y).

Lemma parsed_on49 (fen_str : string) (board : BitboardBoard) (player : Z) :
  parse_fen (parse_rows 7 set_bit) fen_str = Some (board, player) ->
  bitboards on49 board.
Proof.
  unfold parse_fen.
  destruct (PyStr.split_ws (PyStr.strip fen_str)) as [|board_str [|side rest]];
    try discriminate.
  destruct (parse_rows 7 set_bit board_str) as [b|] eqn:Hrows; [|discriminate].
  intros [= <- _].
  apply (parse_rows_bitboards 7 set_bit on49) in Hrows; [exact Hrows|lia|].
  exact set_bit_on49.
Qed.

Lemma evaluate_bound (fen_str : string) (v : Z) :
  evaluate 7 set_bit get_stack_owner distance_to_opponent_start fen_str
           DEFAULT_PARAMS = Some v ->
  - 78125 <= v <= 78125.
Proof.
  unfold evaluate.
  destruct (parse_fen (parse_rows 7 set_bit) fen_str) as [[board player]|] eqn:Hparse;
    [|discriminate].
  apply parsed_on49 in Hparse as (Hrg & Hbg & Hrt & Hbt & _ & _).
  destruct (check_win_by_distance_or_capture _ board player);
    [intros [= <-]; cbn; lia|].
  destruct (check_win_by_distance_or_capture _ board (3 - player));
    [intros [= <-]; cbn; lia|].
  cbv zeta.
  set (mine := if player =? 1 then red_towers board else blue_towers board).
  set (theirs := if player =? 1 then blue_towers board else red_towers board).
  set (mg := if player =? 1 then red_guardian board else blue_guardian board).
  set (eg := if player =? 1 then blue_guardian board else red_guardian board).
  assert (Hmine : Forall on49 mine) by (subst mine; now destruct (player =? 1)).
  assert (Htheirs : Forall on49 theirs) by (subst theirs; now destruct (player =? 1)).
  assert (Hmg : on49 mg) by (subst mg; now destruct (player =? 1)).
  assert (Heg : on49 eg) by (subst eg; now destruct (player =? 1)).
  clearbody mine theirs mg eg.
  (* material and height *)
  pose proof (material_bound mine theirs Hmine Htheirs) as HM.
  set (M := fold_left (material_step mine theirs) (range 1 8) _) in *.
  clearbody M.
  pose proof (bit_count_49 mg Hmg) as Hcmg.
  pose proof (bit_count_49 eg Heg) as Hceg.
  (* mobility *)
  assert (Hmob : 0 <= fold_left (fun acc h : Z => acc + bit_count (tower mine h) * h)
                                (range 1 4) 0 <= 294).
  { assert (Hb : forall h, 0 <= bit_count (tower mine h) <= 49).
    { intros h. apply bit_count_49. apply (tower_P on49); [lia|exact Hmine]. }
    pose proof (Hb 1). pose proof (Hb 2). pose proof (Hb 3).
    change (range 1 4) with [1; 2; 3]. cbn [fold_left]. lia. }
  set (mob := fold_left (fun acc h : Z => acc + bit_count (tower mine h) * h)
                        (range 1 4) 0) in *.
  clearbody mob.
  (* aggression *)
  match goal with
  | |- context [fold_left ?f (range 1 4) 0] =>
      assert (Hthr : 0 <= fold_left f (range 1 4) 0 <= 60);
        [|set (thr := fold_left f (range 1 4) 0) in *; clearbody thr]
  end.
  { match goal with
    | |- _ <= fold_left ?f _ _ <= _ =>
        pose proof (counter_bound 20 f (range 1 4)) as Hc
    end.
    rewrite range_length in Hc. apply Hc. intros acc h.
    match goal with
    | |- _ <= fold_left ?g ?l _ <= _ =>
        pose proof (counter_bound 1 g l) as Hi
    end.
    rewrite range_length in Hi. apply Hi. intros acc' pos.
    destruct (has_bit _ _); [|lia]. destruct (_ <=? _); lia. }
  (* positional control *)
  match goal with
  | |- context [fold_left ?f center_squares (0, 0)] =>
      pose proof (counters_bound 1 f center_squares) as Hcen;
        destruct (fold_left f center_squares (0, 0)) as [my_center enemy_center]
          eqn:Ecen
  end.
  assert (Hcenter : 0 <= my_center <= 6 /\ 0 <= enemy_center <= 6).
  { specialize (Hcen ltac:(
      intros [m t] [x y]; cbn [fst snd];
      destruct (get_stack_owner board x y) as [owner|]; [|cbn [fst snd]; lia];
      destruct (owner =? player); [cbn [fst snd]; lia|];
      destruct (owner =? 3 - player); cbn [fst snd]; lia) (0, 0)).
    rewrite Ecen in Hcen. cbn [fst snd length center_squares] in Hcen. lia. }
  clear Hcen Ecen.
  (* positioning *)
  match goal with
  | |- context [fold_left ?f (range 1 3) (0, 0)] =>
      pose proof (counters_bound 21 f (range 1 3)) as Hadv;
        destruct (fold_left f (range 1 3) (0, 0)) as [my_advanced enemy_advanced]
          eqn:Eadv
  end.
  assert (Hadvanced : 0 <= my_advanced <= 42 /\ 0 <= enemy_advanced <= 42).
  { specialize (Hadv ltac:(
      intros acc h; cbv beta;
      match goal with
      | |- context [fold_left ?g ?l acc] =>
          pose proof (counters_bound 1 g l) as Hi
      end;
      rewrite range_length in Hi; apply Hi; intros [m t] pos;
      destruct (_ && _); [cbn [fst snd]; lia|];
      destruct (_ && _); cbn [fst snd]; lia) (0, 0)).
    rewrite Eadv, range_length in Hadv. cbn [fst snd] in Hadv. lia. }
  clear Hadv Eadv.
  (* the guardian *)
  set (pos := bit_length mg - 1) in *.
  assert (Hgx : 0 <= pos mod 7 < 7) by (apply Z.mod_pos_bound; lia).
  assert (Hgy : mg <> 0 -> 0 <= pos / 7 <= 6).
  { intros Hne. pose proof (bit_length_49 mg Hmg Hne). subst pos.
    assert ((bit_length mg - 1) / 7 < 7) by (apply Z.div_lt_upper_bound; lia).
    split; [apply Z.div_pos; lia|lia]. }
  set (gx := pos mod 7) in *. set (gy := pos / 7) in *.
  clearbody gx gy.
  change (guardian_safety DEFAULT_PARAMS / 2) with 100.
  cbn [material_weight guardian_advance center_control tower_height aggression
       mobility positioning tempo DEFAULT_PARAMS].
  destruct (Z.eqb_spec mg 0) as [Hz|Hnz]; [|specialize (Hgy Hnz)]; cbn [negb];
    repeat match goal with
           | |- context [if ?c then _ else _] => destruct c
           end;
    cbn [fst snd]; intros [= <-]; lia.
Qed.

(** X22. With the default parameters no evaluation reaches [WIN_SCORE],
    the value by which the search recognises a win, in either direction:
    whatever the position, its evaluation lies strictly between
    [-WIN_SCORE] and [WIN_SCORE].  The board is the 7 x 7 board, and
    setting the bit of one of its squares keeps a bitboard within 49
    bits. *)
Theorem evaluation_below_win_score (fen_str : string) (v : Z) :
  evaluate 7 set_bit get_stack_owner distance_to_opponent_start fen_str
           DEFAULT_PARAMS = Some v ->
  - WIN_SCORE < v < WIN_SCORE.
Proof.
  intros H. apply evaluate_bound in H. unfold WIN_SCORE. lia.
Qed.


End EvaluationBound.

(* ===================================================================== *)
(** * What Min_max.py computes *)
(* ===================================================================== *)

Section MinMaxValue.

Variable E : Env.

Local Abbreviation RulesE := (Rules (Board E)).
Local Abbreviation WIN := MinMax.WIN_SCORE.

(** A value between a lost and a won game. *)
Local Abbreviation bounded s := (exists z, s = Fin z /\ - WIN <= z <= WIN).

(** ** The order of scores *)

Lemma max_comm (a b : Score) : Score.max a b = Score.max b a.
Proof.
  unfold Score.max, Score.ltb, Score.leb.
  destruct a as [|x|], b as [|y|]; try reflexivity.
  destruct (Z.leb_spec y x), (Z.leb_spec x y); cbn; try reflexivity;
    f_equal; lia.
Qed.

Lemma max_assoc (a b c : Score) :
  Score.max (Score.max a b) c = Score.max a (Score.max b c).
Proof.
  unfold Score.max, Score.ltb, Score.leb.
  destruct a as [|x|], b as [|y|], c as [|z|]; cbn; try reflexivity;
    repeat match goal with
           | |- context [?u <=? ?v] => destruct (Z.leb_spec u v); cbn
           end; try reflexivity; try lia; f_equal; lia.
Qed.

Lemma max_bounded (a b : Score) :
  a = NegInf \/ bounded a -> bounded b -> bounded (Score.max a b).
Proof.
  intros Ha (y & -> & Hy). unfold Score.max, Score.ltb, Score.leb.
  destruct Ha as [->|(x & -> & Hx)]; [now exists y|].
  destruct (y <=? x); cbn; [now exists x|now exists y].
Qed.

(** A best score of [WIN_SCORE] or more is not improved by a bounded
    score. *)
Lemma max_at_win (a b : Score) :
  Score.leb (Fin WIN) a = true -> bounded b -> Score.max a b = a.
Proof.
  intros Ha (y & -> & Hy). unfold Score.max, Score.ltb, Score.leb in *.
  destruct a as [|x|]; [discriminate| |reflexivity].
  apply Z.leb_le in Ha. destruct (Z.leb_spec y x); cbn; [reflexivity|lia].
Qed.

Lemma fold_max_perm {A} (f : A -> Score) (l l' : list A) (a : Score) :
  Permutation l l' ->
  fold_left (fun best x => Score.max best (f x)) l a
  = fold_left (fun best x => Score.max best (f x)) l' a.
Proof.
  intros Hp. revert a. induction Hp as [|x l l' _ IH|x y l|l l' l'' _ IH1 _ IH2];
    intros a; cbn [fold_left].
  - reflexivity.
  - apply IH.
  - f_equal. rewrite !max_assoc. f_equal. apply max_comm.
  - now rewrite IH1.
Qed.

Lemma fold_max_bounded {A} (f : A -> Score) (l : list A) (a : Score) :
  (forall x, bounded (f x)) ->
  a = NegInf \/ bounded a -> l <> [] \/ bounded a ->
  bounded (fold_left (fun best x => Score.max best (f x)) l a).
Proof.
  intros Hf. revert a. induction l as [|x l IH]; intros a Ha Hstart;
    cbn [fold_left].
  - now destruct Hstart.
  - assert (Hb : bounded (Score.max a (f x))) by now apply max_bounded.
    apply IH; now right.
Qed.

Lemma fold_max_at_win {A} (f : A -> Score) (l : list A) (a : Score) :
  (forall x, bounded (f x)) -> Score.leb (Fin WIN) a = true ->
  fold_left (fun best x => Score.max best (f x)) l a = a.
Proof.
  intros Hf Ha. induction l as [|x l IH]; cbn [fold_left]; [reflexivity|].
  now rewrite max_at_win.
Qed.

Lemma fold_max_ge {A} (f : A -> Score) (l : list A) (a : Score) :
  Score.leb a (fold_left (fun best x => Score.max best (f x)) l a) = true /\
  forall x, In x l ->
    Score.leb (f x) (fold_left (fun best x => Score.max best (f x)) l a) = true.
Proof.
  assert (Hrefl : forall s, Score.leb s s = true)
    by (intros [|z|]; unfold Score.leb; try reflexivity; apply Z.leb_refl).
  assert (Hmax : forall u v, Score.leb u (Score.max u v) = true /\
                             Score.leb v (Score.max u v) = true).
  { intros u v. unfold Score.max, Score.ltb. destruct (Score.leb v u) eqn:H; cbn.
    - split; [apply Hrefl|exact H].
    - split; [|apply Hrefl]. unfold Score.leb in *.
      destruct u as [|x|], v as [|y|]; try easy.
      apply Z.leb_le. apply Z.leb_gt in H. lia. }
  revert a. induction l as [|y l IH]; intros a; cbn [fold_left].
  - split; [apply Hrefl|intros x []].
  - destruct (IH (Score.max a (f y))) as [H1 H2].
    destruct (Hmax a (f y)) as [Ha Hy]. split.
    + eapply leb_trans; eassumption.
    + intros x [<-|Hx]; [eapply leb_trans; eassumption|now apply H2].
Qed.

(** ** Values *)

Hypothesis evaluate_bounded :
  forall fen, - WIN <= evaluate E fen (DEFAULT_PARAMS E) <= WIN.

Lemma plain_value_bounded (depth : nat) (rules : RulesE) (player : Z) :
  bounded (plain_value E depth rules player).
Proof.
  revert rules player. induction depth as [|d IH]; intros rules player;
    cbn [plain_value].
  - destruct (check_win_by_distance_or_capture E _ _);
      [eexists; split; [reflexivity|unfold MinMax.WIN_SCORE; lia]|].
    destruct (check_win_by_distance_or_capture E _ _);
      [eexists; split; [reflexivity|unfold MinMax.WIN_SCORE; lia]|].
    eexists; split; [reflexivity|apply evaluate_bounded].
  - destruct (check_win_by_distance_or_capture E _ _);
      [eexists; split; [reflexivity|unfold MinMax.WIN_SCORE; lia]|].
    destruct (check_win_by_distance_or_capture E _ _);
      [eexists; split; [reflexivity|unfold MinMax.WIN_SCORE; lia]|].
    destruct (get_legal_moves E rules player) as [|m ms];
      [eexists; split; [reflexivity|apply evaluate_bounded]|].
    apply fold_max_bounded; [|now left|left; discriminate].
    intros x. destruct (IH (set_current_player (make_move E rules x) (3 - player))
                           (3 - player)) as (z & -> & Hz).
    exists (- z). split; [reflexivity|lia].
Qed.

Lemma move_value_bounded (depth1 : nat) (rules : RulesE) (player : Z) (mv : Move) :
  bounded (move_value E depth1 rules player mv).
Proof.
  unfold move_value.
  destruct (plain_value_bounded depth1
              (set_current_player (make_move E rules mv) (3 - player))
              (3 - player)) as (z & -> & Hz).
  exists (- z). split; [reflexivity|lia].
Qed.

(** The loop of [minmax] with its early exit gives the maximum over all
    its moves. *)
Lemma minmax_moves_value (rec : RulesE -> Z -> option (Score * Z))
    (g : RulesE -> Score) (rules : RulesE) (player : Z) :
  (forall r n w n', rec r n = Some (w, n') -> w = g r) ->
  (forall r, bounded (g r)) ->
  forall (moves : list Move) (best : Score) (n : Z) (v : Score) (n' : Z),
    MinMax.minmax_moves E rec rules player moves best n = Some (v, n') ->
    v = fold_left
          (fun best move =>
             Score.max best
               (Score.neg
                  (g (set_current_player (make_move E rules move) (3 - player)))))
          moves best.
Proof.
  intros Hrec Hg moves.
  assert (Hneg : forall mv,
            bounded (Score.neg
                       (g (set_current_player (make_move E rules mv) (3 - player))))).
  { intros mv. destruct (Hg (set_current_player (make_move E rules mv) (3 - player)))
      as (z & -> & Hz). exists (- z). split; [reflexivity|lia]. }
  induction moves as [|mv rest IH]; intros best n v n';
    cbn [MinMax.minmax_moves fold_left].
  - now intros [= <- _].
  - destruct (rec _ n) as [[w k]|] eqn:Hr; [|discriminate].
    apply Hrec in Hr. subst w.
    change (if Score.ltb best ?s then ?s else best) with (Score.max best s).
    destruct (Score.leb (Fin MinMax.WIN_SCORE) (Score.max best _)) eqn:Hwin.
    + intros [= <- _]. symmetry.
      apply (fold_max_at_win
               (fun move =>
                  Score.neg
                    (g (set_current_player (make_move E rules move) (3 - player)))));
        [exact Hneg|exact Hwin].
    + apply IH.
Qed.

Lemma minmax_value (depth : nat) (rules : RulesE) (player n : Z)
    (v : Score) (n' : Z) :
  MinMax.minmax E depth rules player n = Some (v, n') ->
  v = plain_value E depth rules player.
Proof.
  revert rules player n v n'.
  induction depth as [|d IH]; intros rules player n v n';
    cbn [MinMax.minmax plain_value].
  - repeat (destruct (check_win_by_distance_or_capture E _ _);
            [now intros [= <- _]|]).
    now intros [= <- _].
  - repeat (destruct (check_win_by_distance_or_capture E _ _);
            [now intros [= <- _]|]).
    destruct (get_legal_moves E rules player) as [|m ms] eqn:Hmoves;
      [now intros [= <- _]|].
    destruct (MinMax.order_moves E rules (m :: ms)) as [ordered|] eqn:Hord;
      [|discriminate].
    intros H.
    apply (minmax_moves_value
             (fun r k => MinMax.minmax E d r (3 - player) k)
             (fun r => plain_value E d r (3 - player))) in H.
    + rewrite H. apply fold_max_perm. now apply order_moves_perm in Hord.
    + intros r k w k'. apply IH.
    + intros r. apply plain_value_bounded.
Qed.

(** ** The move chosen *)

Lemma leb_refl (s : Score) : Score.leb s s = true.
Proof. destruct s as [|z|]; unfold Score.leb; try reflexivity. apply Z.leb_refl. Qed.

Lemma ltb_leb (a b : Score) : Score.ltb a b = true -> Score.leb a b = true.
Proof.
  unfold Score.ltb, Score.leb. destruct a as [|x|], b as [|y|]; try easy.
  intros H. apply negb_true_iff, Z.leb_gt in H. apply Z.leb_le. lia.
Qed.

Lemma bounded_below_win (a b : Score) :
  bounded b -> Score.leb (Fin WIN) a = true -> Score.leb b a = true.
Proof.
  intros (y & -> & Hy) Ha. unfold Score.leb in *.
  destruct a as [|x|]; [discriminate| |reflexivity].
  apply Z.leb_le in Ha. apply Z.leb_le. lia.
Qed.

Lemma win_trials_Some (rules : RulesE) (player : Z) (moves : list Move) (n : Z)
    (mv : Move) :
  fst (MinMax.win_trials E rules player moves n) = Some mv ->
  check_win_by_distance_or_capture E (board (make_move E rules mv)) player = true.
Proof.
  revert n. induction moves as [|m rest IH]; intros n; cbn [MinMax.win_trials];
    [discriminate|].
  destruct (check_win_by_distance_or_capture E (board (make_move E rules m)) player)
    eqn:Hw.
  - now intros [= <-].
  - apply IH.
Qed.

Lemma win_trials_None (rules : RulesE) (player : Z) (moves : list Move) (n : Z) :
  fst (MinMax.win_trials E rules player moves n) = None ->
  forall m, In m moves ->
    check_win_by_distance_or_capture E (board (make_move E rules m)) player = false.
Proof.
  revert n. induction moves as [|m rest IH]; intros n; cbn [MinMax.win_trials].
  - intros _ x [].
  - destruct (check_win_by_distance_or_capture E (board (make_move E rules m)) player)
      eqn:Hw; [discriminate|].
    intros H x [<-|Hx]; [exact Hw|exact (IH _ H x Hx)].
Qed.

(** The second loop of [choose_best_move] ends holding a move none of its
    moves is worth more than. *)
Lemma root_trials_best (depth1 : nat) (rules : RulesE) (player : Z)
    (moves : list Move) :
  forall (best_move : option Move) (best_score : Score) (n : Z)
         (m : Move) (n' : Z),
    match best_move with
    | None => best_score = NegInf
    | Some m0 => best_score = move_value E depth1 rules player m0
    end ->
    MinMax.root_trials E depth1 rules player moves best_move best_score n
    = Some (Some m, n') ->
    Score.leb best_score (move_value E depth1 rules player m) = true /\
    forall x, In x moves ->
      Score.leb (move_value E depth1 rules player x)
                (move_value E depth1 rules player m) = true.
Proof.
  induction moves as [|mv rest IH]; intros best_move best_score n m n' Hinv;
    cbn [MinMax.root_trials].
  - intros [= -> _]. rewrite Hinv. split; [apply leb_refl|intros x []].
  - destruct (MinMax.minmax E depth1 _ (3 - player) (n + 1)) as [[w k]|] eqn:Hm;
      [|discriminate].
    apply minmax_value in Hm. subst w.
    fold (move_value E depth1 rules player mv).
    pose proof (move_value_bounded depth1 rules player) as Hb.
    destruct (Score.ltb best_score (move_value E depth1 rules player mv)) eqn:Hlt;
      cbn beta iota zeta.
    + apply ltb_leb in Hlt.
      destruct (Score.leb (Fin MinMax.WIN_SCORE) (move_value E depth1 rules player mv))
        eqn:Hwin.
      * intros [= <- _]. split; [exact Hlt|].
        intros x [<-|Hx]; [apply leb_refl|now apply bounded_below_win].
      * intros H. destruct (IH (Some mv) _ _ _ _ eq_refl H) as [H1 H2]. split.
        -- eapply leb_trans; eassumption.
        -- intros x [<-|Hx]; [exact H1|now apply H2].
    + apply not_ltb_leb in Hlt.
      destruct (Score.leb (Fin MinMax.WIN_SCORE) best_score) eqn:Hwin.
      * intros [= -> _]. rewrite Hinv in *. split; [apply leb_refl|].
        intros x [<-|Hx]; [exact Hlt|now apply bounded_below_win].
      * intros H. destruct (IH _ _ _ _ _ Hinv H) as [H1 H2]. split; [exact H1|].
        intros x [<-|Hx]; [eapply leb_trans; eassumption|now apply H2].
Qed.

(** X23. [minmax] of Min_max.py computes the depth-limited negamax value
    of the position.  With a rules engine that moves pieces from occupied
    squares only and evaluations between [-WIN_SCORE] and [WIN_SCORE], the
    call returns, and what it returns is the value obtained by searching
    every legal move at every node: an integer between [-WIN_SCORE] and
    [WIN_SCORE].  The move ordering and the early exit at [WIN_SCORE] do not
    change the value. *)
Theorem minmax_is_negamax (depth : nat) (rules : RulesE) (player n : Z) :
  (forall (rules : RulesE) (player : Z) (mv : Move),
     In mv (get_legal_moves E rules player) ->
     get_top_piece_type E (board rules) (fst (fst (fst mv))) (snd (fst (fst mv)))
     <> None) ->
  exists (z n' : Z),
    MinMax.minmax E depth rules player n = Some (Fin z, n') /\
    Fin z = plain_value E depth rules player /\
    - MinMax.WIN_SCORE <= z <= MinMax.WIN_SCORE.
Proof.
  intros Hocc.
  destruct (minmax_total E Hocc depth rules player n) as (v & n' & Hret).
  pose proof (minmax_value _ _ _ _ _ _ Hret) as Hv.
  destruct (plain_value_bounded depth rules player) as (z & Hz & Hb).
  exists z, n'. rewrite Hret, Hv, Hz. auto.
Qed.

(** X24. The move [choose_best_move] of Min_max.py returns is a legal
    move that wins at once, if there is one; otherwise it is a legal move
    of the greatest depth-limited negamax value: no legal move is worth
    more, [depth - 1] plies ahead of the position it leads to, than the
    move returned. *)
Theorem minmax_choice_is_best (fen_str : string) (depth1 : nat) (n : Z)
    (root : Board E) (player : Z) (mv : Move) (n' : Z) :
  parse_fen (parse_rows E) fen_str = Some (root, player) ->
  MinMax.choose_best_move E fen_str (S depth1) n = Some (mv, n') ->
  In mv (get_legal_moves E (mkRules root player) player) /\
  (check_win_by_distance_or_capture E
     (board (make_move E (mkRules root player) mv)) player = true \/
   ((forall m, In m (get_legal_moves E (mkRules root player) player) ->
       check_win_by_distance_or_capture E
         (board (make_move E (mkRules root player) m)) player = false) /\
    (forall m, In m (get_legal_moves E (mkRules root player) player) ->
       Score.leb (move_value E depth1 (mkRules root player) player m)
                 (move_value E depth1 (mkRules root player) player mv) = true))).
Proof.
  intros Hparse. unfold MinMax.choose_best_move. rewrite Hparse.
  destruct (MinMax.order_moves E _ _) as [ordered|] eqn:Hord; [|discriminate].
  apply order_moves_perm in Hord.
  replace (S depth1 - 1)%nat with depth1 by lia.
  destruct (MinMax.win_trials E _ player ordered n) as [[m|] k] eqn:Hw.
  - intros [= -> _].
    assert (Hfst : fst (MinMax.win_trials E (mkRules root player) player ordered n)
                   = Some mv) by now rewrite Hw.
    split.
    + eapply Permutation_in; [exact Hord|]. exact (win_trials_In E _ _ _ _ _ Hfst).
    + left. exact (win_trials_Some _ _ _ _ _ Hfst).
  - assert (Hfst : fst (MinMax.win_trials E (mkRules root player) player ordered n)
                   = None) by now rewrite Hw.
    destruct (MinMax.root_trials E depth1 _ player ordered None NegInf k)
      as [[[best|] k']|] eqn:Hr; try discriminate.
    intros [= -> _].
    destruct (root_trials_best depth1 (mkRules root player) player ordered
                None NegInf k mv k' eq_refl Hr) as [_ Hbest].
    split.
    + eapply Permutation_in; [exact Hord|].
      destruct (root_trials_In E _ _ _ _ _ _ _ _ _ Hr) as [Hin|Heq];
        [exact Hin|discriminate].
    + right. split.
      * intros x Hx. apply (win_trials_None _ _ _ _ Hfst).
        eapply Permutation_in; [symmetry; exact Hord|exact Hx].
      * intros x Hx. apply Hbest.
        eapply Permutation_in; [symmetry; exact Hord|exact Hx].
Qed.

End MinMaxValue.

(* ===================================================================== *)
(** * Moves as text: what the demo reads back *)
(* ===================================================================== *)

Module DemoFacts.
Import PyStr PyStrMore PyStrMoreFacts MoveText Demo.

Local Arguments String.append !_ _ / : simpl nomatch.

(** ** Texts without white space *)

Lemma no_space_app (a b : string) :
  no_space (a ++ b) = no_space a && no_space b.
Proof.
  induction a as [|c a IH]; cbn [String.append no_space]; [reflexivity|].
  now rewrite IH, andb_assoc.
Qed.

Lemma lstrip_no_space (s : string) : no_space s = true -> lstrip s = s.
Proof.
  destruct s as [|c s]; [reflexivity|]. cbn [no_space lstrip].
  intros H. apply andb_true_iff in H as [Hc _].
  apply negb_true_iff in Hc. now rewrite Hc.
Qed.

Lemma no_space_rev_app (s acc : string) :
  no_space s = true -> no_space acc = true ->
  no_space (String.rev_app s acc) = true.
Proof.
  revert acc. induction s as [|c s IH]; intros acc Hs Hacc; [exact Hacc|].
  cbn [no_space] in Hs. apply andb_true_iff in Hs as [Hc Hs].
  cbn [String.rev_app]. apply IH; [exact Hs|]. cbn [no_space].
  now rewrite Hc, Hacc.
Qed.

Lemma strip_no_space (s : string) : no_space s = true -> strip s = s.
Proof.
  intros Hs. unfold strip, rstrip. rewrite (lstrip_no_space s Hs).
  rewrite lstrip_no_space; [apply rev_rev|].
  now apply no_space_rev_app.
Qed.

Lemma int_space_is_space (c : ascii) :
  is_int_space c = true -> is_space c = true.
Proof.
  destruct c as [[] [] [] [] [] [] [] []]; vm_compute; intros H;
    first [reflexivity|discriminate H].
Qed.

Lemma int_lstrip_no_space (s : string) : no_space s = true -> int_lstrip s = s.
Proof.
  destruct s as [|c s]; [reflexivity|]. cbn [no_space int_lstrip].
  intros H. apply andb_true_iff in H as [Hc _]. apply negb_true_iff in Hc.
  destruct (is_int_space c) eqn:Hi; [|reflexivity].
  apply int_space_is_space in Hi. congruence.
Qed.

Lemma int_strip_no_space (s : string) : no_space s = true -> int_strip s = s.
Proof.
  intros Hs. unfold int_strip. rewrite (int_lstrip_no_space s Hs).
  rewrite int_lstrip_no_space; [apply rev_rev|].
  now apply no_space_rev_app.
Qed.

Lemma linebreak_is_space (c : ascii) :
  is_linebreak c = true -> is_space c = true.
Proof.
  destruct c as [[] [] [] [] [] [] [] []]; vm_compute; intros H;
    first [reflexivity|discriminate H].
Qed.

Lemma before_linebreak_no_space (s : string) :
  no_space s = true -> before_linebreak s = s.
Proof.
  induction s as [|c s IH]; [reflexivity|]. cbn [no_space before_linebreak].
  intros H. apply andb_true_iff in H as [Hc Hs].
  destruct (is_linebreak c) eqn:Hl.
  - apply linebreak_is_space in Hl. now rewrite Hl in Hc.
  - now rewrite IH.
Qed.

Lemma first_line_no_space (s : string) :
  s <> EmptyString -> no_space s = true -> first_line s = Some s.
Proof.
  intros Hne Hs. unfold first_line. rewrite (before_linebreak_no_space s Hs).
  destruct s; [contradiction|reflexivity].
Qed.

Lemma digit_not_space (c : ascii) :
  Bitboard.isdigit c = true -> is_space c = false.
Proof.
  destruct c as [[] [] [] [] [] [] [] []]; vm_compute; intros H;
    first [reflexivity|discriminate H].
Qed.

Lemma digits_no_space (s : string) : all_digits s = true -> no_space s = true.
Proof.
  induction s as [|c s IH]; [reflexivity|]. cbn [all_digits no_space].
  intros H. apply andb_true_iff in H as [Hc Hs].
  now rewrite (digit_not_space c Hc), IH.
Qed.

Lemma isdigit_no_space (s : string) : isdigit s = true -> no_space s = true.
Proof. destruct s as [|c s]; [discriminate|]. apply digits_no_space. Qed.

Lemma str_no_space (n : Z) : no_space (str n) = true.
Proof.
  destruct (Z.le_gt_cases 0 n) as [Hn|Hn].
  - apply isdigit_no_space. now apply MoveTextFacts.str_nonneg.
  - destruct (MoveTextFacts.str_neg n) as (d & -> & Hd); [lia|].
    cbn [no_space]. now rewrite (isdigit_no_space d Hd).
Qed.

Lemma coord_no_space (x y : Z) :
  0 <= x < 26 -> no_space (coord_to_notation x y) = true.
Proof.
  intros Hx. unfold coord_to_notation. cbn [no_space].
  rewrite str_no_space, andb_true_r. apply negb_true_iff.
  unfold is_space, chr. change (ord "A") with 65.
  rewrite nat_ascii_embedding by lia.
  repeat match goal with
         | |- context [(?a <=? ?b)%nat] => destruct (Nat.leb_spec a b)
         | |- context [(?a =? ?b)%nat] => destruct (Nat.eqb_spec a b)
         end; cbn; try reflexivity; lia.
Qed.

Lemma format_no_space (fx fy tx ty height : Z) :
  0 <= fx < 26 -> 0 <= tx < 26 ->
  no_space (format_move_description ((fx, fy), (tx, ty), height)) = true.
Proof.
  intros Hfx Htx. unfold format_move_description. cbn [fst snd].
  rewrite !no_space_app, !coord_no_space, str_no_space by assumption.
  reflexivity.
Qed.

(** ** The fields of a move *)

Lemma format_fields (fx fy tx ty height : Z) :
  0 <= fx < 191 -> 0 <= tx < 191 -> fy <= 7 -> ty <= 7 ->
  split_on "-" (format_move_description ((fx, fy), (tx, ty), height))
  = coord_to_notation fx fy :: coord_to_notation tx ty
    :: split_on "-" (str height).
Proof.
  intros Hfx Htx Hfy Hty. unfold format_move_description. cbn [fst snd].
  change ("-" ++ ?s)%string with (String "-" s).
  rewrite MoveTextFacts.split_on_lacks by now apply MoveTextFacts.coord_lacks_dash.
  change ("-" ++ str height)%string with (String "-" (str height)).
  rewrite MoveTextFacts.split_on_lacks by now apply MoveTextFacts.coord_lacks_dash.
  reflexivity.
Qed.

Lemma str_fields (height : Z) :
  split_on "-" (str height)
  = if 0 <=? height then [str height]
    else [EmptyString; str (- height)].
Proof.
  destruct (Z.leb_spec 0 height) as [Hh|Hh].
  - apply MoveTextFacts.split_on_lacks_end, MoveTextFacts.isdigit_lacks_dash.
    now apply MoveTextFacts.str_nonneg.
  - destruct height as [|p|p]; [lia|lia|].
    change (- Z.neg p) with (Z.pos p).
    assert (Hd : isdigit (str (Z.pos p)) = true)
      by (apply MoveTextFacts.str_nonneg; lia).
    change (str (Z.neg p)) with ("" ++ String "-" (str (Z.pos p)))%string.
    rewrite MoveTextFacts.split_on_lacks by reflexivity.
    rewrite MoveTextFacts.split_on_lacks_end
      by now apply MoveTextFacts.isdigit_lacks_dash.
    reflexivity.
Qed.

(** ** Squares *)

Lemma str_one_digit (d : Z) :
  0 <= d <= 9 ->
  exists c, str d = String c EmptyString /\ Bitboard.int_of_char c = Some d.
Proof.
  intros Hd.
  assert (H : d = 0 \/ d = 1 \/ d = 2 \/ d = 3 \/ d = 4 \/ d = 5 \/ d = 6
              \/ d = 7 \/ d = 8 \/ d = 9) by lia.
  repeat (destruct H as [->|H]; [eexists; split; reflexivity|]).
  subst d. eexists; split; reflexivity.
Qed.

Lemma read_square_coord (x y : Z) :
  0 <= x < 191 -> -2 <= y <= 7 ->
  read_square (coord_to_notation x y) = Some (x, y).
Proof.
  intros Hx Hy. unfold coord_to_notation.
  destruct (str_one_digit (7 - y)) as (c & -> & Hc); [lia|].
  unfold read_square. cbn [String.get]. rewrite Hc.
  unfold ord at 1, chr. change (ord "A") with 65.
  rewrite nat_ascii_embedding by lia. do 2 f_equal; lia.
Qed.

(** ** Integers *)

Lemma digits_value_acc (u : Decimal.uint) (acc : positive) :
  digits_value (Z.pos acc) true (NilEmpty.string_of_uint u)
  = Some (Z.pos (Pos.of_uint_acc u acc)).
Proof.
  revert acc.
  induction u as [|u IH|u IH|u IH|u IH|u IH|u IH|u IH|u IH|u IH|u IH];
    intros acc; [reflexivity|..];
    cbn [NilEmpty.string_of_uint digits_value Pos.of_uint_acc];
    change (Ascii.eqb _ "_") with false; cbv iota;
    match goal with
    | |- context [Bitboard.int_of_char ?c] =>
        let v := eval vm_compute in (Bitboard.int_of_char c) in
        change (Bitboard.int_of_char c) with v
    end; cbv iota beta;
    match goal with
    | |- digits_value ?a true _ = Some (Z.pos (Pos.of_uint_acc _ ?b)) =>
        replace a with (Z.pos b) by lia
    end; apply IH.
Qed.

Lemma digits_value_zero (u : Decimal.uint) :
  digits_value 0 true (NilEmpty.string_of_uint u)
  = Some (Z.of_N (Pos.of_uint u)).
Proof.
  induction u as [|u IH|u IH|u IH|u IH|u IH|u IH|u IH|u IH|u IH|u IH];
    [reflexivity|exact IH|..];
    cbn [NilEmpty.string_of_uint digits_value Pos.of_uint];
    change (Ascii.eqb _ "_") with false; cbv iota;
    match goal with
    | |- context [Bitboard.int_of_char ?c] =>
        let v := eval vm_compute in (Bitboard.int_of_char c) in
        change (Bitboard.int_of_char c) with v
    end; cbv iota beta;
    match goal with
    | |- digits_value ?a true _ = _ =>
        let v := eval vm_compute in a in change a with v
    end; apply digits_value_acc.
Qed.

Lemma digits_value_uint (u : Decimal.uint) :
  u <> Decimal.Nil ->
  digits_value 0 false (NilEmpty.string_of_uint u)
  = Some (Z.of_N (Pos.of_uint u)).
Proof.
  intros Hu. rewrite <- digits_value_zero.
  destruct u; [contradiction|..]; reflexivity.
Qed.

Lemma digits_value_str (n : Z) :
  0 <= n -> digits_value 0 false (str n) = Some n.
Proof.
  intros Hn. destruct n as [|p|p]; [reflexivity| |lia].
  unfold str. cbn [Z.to_int NilZero.string_of_int].
  assert (Hne : Pos.to_uint p <> Decimal.Nil).
  { intros Heq. pose proof (DecimalPos.Unsigned.of_to p) as H.
    rewrite Heq in H. discriminate H. }
  unfold NilZero.string_of_uint.
  destruct (Pos.to_uint p) eqn:Hu; [contradiction|..];
    rewrite <- Hu; rewrite digits_value_uint by (rewrite Hu; discriminate);
    now rewrite DecimalPos.Unsigned.of_to.
Qed.

Lemma digit_count_digits (s : string) :
  all_digits s = true -> digit_count s = String.length s.
Proof.
  induction s as [|c s IH]; [reflexivity|]. cbn [all_digits digit_count String.length].
  intros H. apply andb_true_iff in H as [Hc Hs].
  destruct (Ascii.eqb_spec c "_") as [->|_]; [discriminate|].
  now rewrite IH.
Qed.

(** [int] reads back what [str] writes. *)
Lemma int_str (n : Z) :
  0 <= n -> (String.length (str n) <= max_str_digits)%nat ->
  int (str n) = Some n.
Proof.
  intros Hn Hlen. unfold int. rewrite (int_strip_no_space _ (str_no_space n)).
  pose proof (digits_value_str n Hn) as Hv.
  pose proof (MoveTextFacts.str_nonneg n Hn) as Hd.
  destruct (str n) as [|c s] eqn:Hs; [discriminate|].
  cbn [isdigit] in Hd. pose proof Hd as Hall.
  cbn [all_digits] in Hd. apply andb_true_iff in Hd as [Hc _].
  destruct (Ascii.eqb_spec c "-") as [->|_]; [discriminate|].
  destruct (Ascii.eqb_spec c "+") as [->|_]; [discriminate|].
  unfold literal. rewrite Hv, (digit_count_digits _ Hall).
  destruct (Nat.ltb_spec max_str_digits (String.length (String c s)));
    [lia|reflexivity].
Qed.

(** X25. The demo reads back the moves the engine writes: for a move
    between squares of columns A to Z and of rows 0 to 9, of a height
    that [str] writes in at most 4300 digits, the part of [get_next_fen]
    that reads the text of a move gets, from the text
    [format_move_description] writes, the move itself when the height is
    not negative; when it is negative, the text has four fields and
    [get_next_fen] returns [None]. *)
Theorem read_move_round_trip (fx fy tx ty height : Z) :
  0 <= fx < 26 -> 0 <= tx < 26 -> -2 <= fy <= 7 -> -2 <= ty <= 7 ->
  (String.length (str height) <= max_str_digits)%nat ->
  read_move (format_move_description ((fx, fy), (tx, ty), height))
  = if 0 <=? height then Some (Some ((fx, fy), (tx, ty), height))
    else Some None.
Proof.
  intros Hfx Htx Hfy Hty Hlen. unfold read_move.
  rewrite strip_no_space by now apply format_no_space.
  rewrite first_line_no_space;
    [|unfold format_move_description, coord_to_notation; discriminate
     |now apply format_no_space].
  rewrite format_fields, str_fields by lia.
  destruct (Z.leb_spec 0 height) as [Hh|Hh]; [|reflexivity].
  rewrite !read_square_coord by lia.
  now rewrite int_str.
Qed.

End DemoFacts.

(* ===================================================================== *)
(** * The properties above on concrete positions *)
(* ===================================================================== *)

Module Runs.
Import Toy.

(** The deadline test rounds as floats do: 0.1 + 0.2 - 0.05 is above
    0.25 and 1.3 - 0.05 is 1.25, where exact arithmetic gives 0.25 and
    less than 1.25. *)
Lemma deadline_rounds_as_floats :
  timed_out (Float.add 0.1 0.2) 0.25 = false /\
  Qle_bool (0.1 + 0.2 - 0.05) 0.25 = true /\
  timed_out (Float.fl 1.3) 1.25 = true /\
  Qle_bool (Float.fl 1.3 - 0.05) 1.25 = false /\
  timed_out (Float.add 0.8 0.5) 1.25 = true.
Proof. vm_compute. repeat split. Qed.

Lemma negamax_returns_in_time_witness :
  exists v st',
    negamax (env tempo) 3 (mkRules 0 1) NegInf PosInf 1 100%Q None fresh_state
    = Returned v st'.
Proof.
  apply (negamax_returns_in_time (env tempo) 3 (mkRules 0 1) NegInf PosInf 1
           100%Q None fresh_state).
  intros k _. reflexivity.
Defined.

Lemma cached_value_returned_again_witness :
  negamax (env passing) 3 (mkRules 0 1) (Fin 0) (Fin 10) 1 7%Q (Some tt)
    (final_state
       (negamax (env passing) 3 (mkRules 0 1) (Fin (-50)) (Fin 50) 1 100%Q None
                fresh_state))
  = Returned (Fin 50)
      (entered (env passing)
         (final_state
            (negamax (env passing) 3 (mkRules 0 1) (Fin (-50)) (Fin 50) 1 100%Q
                     None fresh_state))) /\
  nodes_visited
    (entered (env passing)
       (final_state
          (negamax (env passing) 3 (mkRules 0 1) (Fin (-50)) (Fin 50) 1 100%Q
                   None fresh_state)))
  = nodes_visited
      (final_state
         (negamax (env passing) 3 (mkRules 0 1) (Fin (-50)) (Fin 50) 1 100%Q
                  None fresh_state)) + 1 /\
  ttable
    (entered (env passing)
       (final_state
          (negamax (env passing) 3 (mkRules 0 1) (Fin (-50)) (Fin 50) 1 100%Q
                   None fresh_state)))
  = ttable
      (final_state
         (negamax (env passing) 3 (mkRules 0 1) (Fin (-50)) (Fin 50) 1 100%Q
                  None fresh_state)).
Proof.
  apply (cached_value_returned_again (env passing) 3 (mkRules 0 1) (mkRules 0 1)
           (Fin (-50)) (Fin 50) (Fin 0) (Fin 10) 1 1 100%Q 7%Q None (Some tt)
           fresh_state).
  - vm_compute. reflexivity.
  - reflexivity.
  - vm_compute. reflexivity.
Defined.

Lemma negamax_returns_integers_witness :
  match negamax (env passing) 3 (mkRules 0 1) (Fin (-50)) (Fin 50) 1 100%Q None
                fresh_state with
  | Returned v st' => finite v /\ finite_cache st'
  | Raised st' => finite_cache st'
  end.
Proof.
  apply (negamax_returns_integers (env passing) 3 (mkRules 0 1) (Fin (-50))
           (Fin 50) 1 100%Q None fresh_state).
  - discriminate.
  - discriminate.
  - intros key v H. simpl in H. rewrite lookup_empty in H. discriminate.
Defined.

Lemma no_move_only_out_of_time_witness :
  exists budget,
    Phase.allocate_time "A r" = Some budget /\
    (chosen (choose_best_move (env two_moves) "A r" None fresh_state) = Some None <->
     quick_win (env two_moves) (mkRules 0 1) 1
       (PyStr.slice 0 3
          (ordered_moves (env two_moves) (mkRules 0 1)
             (get_legal_moves (env two_moves) (mkRules 0 1) 1))) = None /\
     (timed_out (Float.add (time_at (env two_moves) (clock fresh_state)) budget)
                (time_at (env two_moves) (S (clock fresh_state))) = true \/
      timed_out (Float.add (time_at (env two_moves) (clock fresh_state)) budget)
                (time_at (env two_moves) (S (S (clock fresh_state)))) = true)).
Proof.
  apply (no_move_only_out_of_time (env two_moves) "A r" None fresh_state 0 1).
  - reflexivity.
  - vm_compute. discriminate.
Defined.

Lemma pass_endings_witness :
  match root_loop (env two_moves) 1 (mkRules 0 1) 100%Q (Some tt)
                  [to_pos 1; to_pos 2] NegInf PosInf NegInf None fresh_state with
  | RootDone _ _ =>
      map fst (scored (env two_moves) 1 (mkRules 0 1) 100%Q (Some tt)
                      [to_pos 1; to_pos 2] NegInf PosInf NegInf fresh_state)
      = [to_pos 1; to_pos 2]
  | RootWin bm _ =>
      exists earlier mv s,
        scored (env two_moves) 1 (mkRules 0 1) 100%Q (Some tt)
               [to_pos 1; to_pos 2] NegInf PosInf NegInf fresh_state
        = (earlier ++ [(mv, s)])%list /\
        bm = Some mv /\
        Score.leb (Fin WIN_SCORE) s = true /\
        lt (length earlier) (length [to_pos 1; to_pos 2]) /\
        forall x, In x earlier -> Score.leb (Fin WIN_SCORE) (snd x) = false
  | RootTimeout _ _ =>
      lt (length (scored (env two_moves) 1 (mkRules 0 1) 100%Q (Some tt)
                         [to_pos 1; to_pos 2] NegInf PosInf NegInf fresh_state))
         (length [to_pos 1; to_pos 2])
  end.
Proof.
  apply (pass_endings (env two_moves) 1 (mkRules 0 1) 100%Q (Some tt)
           [to_pos 1; to_pos 2] NegInf PosInf NegInf None fresh_state).
  reflexivity.
Defined.

Lemma minmax_choice_none_iff_witness :
  MinMax.choose_best_move (env early_win) "A r" 2 0 = None <->
  get_legal_moves (env early_win) (mkRules 0 1) 1 = [].
Proof.
  refine (minmax_choice_none_iff (env early_win) _ "A r" 1 0).
  intros rules player mv _. discriminate.
Defined.

Lemma minmax_choice_legal_witness :
  exists root player,
    parse_fen (parse_rows (env early_win)) "A r" = Some (root, player) /\
    In (to_pos 1) (get_legal_moves (env early_win) (mkRules root player) player).
Proof.
  apply (minmax_choice_legal (env early_win) "A r" 4 7 (to_pos 1) 8).
  vm_compute. reflexivity.
Defined.

Lemma minmax_immediate_win_witness :
  MinMax.choose_best_move (env win_last) "A r" 4 7 = Some (to_pos 2, 7 + 1).
Proof.
  apply (minmax_immediate_win (env win_last) "A r" 4 7 0 1 (to_pos 2)).
  - reflexivity.
  - vm_compute. discriminate.
  - reflexivity.
Defined.

Lemma low_material_is_critical_witness :
  Phase.detect_game_phase "3RG3/7/7/7/7/7/3BG3 r" = Some "critical" /\
  Phase.allocate_time "3RG3/7/7/7/7/7/3BG3 r" = Some 0.5%Q.
Proof.
  apply (PhaseMoreFacts.low_material_is_critical "3RG3/7/7/7/7/7/3BG3 r").
  - vm_compute. discriminate.
  - left. vm_compute. discriminate.
Defined.

Lemma side_to_move_agrees_witness :
  parse_fen (Bitboard.parse_rows Bitboard.SIZE Bitboard.set_bit)
            (Bitboard.start_placement ++ " " ++ "r") =
  match Bitboard.parse_rows Bitboard.SIZE Bitboard.set_bit Bitboard.start_placement with
  | Some b => Some (b, Phase.player_of (Bitboard.start_placement ++ " " ++ "r"))
  | None => None
  end.
Proof.
  apply (PhaseMoreFacts.side_to_move_agrees
           (Bitboard.parse_rows Bitboard.SIZE Bitboard.set_bit)
           Bitboard.start_placement "r").
  - discriminate.
  - reflexivity.
  - left. reflexivity.
Defined.

(** Setting the bit of a square of the 7 x 7 board keeps a bitboard within
    49 bits. *)
Lemma set_bit_in_range (bb x y : Z) :
  0 <= bb < 2 ^ 49 -> 0 <= x < 7 -> 0 <= y < 7 ->
  0 <= Bitboard.set_bit bb x y < 2 ^ 49.
Proof.
  intros Hbb Hx Hy. unfold Bitboard.set_bit, Bitboard.SIZE.
  rewrite Z.shiftl_1_l.
  assert (Hn : 0 <= y * 7 + x < 49) by lia.
  set (n := y * 7 + x) in *.
  assert (Hp : 0 < 2 ^ n) by (apply Z.pow_pos_nonneg; lia).
  assert (Hnn : 0 <= Z.lor bb (2 ^ n)) by (apply Z.lor_nonneg; lia).
  split; [exact Hnn|].
  assert (Hpos : 0 < Z.lor bb (2 ^ n)).
  { destruct (Z.eq_dec (Z.lor bb (2 ^ n)) 0) as [H0|H0]; [|lia].
    apply Z.lor_eq_0_iff in H0. lia. }
  apply Z.log2_lt_pow2; [exact Hpos|].
  rewrite Z.log2_lor by lia. rewrite Z.log2_pow2 by lia.
  apply Z.max_lub_lt; [|lia].
  destruct (Z.eq_dec bb 0) as [->|Hne]; [reflexivity|].
  apply Z.log2_lt_pow2; lia.
Qed.

Lemma parser_writes_board_squares_only_witness :
  FenText.bitboards (fun bb => 0 <= bb < 2 ^ 49) TurmWaechter.start_board.
Proof.
  refine (parser_writes_board_squares_only Bitboard.SIZE Bitboard.set_bit
            (fun bb => 0 <= bb < 2 ^ 49) _ _
            Bitboard.start_placement TurmWaechter.start_board _).
  - vm_compute. split; [discriminate|reflexivity].
  - intros bb x y. apply set_bit_in_range.
  - vm_compute. reflexivity.
Defined.

Lemma parser_accepts_plain_text_witness :
  exists b,
    Bitboard.parse_rows Bitboard.SIZE Bitboard.set_bit Bitboard.start_placement
    = Some b.
Proof.
  apply (parser_accepts_plain_text Bitboard.SIZE Bitboard.set_bit
           Bitboard.start_placement).
  vm_compute. reflexivity.
Defined.

Lemma formatted_move_validates_witness :
  MoveText.validate_move (MoveText.format_move_description ((3, 6), (3, 5), 1))
  = (0 <=? 1) /\
  MoveText.describe_move (3, 6) (3, 5) 1
  = MoveText.format_move_description ((3, 6), (3, 5), 1).
Proof.
  apply (MoveTextFacts.formatted_move_validates 3 6 3 5 1); lia.
Defined.

(** The moves of the game with two root moves stay on the board. *)
Lemma two_moves_on_board (rules : Rules (Board (env two_moves)))
    (player fx fy tx ty height : Z) :
  In ((fx, fy), (tx, ty), height) (get_legal_moves (env two_moves) rules player) ->
  0 <= fx < 7 /\ 0 <= fy < 7 /\ 0 <= tx < 7 /\ 0 <= ty < 7 /\ 0 <= height.
Proof.
  cbn. unfold to_pos.
  repeat match goal with
         | |- context [if ?b then _ else _] => destruct b
         end; cbn; intros H;
    repeat match goal with
           | H : _ \/ _ |- _ => destruct H as [H|H]
           end; try easy; injection H as <- <- <- <- <-; lia.
Qed.

Lemma client_sends_engine_move_witness :
  MoveText.validate_move (MoveText.format_move_description (to_pos 1)) = true /\
  MoveText.answer (env two_moves) "A r" fresh_state
  = (Some (MoveText.format_move_description (to_pos 1)),
     left_state (choose_best_move (env two_moves) "A r" None fresh_state)).
Proof.
  pose proof (client_sends_engine_move (env two_moves) two_moves_on_board "A r"
                fresh_state) as H.
  remember (choose_best_move (env two_moves) "A r" None fresh_state) as a eqn:Ha.
  vm_compute in Ha. subst a. exact H.
Defined.

Lemma evaluation_below_win_score_witness : - WIN_SCORE < -65 < WIN_SCORE.
Proof.
  apply (evaluation_below_win_score Bitboard.set_bit Bitboard.get_stack_owner
           Bitboard.distance_to_opponent_start set_bit_in_range
           (Bitboard.start_placement ++ " r") (-65)).
  vm_compute. reflexivity.
Defined.

(** The values of [two_moves] are small. *)
Lemma two_moves_bounded (fen : string) :
  - MinMax.WIN_SCORE
  <= evaluate (env (ToyMore.towers two_moves)) fen
       (DEFAULT_PARAMS (env (ToyMore.towers two_moves)))
  <= MinMax.WIN_SCORE.
Proof.
  unfold MinMax.WIN_SCORE. cbn.
  repeat match goal with |- context [if ?c then _ else _] => destruct c end; lia.
Qed.

Lemma minmax_is_negamax_witness :
  exists (z n' : Z),
    MinMax.minmax (env (ToyMore.towers two_moves)) 2 (mkRules 0 1) 1 0
    = Some (Fin z, n') /\
    Fin z = plain_value (env (ToyMore.towers two_moves)) 2 (mkRules 0 1) 1 /\
    - MinMax.WIN_SCORE <= z <= MinMax.WIN_SCORE.
Proof.
  apply (minmax_is_negamax (env (ToyMore.towers two_moves)) two_moves_bounded
           2 (mkRules 0 1) 1 0).
  intros rules player mv _. discriminate.
Defined.

Lemma minmax_choice_is_best_witness :
  In (to_pos 2)
     (get_legal_moves (env (ToyMore.towers two_moves)) (mkRules 0 1) 1) /\
  (check_win_by_distance_or_capture (env (ToyMore.towers two_moves))
     (board (make_move (env (ToyMore.towers two_moves)) (mkRules 0 1) (to_pos 2))) 1
   = true \/
   ((forall m,
       In m (get_legal_moves (env (ToyMore.towers two_moves)) (mkRules 0 1) 1) ->
       check_win_by_distance_or_capture (env (ToyMore.towers two_moves))
         (board (make_move (env (ToyMore.towers two_moves)) (mkRules 0 1) m)) 1
       = false) /\
    (forall m,
       In m (get_legal_moves (env (ToyMore.towers two_moves)) (mkRules 0 1) 1) ->
       Score.leb (move_value (env (ToyMore.towers two_moves)) 1 (mkRules 0 1) 1 m)
                 (move_value (env (ToyMore.towers two_moves)) 1 (mkRules 0 1) 1
                    (to_pos 2)) = true))).
Proof.
  apply (minmax_choice_is_best (env (ToyMore.towers two_moves)) two_moves_bounded
           "A r" 1 0 0 1 (to_pos 2) 8).
  - reflexivity.
  - vm_compute. reflexivity.
Defined.

Lemma read_move_round_trip_witness :
  Demo.read_move (MoveText.format_move_description ((3, 6), (3, 5), 12))
  = Some (Some ((3, 6), (3, 5), 12)).
Proof.
  apply (DemoFacts.read_move_round_trip 3 6 3 5 12); try lia.
  apply Nat.leb_le. vm_compute. reflexivity.
Defined.

End Runs.
